(** * mochawesome: dist/utils.js

    A shallow embedding of the report-normalisation helpers of
    [dist/utils.js] ([getPercentClass], [removeAllPropsFromObjExcept],
    [cleanCode], [createUnifiedDiff], [normalizeErr], [cleanTest],
    [cleanSuite], [traverseSuites]), the properties the specification
    states about them, and further properties read off the code. *)

From Stdlib Require Import ZArith NArith Lia List Bool Ascii String.
From Stdlib Require QArith.
From stdpp Require Import base option list strings gmap.
Import ListNotations.

Set Default Proof Using "Type".
Set Warnings "-register-all,-clear-no-such-hyp".
Local Open Scope Z_scope.

(** ** JavaScript strings

    A JS string is a sequence of UTF-16 code units. Literals of the source
    are ASCII and written through [js]. *)

Definition jsstring := list N.

Definition js (s : string) : jsstring :=
  List.map N_of_ascii (list_ascii_of_string s).

Definition jseqb (a b : jsstring) : bool := bool_decide (a = b).

(** LineTerminator and WhiteSpace of ECMAScript, as used by [.], [^], [$]
    and [\s]. *)
Definition is_lt (c : N) : bool :=
  (N.eqb c 10 || N.eqb c 13 || N.eqb c 8232 || N.eqb c 8233)%N.

Definition is_ws (c : N) : bool :=
  (N.eqb c 9 || N.eqb c 10 || N.eqb c 11 || N.eqb c 12 || N.eqb c 13
   || N.eqb c 32 || N.eqb c 160 || N.eqb c 5760
   || (N.leb 8192 c && N.leb c 8202)
   || N.eqb c 8232 || N.eqb c 8233 || N.eqb c 8239 || N.eqb c 8287
   || N.eqb c 12288 || N.eqb c 65279)%N.

(** ** Regular expressions

    The fragment of ECMAScript patterns the file uses, with the
    backtracking semantics of the language: alternatives are tried left to
    right, quantifiers are greedy, one capture group. *)

Inductive regex : Type :=
| Eps
| Chr (p : N -> bool)
| Seq (a b : regex)
| Alt (a b : regex)
| Star (a : regex)
| Bol (multiline : bool)
| Eol (multiline : bool)
| Grp (a : regex).

Record mstate : Type := MState {
  m_prev : option N;       (* the code unit before the current position *)
  m_rest : jsstring;       (* the input from the current position on *)
  m_cap : option jsstring  (* capture group 1 *)
}.

Definition at_bol (multiline : bool) (s : mstate) : bool :=
  match m_prev s with
  | None => true
  | Some c => multiline && is_lt c
  end.

Definition at_eol (multiline : bool) (s : mstate) : bool :=
  match m_rest s with
  | [] => true
  | c :: _ => multiline && is_lt c
  end.

(** A greedy [a*]: one more iteration of [a], which has to consume input,
    before the continuation is tried. [n] bounds the number of iterations by
    the length of the input. *)
Fixpoint star_loop (ma : mstate -> (mstate -> option mstate) -> option mstate)
    (k : mstate -> option mstate) (n : nat) (s : mstate) : option mstate :=
  match n with
  | O => k s
  | S n' =>
      match ma s (fun s' =>
              if (length (m_rest s') <? length (m_rest s))%nat
              then star_loop ma k n' s' else None) with
      | Some e => Some e
      | None => k s
      end
  end.

Fixpoint rmatch (r : regex) (s : mstate) (k : mstate -> option mstate)
  : option mstate :=
  match r with
  | Eps => k s
  | Chr p =>
      match m_rest s with
      | c :: t => if p c then k (MState (Some c) t (m_cap s)) else None
      | [] => None
      end
  | Seq a b => rmatch a s (fun s' => rmatch b s' k)
  | Alt a b =>
      match rmatch a s k with
      | Some e => Some e
      | None => rmatch b s k
      end
  | Star a => star_loop (rmatch a) k (length (m_rest s)) s
  | Bol m => if at_bol m s then k s else None
  | Eol m => if at_eol m s then k s else None
  | Grp a =>
      rmatch a s (fun s' =>
        k (MState (m_prev s') (m_rest s')
             (Some (take (length (m_rest s) - length (m_rest s'))%nat
                         (m_rest s)))))
  end.

Definition Opt (a : regex) : regex := Alt a Eps.
Definition Plus (a : regex) : regex := Seq a (Star a).
Fixpoint Rep (n : nat) (a : regex) : regex :=
  match n with
  | O => Eps
  | S n' => Seq a (Rep n' a)
  end.
Definition Is (c : N) : regex := Chr (N.eqb c).
Fixpoint Lit (s : jsstring) : regex :=
  match s with
  | [] => Eps
  | c :: t => Seq (Is c) (Lit t)
  end.
Definition Dot : regex := Chr (fun c => negb (is_lt c)).
Definition Ws : regex := Chr is_ws.

(** [search r prev s]: the leftmost match of [r] in [s], where [prev] is the
    code unit before [s]. Returns the text skipped before the match and the
    state at its end. *)
Fixpoint search (r : regex) (prev : option N) (s : jsstring)
  : option (jsstring * mstate) :=
  match rmatch r (MState prev s None) Some with
  | Some e => Some ([], e)
  | None =>
      match s with
      | [] => None
      | c :: t =>
          match search r (Some c) t with
          | Some (pre, e) => Some (c :: pre, e)
          | None => None
          end
      end
  end.

(** [RegExp.prototype.test] / a truthy [String.prototype.match]. *)
Definition matches (r : regex) (s : jsstring) : bool :=
  bool_decide (is_Some (search r None s)).

(** [String.prototype.replace] with a pattern without the [g] flag: the
    first match is replaced. [rep] builds the replacement from capture 1. *)
Definition replace1 (r : regex) (rep : option jsstring -> jsstring)
    (s : jsstring) : jsstring :=
  match search r None s with
  | None => s
  | Some (pre, e) => pre ++ rep (m_cap e) ++ m_rest e
  end.

(** The same with the [g] flag: every match is replaced, scanning resumes at
    the end of a match, one code unit further after an empty match. *)
Fixpoint replace_from (fuel : nat) (r : regex)
    (rep : option jsstring -> jsstring) (prev : option N) (s : jsstring)
  : jsstring :=
  match fuel with
  | O => s
  | S fuel' =>
      match search r prev s with
      | None => s
      | Some (pre, e) =>
          let start := drop (length pre) s in
          if (length (m_rest e) <? length start)%nat
          then pre ++ rep (m_cap e)
                   ++ replace_from fuel' r rep (m_prev e) (m_rest e)
          else match m_rest e with
               | [] => pre ++ rep (m_cap e)
               | c :: t =>
                   pre ++ rep (m_cap e) ++ c
                       :: replace_from fuel' r rep (Some c) t
               end
      end
  end.

Definition replace_all (r : regex) (rep : option jsstring -> jsstring)
    (s : jsstring) : jsstring :=
  replace_from (S (length s)) r rep None s.

(** ** cleanCode (lines 75-86) *)

Definition re_newlines : regex :=
  Alt (Seq (Is 13) (Opt (Is 10)))
      (Chr (fun c => N.eqb c 10 || N.eqb c 8232 || N.eqb c 8233)%N).
Definition re_bom : regex := Seq (Bol false) (Is 65279).
Definition re_header : regex :=
  Alt (Seq (Bol false) (Seq (Lit (js "function")) (Seq (Star Ws)
        (Seq (Is 40) (Seq (Star Dot) (Seq (Is 41) (Seq (Star Ws)
        (Is 123))))))))
      (Seq (Is 40) (Seq (Star Dot) (Seq (Is 41) (Seq (Star Ws)
        (Seq (Lit (js "=>")) (Seq (Star Ws) (Opt (Is 123)))))))).
Definition re_closing : regex := Seq (Star Ws) (Seq (Is 125) (Eol false)).
Definition re_lead (c : N) : regex :=
  Seq (Bol false) (Seq (Opt (Is 10)) (Grp (Star (Is c)))).
Definition re_indent (c : N) (n : nat) : regex :=
  Seq (Bol true) (Seq (Opt (Is 10)) (Rep n (Is c))).
Definition re_trim : regex :=
  Alt (Seq (Bol false) (Plus Ws)) (Seq (Plus Ws) (Eol false)).

Definition drop_match : option jsstring -> jsstring := fun _ => [].

(** [str.match(re)[1].length] for a pattern that always matches. *)
Definition cap_length (r : regex) (s : jsstring) : nat :=
  match search r None s with
  | Some (_, e) => length (default [] (m_cap e))
  | None => 0
  end.

Definition cleanCode (str : jsstring) : jsstring :=
  let str := replace_all re_newlines (fun _ => [10%N]) str in
  let str := replace1 re_bom drop_match str in
  let str := replace1 re_header drop_match str in
  let str := replace1 re_closing drop_match str in
  let spaces := cap_length (re_lead 32) str in
  let tabs := cap_length (re_lead 9) str in
  let re := re_indent (if (0 <? tabs)%nat then 9%N else 32%N)
                      (if (0 <? tabs)%nat then tabs else spaces) in
  let str := replace_all re drop_match str in
  let str := replace_all re_trim drop_match str in
  str.

Example cleanCode_ex1 :
  cleanCode (js "function () {" ++ [10%N] ++ js "  if (a) {" ++ [10%N]
             ++ js "    b();" ++ [10%N] ++ js "  }" ++ [10%N] ++ js "}")
  = js "if (a) {" ++ [10%N] ++ js "  b();" ++ [10%N] ++ js "}".
Proof. vm_compute. reflexivity. Qed.

Example cleanCode_ex2 :
  cleanCode (js "if (a) {" ++ [10%N] ++ js "  b();" ++ [10%N] ++ js "}")
  = js "if (a) {" ++ [10%N] ++ js "  b();".
Proof. vm_compute. reflexivity. Qed.

(** ** Values

    The dynamically typed fields of the runner's objects ([actual],
    [expected], [showDiff], [pending], [uuid], ...) range over [value]:
    undefined, null, booleans, numbers, strings, arrays and plain
    objects. The numbers are the integers among the doubles, the two
    infinities and NaN; fractions are not covered. *)

Inductive value : Type :=
| VUndef
| VNull
| VBool (b : bool)
| VNum (n : Z)
| VStr (s : jsstring)
| VArr (items : list value)
| VObj (props : list (string * value))
| VInf (neg : bool)
| VNaN.

(** ToBoolean. *)
Definition truthy (v : value) : bool :=
  match v with
  | VUndef | VNull => false
  | VBool b => b
  | VNum n => negb (n =? 0)
  | VStr s => match s with [] => false | _ => true end
  | VArr _ | VObj _ | VInf _ => true
  | VNaN => false
  end.

(** [a || b] and [a && b] on values. *)
Definition js_or (a b : value) : value := if truthy a then a else b.
Definition js_and (a b : value) : value := if truthy a then b else a.

(** [v === 'lit'], [v === true], [v !== false], [v !== undefined]. *)
Definition is_str (lit : string) (v : value) : bool :=
  match v with VStr s => jseqb s (js lit) | _ => false end.
Definition is_true (v : value) : bool :=
  match v with VBool true => true | _ => false end.
Definition not_false (v : value) : bool :=
  match v with VBool false => false | _ => true end.
Definition not_undefined (v : value) : bool :=
  match v with VUndef => false | _ => true end.

(** [Object.prototype.toString.call(v)]. *)
Definition objToString (v : value) : string :=
  match v with
  | VUndef => "[object Undefined]"
  | VNull => "[object Null]"
  | VBool _ => "[object Boolean]"
  | VNum _ | VInf _ | VNaN => "[object Number]"
  | VStr _ => "[object String]"
  | VArr _ => "[object Array]"
  | VObj _ => "[object Object]"
  end.

Definition sameType (a b : value) : bool :=
  bool_decide (objToString a = objToString b).

(** ** Arithmetic

    The counter and the durations are numbers, and [+] on numbers is the
    addition of IEEE 754 doubles: the exact sum rounded to the nearest
    double, ties to the even mantissa, and to an infinity from [2^1024]
    on. Integers of magnitude up to [2^53] are doubles and their sums are
    exact up to that bound. *)

Inductive jsnum : Type :=
| Num (z : Z)
| Inf (neg : bool)
| NotNum.

Definition num_value (x : jsnum) : value :=
  match x with
  | Num z => VNum z
  | Inf neg => VInf neg
  | NotNum => VNaN
  end.

(** The double nearest to the integer [x]. *)
Definition round_double (x : Z) : jsnum :=
  let a := Z.abs x in
  if a <=? 2 ^ 53 then Num x
  else
    let e := Z.log2 a - 52 in
    let q := Z.shiftr a e in
    let r := Z.land a (Z.ones e) in
    let half := 2 ^ (e - 1) in
    let q' := if (half <? r) || ((r =? half) && Z.odd q) then q + 1 else q in
    let m := Z.shiftl q' e in
    if 2 ^ 1024 <=? m then Inf (x <? 0)
    else Num (if x <? 0 then - m else m).

Definition num_add (x y : jsnum) : jsnum :=
  match x, y with
  | Num a, Num b => round_double (a + b)
  | NotNum, _ | _, NotNum => NotNum
  | Inf s, Inf s' => if Bool.eqb s s' then Inf s else NotNum
  | Inf s, Num _ | Num _, Inf s => Inf s
  end.

(** [_.isString]. *)
Definition isString (v : value) : bool :=
  match v with VStr _ => true | _ => false end.

(** ** The libraries the file requires

    [diff], [mocha/lib/utils], [json-stringify-safe], [strip-ansi], [uuid]
    and [process.cwd()] are not part of the file; the embedding takes them
    as parameters. [v4 n] is the n-th identifier [uuid.v4()] hands out. *)

Record Ext : Type := {
  createPatch : jsstring -> jsstring -> jsstring -> jsstring;
  diffWordsWithSpace : jsstring -> jsstring -> list value;
  mocha_stringify : value -> jsstring;
  json_stringify : value -> value;
  stripAnsi : jsstring -> jsstring;
  v4 : nat -> jsstring;
  cwd : jsstring
}.

Record Config : Type := { useInlineDiffs : bool }.

(** ** createUnifiedDiff (lines 97-112) *)

(** [s.split('\n')] and [lines.join('\n')]. *)
Fixpoint split_nl (s : jsstring) : list jsstring :=
  match s with
  | [] => [[]]
  | c :: t =>
      if N.eqb c 10 then [] :: split_nl t
      else match split_nl t with
           | l :: ls => (c :: l) :: ls
           | [] => [[c]]
           end
  end.

Fixpoint join_nl (ls : list jsstring) : jsstring :=
  match ls with
  | [] => []
  | [l] => l
  | l :: ls' => l ++ 10%N :: join_nl ls'
  end.

Definition re_hunk : regex := Lit (js "@@").
Definition re_nonl : regex := Lit (92%N :: js " No newline").
Definition re_marker : regex := Seq (Bol false) (Grp (Alt (Is 45) (Is 43))).

(** The callback of [map]: [None] stands for [null]. *)
Definition diff_line (line : jsstring) : option jsstring :=
  if matches re_hunk line then None
  else if matches re_nonl line then None
  else Some (replace1 re_marker
               (fun cap => default [] cap ++ [32%N]) line).

(** The lines that survive [filter], before [join]. *)
Definition unified_lines (E : Ext) (actual expected : jsstring)
  : list jsstring :=
  omap diff_line
    (drop 4 (split_nl (createPatch E (js "string") actual expected))).

Definition createUnifiedDiff (E : Ext) (actual expected : jsstring)
  : jsstring :=
  join_nl (unified_lines E actual expected).

(** ** createInlineDiff (lines 123-128) *)

Definition createInlineDiff (E : Ext) (actual expected : jsstring)
  : list value :=
  diffWordsWithSpace E actual expected.

(** ** normalizeErr (lines 137-179) *)

Record RawErr : Type := {
  e_name : option jsstring;
  e_message : option jsstring;
  e_actual : value;
  e_expected : value;
  e_stack : option jsstring;
  e_showDiff : value
}.

Record NormErr : Type := {
  n_message : option jsstring;
  n_estack : option jsstring;
  n_diff : value
}.

Definition str_truthy (s : option jsstring) : bool :=
  match s with Some (_ :: _) => true | _ => false end.

Definition re_after_first_line : regex := Seq (Is 10) (Star Dot).

(** The condition of line 157. *)
Definition wants_diff (err : RawErr) : bool :=
  not_false (e_showDiff err)
  && sameType (e_actual err) (e_expected err)
  && not_undefined (e_expected err).

(** Lines 159-162: the error object after the assignments to [err.actual]
    and [err.expected]. *)
Definition format_err (E : Ext) (err : RawErr) : RawErr :=
  if negb (isString (e_actual err) && isString (e_expected err))
  then {| e_name := e_name err; e_message := e_message err;
          e_actual := VStr (mocha_stringify E (e_actual err));
          e_expected := VStr (mocha_stringify E (e_expected err));
          e_stack := e_stack err; e_showDiff := e_showDiff err |}
  else err.

Definition str_of (v : value) : jsstring :=
  match v with VStr s => s | _ => [] end.

(** [normalizeErr] returns the normalized record; the second component is
    the error object as the call leaves it. *)
Definition normalizeErr (E : Ext) (config : Config) (err : RawErr)
  : NormErr * RawErr :=
  let '(errDiff, err') :=
    if wants_diff err then
      let err' := format_err E err in
      let a := str_of (e_actual err') in
      let e := str_of (e_expected err') in
      (if useInlineDiffs config then VArr (createInlineDiff E a e)
       else VStr (createUnifiedDiff E a e), err')
    else (VUndef, err) in
  let errMessage :=
    if str_truthy (e_name err) && str_truthy (e_message err) then
      Some (default [] (e_name err) ++ js ": "
              ++ stripAnsi E (default [] (e_message err)))
    else if str_truthy (e_stack err) then
      Some (replace_all re_after_first_line drop_match
              (default [] (e_stack err)))
    else None in
  ({| n_message := errMessage;
      n_estack := if str_truthy (e_stack err)
                  then Some (stripAnsi E (default [] (e_stack err)))
                  else e_stack err;
      n_diff := errDiff |}, err').

(** ** cleanTest (lines 189-215) *)

(** [test.parent]: absent, the suite that owns the test (the link aliases
    the suite under normalization, so reads go to its current fields), or
    an object outside the tree with the given [root] and [uuid]. *)
Inductive parent_link : Type :=
| NoParent
| Owner
| Other (root uuid : value).

Record RawTest : Type := {
  t_title : value;
  t_fullTitle : option value;   (* [Some r]: a function returning [r] *)
  t_timedOut : value;
  t_duration : option Z;
  t_state : value;
  t_speed : value;
  t_pending : value;
  t_context : value;
  t_fn : option jsstring;       (* [Some src]: [fn.toString()] is [src] *)
  t_body : option jsstring;
  t_err : option RawErr;
  t_parent : parent_link;
  t_uuid : value;
  t_type : value
}.

Record CleanTest : Type := {
  c_title : value;
  c_fullTitle : value;
  c_timedOut : value;
  c_duration : Z;
  c_state : value;
  c_speed : value;
  c_pass : bool;
  c_fail : bool;
  c_pending : value;
  c_context : value;
  c_code : option jsstring;
  c_err : option NormErr;       (* [None]: the empty object *)
  c_isRoot : value;
  c_uuid : value;
  c_parentUUID : value;
  c_isHook : bool;
  c_skipped : bool
}.

Definition with_err (test : RawTest) (err : option RawErr) : RawTest :=
  {| t_title := t_title test; t_fullTitle := t_fullTitle test;
     t_timedOut := t_timedOut test; t_duration := t_duration test;
     t_state := t_state test; t_speed := t_speed test;
     t_pending := t_pending test; t_context := t_context test;
     t_fn := t_fn test; t_body := t_body test; t_err := err;
     t_parent := t_parent test; t_uuid := t_uuid test;
     t_type := t_type test |}.

(** [cleanTest E config owner test n]: [owner] is the [(root, uuid)] of the
    owning suite at the time of the call, [n] the number of identifiers
    drawn so far. Returns the normalized test, the raw test as the call
    leaves it, and the new number of identifiers drawn. *)
Definition cleanTest (E : Ext) (config : Config) (owner : value * value)
    (test : RawTest) (n : nat) : CleanTest * RawTest * nat :=
  let code := match t_fn test with
              | Some src => Some src
              | None => t_body test
              end in
  let '(err, raw_err) :=
    match t_err test with
    | Some e => let '(ne, e') := normalizeErr E config e in
                (Some ne, Some e')
    | None => (None, None)
    end in
  let '(uuid, n') :=
    if truthy (t_uuid test) then (t_uuid test, n)
    else (VStr (v4 E n), S n) in
  let pass := is_str "passed" (t_state test) in
  let fail := is_str "failed" (t_state test) in
  let isHook := is_str "hook" (t_type test) in
  ({| c_title := t_title test;
      c_fullTitle := match t_fullTitle test with
                     | Some r => r
                     | None => t_title test
                     end;
      c_timedOut := t_timedOut test;
      c_duration := match t_duration test with
                    | Some d => if d =? 0 then 0 else d
                    | None => 0
                    end;
      c_state := t_state test;
      c_speed := t_speed test;
      c_pass := pass;
      c_fail := fail;
      c_pending := t_pending test;
      c_context := json_stringify E (t_context test);
      c_code := match code with
                | Some ((_ :: _) as src) => Some (cleanCode src)
                | other => other
                end;
      c_err := err;
      c_isRoot := match t_parent test with
                  | NoParent => VUndef
                  | Owner => fst owner
                  | Other r _ => r
                  end;
      c_uuid := uuid;
      c_parentUUID := match t_parent test with
                      | NoParent => VUndef
                      | Owner => snd owner
                      | Other _ u => u
                      end;
      c_isHook := isHook;
      c_skipped := negb pass && negb fail && negb (truthy (t_pending test))
                   && negb isHook |},
   with_err test raw_err, n').

(** ** Suites

    A suite object is mutated in place and its set of own properties
    changes, so it is a finite map from property names to fields. The
    [suites] property, always an array of suites, is the list of children
    of the node; every other own property is in the map. *)

Inductive field : Type :=
| FVal (v : value)
| FTests (l : list RawTest)     (* an array of runner tests or hooks *)
| FClean (l : list CleanTest).  (* an array of normalized tests *)

Inductive suite : Type :=
| Suite (props : gmap string field) (suites : list suite).

Definition props (s : suite) : gmap string field :=
  match s with Suite P _ => P end.
Definition children (s : suite) : list suite :=
  match s with Suite _ kids => kids end.


(** ** Effects

    [cleanSuite] draws identifiers and increments the shared counter
    [totalTestsRegistered.total]; a call can also throw. [Untyped] marks an
    input outside the types above (an array of tests where a scalar is
    read, or the converse), [Diverges] a loop that ran out of fuel. *)

Record World : Type := { uuids : nat; total : jsnum }.

Inductive failure : Type := Throws | Untyped | Diverges.

Inductive res (A : Type) : Type :=
| Ok (a : A)
| Fail (f : failure).
Arguments Ok {A} a.
Arguments Fail {A} f.

Definition M (A : Type) : Type := World -> res (A * World).

Definition ret {A} (a : A) : M A := fun w => Ok (a, w).
Definition bind {A B} (m : M A) (k : A -> M B) : M B :=
  fun w => match m w with
           | Ok (a, w') => k a w'
           | Fail f => Fail f
           end.
Definition fail {A} (f : failure) : M A := fun _ => Fail f.
Definition lift {A} (r : res A) : M A :=
  fun w => match r with Ok a => Ok (a, w) | Fail f => Fail f end.

Notation "'do' x <- m ; k" := (bind m (fun x => k))
  (at level 10, x pattern, m at level 100, k at level 200).

(** ** removeAllPropsFromObjExcept (lines 59-65) *)

Definition removeAllPropsFromObjExcept (obj : gmap string field)
    (propsToKeep : list string) : gmap string field :=
  filter (fun kv => kv.1 ∈ propsToKeep) obj.

(** ** cleanSuite (lines 225-274) *)

Definition allow_list : list string :=
  ["title"; "fullFile"; "file"; "beforeHooks"; "afterHooks"; "tests";
   "suites"; "passes"; "failures"; "pending"; "skipped"; "hasBeforeHooks";
   "hasAfterHooks"; "hasTests"; "hasSuites"; "totalTests"; "totalPasses";
   "totalFailures"; "totalPending"; "totalSkipped"; "hasPasses";
   "hasFailures"; "hasPending"; "hasSkipped"; "root"; "uuid"; "duration";
   "rootEmpty"; "_timeout"].

(** A property read as a scalar. *)
Definition scalar (f : option field) : res value :=
  match f with
  | None => Ok VUndef
  | Some (FVal v) => Ok v
  | Some _ => Fail Untyped
  end.

(** The elements [[].concat(h)] contributes, handed to [cleanTest]: an
    absent collection contributes [undefined], on which [cleanTest]
    throws. *)
Definition hook_items (f : option field) : res (list RawTest) :=
  match f with
  | Some (FTests l) => Ok l
  | None | Some (FVal VUndef) | Some (FVal VNull) => Fail Throws
  | Some _ => Fail Untyped
  end.

(** [suite.tests] as mapped by [_.map] and measured by [.length]: [_.map]
    maps an absent collection to the empty array, [.length] then throws. *)
Definition test_items (f : option field) : res (list RawTest) :=
  match f with
  | Some (FTests l) => Ok l
  | None | Some (FVal VUndef) | Some (FVal VNull) => Fail Throws
  | Some _ => Fail Untyped
  end.

(** [_.map(tests, test => cleanTest(test, config))], threading the number
    of identifiers drawn. *)
Fixpoint clean_each (E : Ext) (config : Config) (owner : value * value)
    (tests : list RawTest) (n : nat) : list CleanTest * nat :=
  match tests with
  | [] => ([], n)
  | t :: ts =>
      let '(c, _, n1) := cleanTest E config owner t n in
      let '(cs, n2) := clean_each E config owner ts n1 in
      (c :: cs, n2)
  end.

Definition map_cleanTest (E : Ext) (config : Config) (owner : value * value)
    (tests : list RawTest) : M (list CleanTest) :=
  fun w =>
    let '(cs, n) := clean_each E config owner tests (uuids w) in
    Ok (cs, {| uuids := n; total := total w |}).

(** [str.replace(pat, '')] with a string pattern: the first occurrence. *)
Fixpoint remove_first (pat s : jsstring) : jsstring :=
  if bool_decide (take (length pat) s = pat) then drop (length pat) s
  else match s with
       | [] => []
       | c :: t => c :: remove_first pat t
       end.

Definition strip_cwd (E : Ext) (file : value) : res value :=
  if truthy file then
    match file with
    | VStr s => Ok (VStr (remove_first (cwd E) s))
    | _ => Fail Throws
    end
  else Ok (VStr []).

Definition fbool (b : bool) : field := FVal (VBool b).
Definition fnum (n : nat) : field := FVal (VNum (Z.of_nat n)).
Definition nonempty {A} (l : list A) : bool := (0 <? length l)%nat.

Definition cleanSuite (E : Ext) (config : Config) (s : suite) : M suite :=
  let '(Suite P kids) := s in
  do u <- (fun w => Ok (v4 E (uuids w),
                        {| uuids := S (uuids w); total := total w |}));
  let P := <["uuid" := FVal (VStr u)]> P in
  do root <- lift (scalar (P !! "root"));
  let owner := (root, VStr u) in
  do beforeAll <- lift (hook_items (P !! "_beforeAll"));
  do beforeEach <- lift (hook_items (P !! "_beforeEach"));
  do beforeHooks <- map_cleanTest E config owner (beforeAll ++ beforeEach);
  do afterAll <- lift (hook_items (P !! "_afterAll"));
  do afterEach <- lift (hook_items (P !! "_afterEach"));
  do afterHooks <- map_cleanTest E config owner (afterAll ++ afterEach);
  do tests <- lift (test_items (P !! "tests"));
  do cleanTests <- map_cleanTest E config owner tests;
  let passingTests :=
    filter (fun t => is_str "passed" (c_state t)) cleanTests in
  let failingTests :=
    filter (fun t => is_str "failed" (c_state t)) cleanTests in
  let pendingTests := filter (fun t => is_true (c_pending t)) cleanTests in
  let skippedTests := filter (fun t => c_skipped t = true) cleanTests in
  let duration :=
    foldl (fun d t => num_add d (Num (c_duration t))) (Num 0) cleanTests in
  do _ <- (fun w =>
             Ok (tt, {| uuids := uuids w;
                        total := num_add (total w)
                                   (Num (Z.of_nat (length tests))) |}));
  let P := <["beforeHooks" := FClean beforeHooks]> P in
  let P := <["afterHooks" := FClean afterHooks]> P in
  let P := <["tests" := FClean cleanTests]> P in
  do file <- lift (scalar (P !! "file"));
  let P := <["fullFile" := FVal (js_or file (VStr []))]> P in
  do file' <- lift (strip_cwd E file);
  let P := <["file" := FVal file']> P in
  let P := <["passes" := FClean passingTests]> P in
  let P := <["failures" := FClean failingTests]> P in
  let P := <["pending" := FClean pendingTests]> P in
  let P := <["skipped" := FClean skippedTests]> P in
  let P := <["hasBeforeHooks" := fbool (nonempty beforeHooks)]> P in
  let P := <["hasAfterHooks" := fbool (nonempty afterHooks)]> P in
  let P := <["hasTests" := fbool (nonempty cleanTests)]> P in
  let P := <["hasSuites" := fbool (nonempty kids)]> P in
  let P := <["totalTests" := fnum (length cleanTests)]> P in
  let P := <["totalPasses" := fnum (length passingTests)]> P in
  let P := <["totalFailures" := fnum (length failingTests)]> P in
  let P := <["totalPending" := fnum (length pendingTests)]> P in
  let P := <["totalSkipped" := fnum (length skippedTests)]> P in
  let P := <["hasPasses" := fbool (nonempty passingTests)]> P in
  let P := <["hasFailures" := fbool (nonempty failingTests)]> P in
  let P := <["hasPending" := fbool (nonempty pendingTests)]> P in
  let P := <["hasSkipped" := fbool (nonempty skippedTests)]> P in
  let P := <["duration" := FVal (num_value duration)]> P in
  let P := <["rootEmpty" :=
              FVal (js_and root (VBool (length cleanTests =? 0)%nat))]> P in
  ret (Suite (removeAllPropsFromObjExcept P allow_list) kids).

(** ** traverseSuites (lines 284-299)

    The queue holds references to suite objects of the tree under
    traversal; a reference is the path of child indices from the argument
    suite, and a mutation through it updates the tree at that path. *)

Definition path := list nat.

Fixpoint sub (s : suite) (p : path) : option suite :=
  match p with
  | [] => Some s
  | i :: p' =>
      match children s !! i with
      | Some k => sub k p'
      | None => None
      end
  end.

Fixpoint upd_at (p : path) (f : suite -> M suite) (s : suite) : M suite :=
  match p with
  | [] => f s
  | i :: p' =>
      match children s !! i with
      | Some k =>
          do k' <- upd_at p' f k;
          ret (Suite (props s) (<[i := k']> (children s)))
      | None => fail Untyped
      end
  end.

Definition root_flag (s : suite) : res bool :=
  match scalar (props s !! "root") with
  | Ok v => Ok (truthy v)
  | Fail f => Fail f
  end.

(** The callback of [_.each(next.suites, ...)] over the indices [idxs]. *)
Fixpoint each_suite (E : Ext) (config : Config) (next : path)
    (idxs : list nat) (tree : suite) (queue : list path)
  : M (suite * list path) :=
  match idxs with
  | [] => ret (tree, queue)
  | i :: idxs' =>
      do tree' <- upd_at (next ++ [i]) (cleanSuite E config) tree;
      each_suite E config next idxs' tree' (queue ++ [next ++ [i]])
  end.

(** One run of the [while] body for [next], then the rest of the loop. *)
Fixpoint traverse_loop (E : Ext) (config : Config) (fuel : nat)
    (next : path) (queue : list path) (tree : suite) : M suite :=
  match fuel with
  | O => fail Diverges
  | S fuel' =>
      do node <- lift (from_option Ok (Fail Untyped) (sub tree next));
      do flag <- lift (root_flag node);
      do tree1 <- (if flag
                   then upd_at next (cleanSuite E config) tree
                   else ret tree);
      do node1 <- lift (from_option Ok (Fail Untyped) (sub tree1 next));
      let n := length (children node1) in
      do r <- (if (0 <? n)%nat
               then each_suite E config next (seq 0 n) tree1 queue
               else ret (tree1, queue));
      match r.2 with
      | [] => ret r.1
      | p :: q => traverse_loop E config fuel' p q r.1
      end
  end.

Definition traverseSuites (E : Ext) (config : Config) (fuel : nat)
    (s : suite) : M suite :=
  traverse_loop E config fuel [] [] s.


(** ** Sample inputs

    Concrete inputs at which the statements below are evaluated. *)

Module Sample.

Definition nl : jsstring := [10%N].
Definition no_newline_marker : jsstring :=
  92%N :: js " No newline at end of file".

(** The text [diff.createPatch] (version 3 of the library) returns for
    two one-line texts that do not end in a newline: the four header
    lines and, when the texts differ, one hunk that removes the old line
    and adds the new one, with the no-newline marker once, after the
    removed line. Equal texts give the header alone. *)
Definition patch_one_line (fileName old new : jsstring) : jsstring :=
  js "Index: " ++ fileName ++ nl
  ++ repeat 61%N 67 ++ nl
  ++ js "--- " ++ fileName ++ nl
  ++ js "+++ " ++ fileName ++ nl
  ++ (if bool_decide (old = new) then []
      else js "@@ -1,1 +1,1 @@" ++ nl
           ++ js "-" ++ old ++ nl
           ++ no_newline_marker ++ nl
           ++ js "+" ++ new ++ nl).

(** Identifiers are pairwise different: the n-th one has n+1 letters. *)
Definition ext : Ext := {|
  createPatch := patch_one_line;
  diffWordsWithSpace := fun _ _ => [];
  mocha_stringify := fun v => match v with
                              | VNum 1 => js "1"
                              | VNum 2 => js "2"
                              | _ => js "{}"
                              end;
  json_stringify := fun _ => VUndef;
  stripAnsi := fun s => s;
  v4 := fun n => repeat 97%N (S n);
  cwd := js "/work"
|}.

Definition config : Config := {| useInlineDiffs := false |}.

Definition err (actual expected : value) : RawErr :=
  {| e_name := Some (js "AssertionError");
     e_message := Some (js "expected values to match");
     e_actual := actual; e_expected := expected;
     e_stack := None; e_showDiff := VUndef |}.

Definition test (state : value) (e : option RawErr) : RawTest :=
  {| t_title := VStr (js "works"); t_fullTitle := None;
     t_timedOut := VBool false; t_duration := Some 3;
     t_state := state; t_speed := VStr (js "fast");
     t_pending := VBool false; t_context := VUndef;
     t_fn := None; t_body := Some (js "check();");
     t_err := e; t_parent := Owner; t_uuid := VUndef;
     t_type := VStr (js "test") |}.

Definition passed : RawTest := test (VStr (js "passed")) None.
Definition failed : RawTest :=
  test (VStr (js "failed")) (Some (err (VStr (js "foo")) (VStr (js "bar")))).

(** A suite as the runner builds it. *)
Definition raw_suite (root : bool) (tests : list RawTest)
    (suites : list suite) : suite :=
  Suite (list_to_map
           [("title", FVal (VStr (js "suite")));
            ("root", FVal (VBool root));
            ("_timeout", FVal (VNum 2000));
            ("ctx", FVal (VObj []));
            ("delayed", FVal (VBool false));
            ("pending", FVal (VBool false));
            ("tests", FTests tests);
            ("_beforeAll", FTests []); ("_beforeEach", FTests []);
            ("_afterAll", FTests []); ("_afterEach", FTests [])])
        suites.

(** The example of the specification: a root suite with one child suite
    holding a passed and a failed test. *)
Definition child : suite := raw_suite false [passed; failed] [].
Definition tree : suite := raw_suite true [] [child].

Definition world0 : World := {| uuids := 0; total := Num 0 |}.

End Sample.

(** * Properties *)

(** ** cleanTest *)

(** C2. The [skipped] flag of a normalized test is the conjunction of the
    negations of its [pass], [fail], [pending] and [isHook] fields; it is
    true exactly when none of the four holds. *)
Theorem cleanTest_skipped :
  forall (E : Ext) (config : Config) (owner : value * value)
         (t : RawTest) (n : nat),
    let c := (cleanTest E config owner t n).1.1 in
    c_skipped c
    = negb (c_pass c) && negb (c_fail c) && negb (truthy (c_pending c))
      && negb (c_isHook c)
    /\ (c_skipped c = true <->
        c_pass c = false /\ c_fail c = false
        /\ truthy (c_pending c) = false /\ c_isHook c = false).
Proof.
  intros E config owner t n c. subst c. unfold cleanTest.
  destruct (t_err t) as [e|]; [destruct (normalizeErr E config e)|];
    destruct (truthy (t_uuid t)); simpl;
    (split; [reflexivity|]);
    rewrite !andb_true_iff, !negb_true_iff; tauto.
Qed.

(** ** normalizeErr *)

(** The two texts handed to the diff builder. *)
Definition diff_inputs (E : Ext) (err : RawErr) : jsstring * jsstring :=
  match e_actual err, e_expected err with
  | VStr a, VStr e => (a, e)
  | a, e => (mocha_stringify E a, mocha_stringify E e)
  end.

Lemma wants_diff_spec (err : RawErr) :
  wants_diff err = true <->
  e_showDiff err <> VBool false /\ e_actual err <> VUndef
  /\ e_expected err <> VUndef
  /\ objToString (e_actual err) = objToString (e_expected err).
Proof.
  unfold wants_diff, sameType.
  rewrite !andb_true_iff, bool_decide_eq_true.
  destruct (e_showDiff err) as [| |[|]| | | | | |];
    destruct (e_actual err), (e_expected err); simpl;
    intuition (try discriminate; try congruence).
Qed.

Lemma normalizeErr_diff_eq (E : Ext) (config : Config) (err : RawErr) :
  n_diff (normalizeErr E config err).1
  = if wants_diff err then
      let '(a, e) := diff_inputs E err in
      if useInlineDiffs config then VArr (createInlineDiff E a e)
      else VStr (createUnifiedDiff E a e)
    else VUndef.
Proof.
  unfold normalizeErr, diff_inputs, format_err.
  destruct (wants_diff err); [|reflexivity].
  destruct err as [nm msg a e st sd]; simpl.
  destruct a, e, (useInlineDiffs config); reflexivity.
Qed.

(** C5. The [diff] field of the record [normalizeErr] returns is defined
    exactly when [showDiff] is not [false], [actual] and [expected] are
    both defined and of the same runtime type; it is then the diff, in the
    configured mode, of the two values themselves when both are strings and
    of their [mochaUtils.stringify] texts otherwise. *)
Theorem normalizeErr_diff :
  forall (E : Ext) (config : Config) (err : RawErr),
    let r := (normalizeErr E config err).1 in
    (n_diff r <> VUndef <->
     e_showDiff err <> VBool false /\ e_actual err <> VUndef
     /\ e_expected err <> VUndef
     /\ objToString (e_actual err) = objToString (e_expected err))
    /\ n_diff r
       = (if wants_diff err then
            let '(a, e) := diff_inputs E err in
            if useInlineDiffs config then VArr (createInlineDiff E a e)
            else VStr (createUnifiedDiff E a e)
          else VUndef)
    /\ diff_inputs E err
       = (if isString (e_actual err) && isString (e_expected err)
          then (str_of (e_actual err), str_of (e_expected err))
          else (mocha_stringify E (e_actual err),
                mocha_stringify E (e_expected err))).
Proof.
  intros E config err r. subst r.
  split; [|split].
  - rewrite <- wants_diff_spec, normalizeErr_diff_eq.
    destruct (wants_diff err).
    + destruct (diff_inputs E err), (useInlineDiffs config);
        split; intros; (reflexivity || discriminate).
    + split; intros; (congruence || discriminate).
  - apply normalizeErr_diff_eq.
  - unfold diff_inputs.
    destruct (e_actual err), (e_expected err); reflexivity.
Qed.

(** What [normalizeErr] leaves in the error object. *)
Lemma normalizeErr_effect (E : Ext) (config : Config) (err : RawErr) :
  (normalizeErr E config err).2
  = if wants_diff err then format_err E err else err.
Proof.
  unfold normalizeErr. destruct (wants_diff err); reflexivity.
Qed.

Lemma cleanTest_effect (E : Ext) (config : Config) (owner : value * value)
    (t : RawTest) (n : nat) :
  (cleanTest E config owner t n).1.2
  = with_err t (option_map (fun e => (normalizeErr E config e).2) (t_err t)).
Proof.
  unfold cleanTest.
  destruct (t_err t) as [e|];
    [destruct (normalizeErr E config e) eqn:He|];
    destruct (truthy (t_uuid t)); simpl; rewrite ?He; reflexivity.
Qed.

(** C4, as stated, fails: normalizing an error whose [actual] and
    [expected] are the numbers 1 and 2 overwrites both fields of the error
    object, and so does normalizing a test that carries this error. *)
Lemma purity_counterexample :
  ~ (forall (E : Ext) (config : Config) (err : RawErr)
            (owner : value * value) (t : RawTest) (n : nat),
        (normalizeErr E config err).2 = err
        /\ (cleanTest E config owner t n).1.2 = t).
Proof.
  intros H.
  destruct (H Sample.ext Sample.config (Sample.err (VNum 1) (VNum 2))
              (VUndef, VUndef) Sample.passed 0%nat) as [H1 _].
  vm_compute in H1. discriminate H1.
Qed.

(** C4, amended. [normalizeErr] leaves the error object unchanged when no
    diff is computed or [actual] and [expected] are both strings;
    otherwise it overwrites [err.actual] and [err.expected] with their
    [mochaUtils.stringify] texts and nothing else. [cleanTest] changes its
    test only through that effect on [test.err]. *)
Theorem purity_amended :
  forall (E : Ext) (config : Config) (err : RawErr)
         (owner : value * value) (t : RawTest) (n : nat),
    (normalizeErr E config err).2
    = (if wants_diff err
          && negb (isString (e_actual err) && isString (e_expected err))
       then {| e_name := e_name err; e_message := e_message err;
               e_actual := VStr (mocha_stringify E (e_actual err));
               e_expected := VStr (mocha_stringify E (e_expected err));
               e_stack := e_stack err; e_showDiff := e_showDiff err |}
       else err)
    /\ (cleanTest E config owner t n).1.2
       = with_err t
           (option_map (fun e => (normalizeErr E config e).2) (t_err t)).
Proof.
  intros E config err owner t n. split.
  - rewrite normalizeErr_effect. unfold format_err.
    destruct (wants_diff err); simpl; reflexivity.
  - apply cleanTest_effect.
Qed.

(** ** cleanSuite on the runner's suites *)

Definition is_tests (f : option field) : bool :=
  match f with Some (FTests _) => true | _ => false end.
Definition is_scalar (f : option field) : bool :=
  match f with None | Some (FVal _) => true | _ => false end.
Definition is_file (f : option field) : bool :=
  match f with
  | None => true
  | Some (FVal v) => negb (truthy v) || isString v
  | _ => false
  end.

(** The own properties of a suite as the runner builds it: the four hook
    collections and [tests] are arrays of tests, [root] is a scalar, [file]
    is a string when it is set. *)
Definition runner_props (P : gmap string field) : bool :=
  is_tests (P !! "_beforeAll") && is_tests (P !! "_beforeEach")
  && is_tests (P !! "_afterAll") && is_tests (P !! "_afterEach")
  && is_tests (P !! "tests") && is_scalar (P !! "root")
  && is_file (P !! "file").

(** [suite.tests.length] of a runner suite. *)
Definition tests_length (s : suite) : nat :=
  match props s !! "tests" with
  | Some (FTests l) => length l
  | Some (FClean l) => length l
  | _ => 0
  end.

(** The properties [cleanSuite] assigns (lines 226 and 248-271). *)
Definition assigned : list string :=
  ["uuid"; "beforeHooks"; "afterHooks"; "tests"; "fullFile"; "file";
   "passes"; "failures"; "pending"; "skipped"; "hasBeforeHooks";
   "hasAfterHooks"; "hasTests"; "hasSuites"; "totalTests"; "totalPasses";
   "totalFailures"; "totalPending"; "totalSkipped"; "hasPasses";
   "hasFailures"; "hasPending"; "hasSkipped"; "duration"; "rootEmpty"].

Lemma clean_each_length E config owner ts n :
  length (clean_each E config owner ts n).1 = length ts.
Proof.
  revert n. induction ts as [|t ts IH]; intros n; simpl; [reflexivity|].
  destruct (cleanTest E config owner t n) as [[c t'] n1].
  specialize (IH n1). destruct (clean_each E config owner ts n1).
  simpl in *. congruence.
Qed.

Lemma is_tests_inv (f : option field) :
  is_tests f = true -> exists l, f = Some (FTests l).
Proof. destruct f as [[]|]; simpl; try discriminate; eauto. Qed.

Lemma is_scalar_inv (f : option field) :
  is_scalar f = true -> exists v, scalar f = Ok v.
Proof. destruct f as [[]|]; simpl; try discriminate; eauto. Qed.

Lemma is_file_inv (E : Ext) (f : option field) :
  is_file f = true ->
  exists v v', scalar f = Ok v /\ strip_cwd E v = Ok v'.
Proof.
  destruct f as [[v| |]|]; simpl; try discriminate.
  - unfold strip_cwd. intros H. exists v.
    destruct (truthy v) eqn:Ht; [|eauto].
    destruct v; simpl in *; try discriminate; eauto.
  - unfold strip_cwd. simpl. eauto.
Qed.

Ltac look :=
  repeat (rewrite lookup_insert_ne by discriminate);
  try rewrite lookup_insert_eq.

Ltac red_m :=
  cbv beta iota zeta delta
    [bind lift ret fail hook_items test_items map_cleanTest uuids total].

(** On a runner suite [cleanSuite] returns: the suite keeps its children,
    its properties are the pruning of a map [Q] that extends the input by
    the assigned properties, and the counter grows by the number of direct
    tests. *)
Lemma cleanSuite_ok (E : Ext) (config : Config) (P : gmap string field)
    (kids : list suite) (w : World) :
  runner_props P = true ->
  exists (Q : gmap string field) (n' : nat) (cs : list CleanTest),
    cleanSuite E config (Suite P kids) w
    = Ok (Suite (removeAllPropsFromObjExcept Q allow_list) kids,
          {| uuids := n';
             total := num_add (total w)
                        (Num (Z.of_nat (tests_length (Suite P kids)))) |})
    /\ (forall k, k ∈ assigned -> is_Some (Q !! k))
    /\ (forall k, k ∉ assigned -> Q !! k = P !! k)
    /\ Q !! "uuid" = Some (FVal (VStr (v4 E (uuids w))))
    /\ Q !! "tests" = Some (FClean cs)
    /\ length cs = tests_length (Suite P kids)
    /\ Q !! "totalTests" = Some (fnum (length cs))
    /\ Q !! "failures"
       = Some (FClean (filter (fun t => is_str "failed" (c_state t)) cs))
    /\ (forall ts, P !! "tests" = Some (FTests ts) ->
         exists owner n2, cs = (clean_each E config owner ts n2).1).
Proof.
  unfold runner_props. rewrite !andb_true_iff.
  intros [[[[[[HbA HbE] HaA] HaE] Hts] Hroot] Hfile].
  apply is_tests_inv in HbA as [bA HbA], HbE as [bE HbE],
    HaA as [aA HaA], HaE as [aE HaE], Hts as [ts Hts].
  apply is_scalar_inv in Hroot as [rv Hroot].
  apply (is_file_inv E) in Hfile as (fv & fv' & Hfile & Hstrip).
  unfold tests_length, props. rewrite Hts.
  unfold cleanSuite.
  cbv beta iota zeta delta [bind lift ret fail map_cleanTest uuids total].
  look. rewrite Hroot, HbA, HbE, HaA, HaE, Hts. red_m.
  destruct (clean_each E config _ (bA ++ bE) _) as [bh n1] eqn:Hbh. red_m.
  destruct (clean_each E config _ (aA ++ aE) n1) as [ah n2] eqn:Hah. red_m.
  pose proof (clean_each_length E config (rv, VStr (v4 E (uuids w))) ts n2)
    as Hlen.
  destruct (clean_each E config _ ts n2) as [cs n3] eqn:Hcs. red_m.
  look. rewrite Hfile. red_m. rewrite Hstrip. red_m.
  eexists _, _, cs. split; [reflexivity|].
  split.
  { intros k Hk. unfold assigned in Hk.
    repeat (apply elem_of_cons in Hk as [->|Hk]; [look; eauto|]).
    by apply elem_of_nil in Hk. }
  split.
  { intros k Hk.
    assert (Forall (fun x => k <> x) assigned) as Hne.
    { apply Forall_forall. intros x Hx ->. exact (Hk Hx). }
    unfold assigned in Hne.
    repeat match goal with
           | H : Forall _ (_ :: _) |- _ => apply Forall_cons_1 in H as [? H]
           end.
    repeat (rewrite lookup_insert_ne by congruence). reflexivity. }
  split; [look; reflexivity|].
  split; [look; reflexivity|].
  split; [exact Hlen|].
  split; [look; reflexivity|].
  split; [look; reflexivity|].
  intros ts' Hts'. injection Hts' as <-.
  eexists _, n2. rewrite Hcs. reflexivity.
Qed.

(** ** Identifiers *)

Lemma cleanTest_uuid (E : Ext) (config : Config) (owner : value * value)
    (t : RawTest) (n : nat) :
  c_uuid (cleanTest E config owner t n).1.1
  = (if truthy (t_uuid t) then t_uuid t else VStr (v4 E n))
  /\ (cleanTest E config owner t n).2 = (if truthy (t_uuid t) then n else S n).
Proof.
  unfold cleanTest.
  destruct (t_err t) as [e|]; [destruct (normalizeErr E config e)|];
    destruct (truthy (t_uuid t)); split; reflexivity.
Qed.

Lemma lookup_pruned (Q : gmap string field) (k : string) :
  k ∈ allow_list ->
  removeAllPropsFromObjExcept Q allow_list !! k = Q !! k.
Proof.
  intros Hk. unfold removeAllPropsFromObjExcept.
  destruct (Q !! k) as [f|] eqn:HQ.
  - apply map_lookup_filter_Some. split; [exact HQ|exact Hk].
  - apply map_lookup_filter_None. left. exact HQ.
Qed.

Lemma in_allow_list (k : string) :
  bool_decide (k ∈ allow_list) = true -> k ∈ allow_list.
Proof. apply bool_decide_eq_true_1. Qed.

(** C3, as stated, fails: a raw test without a uuid gets one identifier
    from the first normalization and another one from the second, since the
    first call stores nothing on the raw test; and a suite that carries a
    uuid gets a new one. *)
Lemma uuid_counterexample :
  (let r := cleanTest Sample.ext Sample.config (VUndef, VUndef)
              Sample.passed 0 in
   c_uuid (cleanTest Sample.ext Sample.config (VUndef, VUndef) r.1.2 r.2).1.1
   <> c_uuid r.1.1)
  /\ (let s := Suite (<["uuid" := FVal (VStr (js "kept"))]>
                       (props Sample.child)) [] in
      exists s' w',
        cleanSuite Sample.ext Sample.config s Sample.world0 = Ok (s', w')
        /\ props s' !! "uuid" <> props s !! "uuid").
Proof.
  split.
  - vm_compute. discriminate.
  - destruct (cleanSuite_ok Sample.ext Sample.config
                (<["uuid" := FVal (VStr (js "kept"))]> (props Sample.child))
                [] Sample.world0)
      as (Q & n' & cs & Hrun & _ & _ & Hu & _); [vm_compute; reflexivity|].
    cbv zeta. eexists _, _. split; [exact Hrun|].
    cbn [props].
    rewrite lookup_pruned by (apply in_allow_list; vm_compute; reflexivity).
    rewrite Hu, lookup_insert_eq. vm_compute. discriminate.
Qed.

(** C3, amended. [cleanTest] reuses the uuid of a raw test that carries a
    truthy one and otherwise draws a fresh identifier for the returned
    record only: the raw test keeps its [uuid] field as it was, so a second
    normalization returns the same uuid when the test carried one and draws
    the next identifier otherwise. [cleanSuite] always assigns a fresh
    identifier, whatever uuid the suite carried. *)
Theorem uuid_amended :
  forall (E : Ext) (config : Config) (owner : value * value) (t : RawTest)
         (n : nat) (P : gmap string field) (kids : list suite) (w : World),
    runner_props P = true ->
    let r := cleanTest E config owner t n in
    c_uuid r.1.1 = (if truthy (t_uuid t) then t_uuid t else VStr (v4 E n))
    /\ t_uuid r.1.2 = t_uuid t
    /\ c_uuid (cleanTest E config owner r.1.2 r.2).1.1
       = (if truthy (t_uuid t) then t_uuid t else VStr (v4 E (S n)))
    /\ exists s' w',
         cleanSuite E config (Suite P kids) w = Ok (s', w')
         /\ props s' !! "uuid" = Some (FVal (VStr (v4 E (uuids w)))).
Proof.
  intros E config owner t n P kids w HP r. subst r.
  destruct (cleanTest_uuid E config owner t n) as [Hu Hn].
  assert (t_uuid (cleanTest E config owner t n).1.2 = t_uuid t) as Hraw.
  { rewrite cleanTest_effect. reflexivity. }
  split; [exact Hu|]. split; [exact Hraw|]. split.
  - destruct (cleanTest_uuid E config owner
                (cleanTest E config owner t n).1.2
                (cleanTest E config owner t n).2) as [Hu2 _].
    rewrite Hu2, Hraw, Hn. destruct (truthy (t_uuid t)); reflexivity.
  - destruct (cleanSuite_ok E config P kids w HP)
      as (Q & n' & cs & Hrun & _ & _ & HQ & _).
    eexists _, _. split; [exact Hrun|].
    cbn [props]. rewrite lookup_pruned; [exact HQ|].
    apply in_allow_list. vm_compute. reflexivity.
Qed.

Lemma uuid_amended_witness :
  runner_props (props Sample.child) = true
  /\ exists s' w',
       cleanSuite Sample.ext Sample.config (Suite (props Sample.child) [])
         Sample.world0 = Ok (s', w')
       /\ props s' !! "uuid" = Some (FVal (VStr (v4 Sample.ext 0))).
Proof.
  split; [vm_compute; reflexivity|].
  apply (uuid_amended Sample.ext Sample.config (VUndef, VUndef)
           Sample.passed 0%nat (props Sample.child) [] Sample.world0).
  vm_compute. reflexivity.
Defined.

(** ** The allow-list *)

Lemma assigned_allowed (k : string) : k ∈ assigned -> k ∈ allow_list.
Proof.
  intros Hk. unfold assigned in Hk.
  repeat (apply elem_of_cons in Hk as [->|Hk];
          [apply in_allow_list; vm_compute; reflexivity|]).
  by apply elem_of_nil in Hk.
Qed.





(** ** The unified diff *)

(** Plain text predicates: [has_prefix pat s], and [contains pat s] when
    [pat] occurs somewhere in [s]. *)
Fixpoint has_prefix (pat s : jsstring) : bool :=
  match pat, s with
  | [], _ => true
  | p :: pat', c :: s' => N.eqb p c && has_prefix pat' s'
  | _ :: _, [] => false
  end.

Fixpoint contains (pat s : jsstring) : bool :=
  has_prefix pat s
  || match s with
     | [] => false
     | _ :: s' => contains pat s'
     end.

Lemma rmatch_Lit (pat : jsstring) (prev : option N) (s : jsstring)
    (cap : option jsstring) :
  is_Some (rmatch (Lit pat) (MState prev s cap) Some)
  <-> has_prefix pat s = true.
Proof.
  revert prev s. induction pat as [|p pat IH]; intros prev s; simpl.
  - split; eauto.
  - destruct s as [|c s]; simpl.
    + split; [intros [? ?]; discriminate|discriminate].
    + destruct (N.eqb p c); simpl; [apply IH|].
      split; [intros [? ?]; discriminate|discriminate].
Qed.

Lemma search_Lit (pat : jsstring) (prev : option N) (s : jsstring) :
  is_Some (search (Lit pat) prev s) <-> contains pat s = true.
Proof.
  revert prev. induction s as [|c s IH]; intros prev.
  - simpl. pose proof (rmatch_Lit pat prev [] None) as H.
    destruct (rmatch (Lit pat) (MState prev [] None) Some).
    + rewrite orb_false_r. split; [intros _; apply H; eauto|eauto].
    + rewrite orb_false_r. split; [intros [? ?]; discriminate|].
      intros Hp. apply H in Hp as [? ?]. discriminate.
  - cbn [search contains].
    pose proof (rmatch_Lit pat prev (c :: s) None) as H.
    destruct (rmatch (Lit pat) (MState prev (c :: s) None) Some).
    + split; [intros _|eauto].
      apply orb_true_iff. left. apply H. eauto.
    + specialize (IH (Some c)).
      destruct (has_prefix pat (c :: s)).
      { destruct H as [_ H]. destruct (H eq_refl). discriminate. }
      simpl. rewrite <- IH.
      destruct (search (Lit pat) (Some c) s) as [[pre e]|].
      * split; eauto.
      * split; intros [? ?]; discriminate.
Qed.

Lemma matches_Lit (pat s : jsstring) :
  matches (Lit pat) s = contains pat s.
Proof.
  unfold matches. pose proof (search_Lit pat None s) as H.
  destruct (contains pat s).
  - apply bool_decide_eq_true. apply H. reflexivity.
  - apply bool_decide_eq_false. intros Hs. apply H in Hs. discriminate.
Qed.

(** Line 108: a space after a leading [-] or [+]. *)
Definition mark (line : jsstring) : jsstring :=
  match line with
  | c :: t => if (N.eqb 45 c || N.eqb 43 c)%N then c :: 32%N :: t else line
  | [] => []
  end.

Lemma search_marker_inner (c : N) (s : jsstring) :
  search re_marker (Some c) s = None.
Proof.
  revert c. induction s as [|d s IH]; intros c; simpl; [reflexivity|].
  rewrite IH. reflexivity.
Qed.

Lemma replace1_marker (line : jsstring) :
  replace1 re_marker (fun cap => default [] cap ++ [32%N]) line = mark line.
Proof.
  unfold replace1. destruct line as [|c t]; [reflexivity|].
  cbn [search re_marker rmatch at_bol m_prev m_rest m_cap Is].
  unfold mark.
  assert (S (length t) - length t = 1)%nat as Hone by lia.
  destruct (N.eqb 45 c) eqn:H45; cbn [orb length m_rest m_cap default].
  - rewrite Hone. reflexivity.
  - destruct (N.eqb 43 c) eqn:H43; cbn [orb length m_rest m_cap default].
    + rewrite Hone. reflexivity.
    + rewrite search_marker_inner. reflexivity.
Qed.












(** ** The suite tree: paths and in-place updates *)

(** [put p x t]: the tree [t] with the subtree at path [p] replaced by
    [x]. *)
Fixpoint put (p : path) (x : suite) (t : suite) : suite :=
  match p with
  | [] => x
  | i :: p' =>
      match children t !! i with
      | Some k => Suite (props t) (<[i := put p' x k]> (children t))
      | None => t
      end
  end.

(** [q] lies strictly below [p]. *)
Definition under (p q : path) : Prop :=
  exists rest, rest <> [] /\ q = p ++ rest.

Lemma sub_app (t : suite) (p r : path) :
  sub t (p ++ r) = sub t p ≫= fun c => sub c r.
Proof.
  revert t. induction p as [|i p IH]; intros t; [reflexivity|].
  simpl. destruct (children t !! i) as [k|]; [apply IH|reflexivity].
Qed.

Lemma upd_at_put (p : path) (f : suite -> M suite) (t old x : suite)
    (w w' : World) :
  sub t p = Some old -> f old w = Ok (x, w') ->
  upd_at p f t w = Ok (put p x t, w').
Proof.
  revert t. induction p as [|i p IH]; intros t Hsub Hf; simpl in *.
  - congruence.
  - destruct (children t !! i) as [k|] eqn:Hk; [|discriminate].
    unfold bind. rewrite (IH k Hsub Hf). reflexivity.
Qed.

Lemma sub_put_below (r rest : path) (x t old : suite) :
  sub t r = Some old -> sub (put r x t) (r ++ rest) = sub x rest.
Proof.
  revert t. induction r as [|i r IH]; intros t Hsub; simpl in *;
    [reflexivity|].
  destruct (children t !! i) as [k|] eqn:Hk; [|discriminate].
  cbn [children]. rewrite list_lookup_insert_eq by (eapply lookup_lt_Some, Hk).
  apply IH, Hsub.
Qed.

Lemma sub_put_above (q rest : path) (x t old : suite) :
  rest <> [] -> sub t (q ++ rest) = Some old ->
  exists c, sub t q = Some c
            /\ sub (put (q ++ rest) x t) q = Some (put rest x c)
            /\ props (put rest x c) = props c.
Proof.
  intros Hrest. revert t. induction q as [|i q IH]; intros t Hsub.
  - exists t. split; [reflexivity|]. split; [reflexivity|].
    destruct rest as [|j rest]; [congruence|]. simpl in *.
    destruct (children t !! j); reflexivity.
  - simpl in *. destruct (children t !! i) as [k|] eqn:Hk; [|discriminate].
    destruct (IH k Hsub) as (c & Hc & Hput & Hprops).
    exists c. split; [exact Hc|]. split; [|exact Hprops].
    cbn [children].
    rewrite list_lookup_insert_eq by (eapply lookup_lt_Some, Hk).
    exact Hput.
Qed.

Lemma sub_put_indep (r q : path) (x t : suite) :
  ~ r `prefix_of` q -> ~ q `prefix_of` r ->
  sub (put r x t) q = sub t q.
Proof.
  revert q t. induction r as [|i r IH]; intros q t Hrq Hqr.
  - destruct Hrq. apply prefix_nil.
  - destruct q as [|j q]; [destruct Hqr; apply prefix_nil|].
    simpl. destruct (children t !! i) as [k|] eqn:Hk; [|reflexivity].
    cbn [children]. destruct (decide (i = j)) as [->|Hij].
    + rewrite list_lookup_insert_eq by (eapply lookup_lt_Some, Hk).
      rewrite Hk. apply IH.
      * intros H. apply Hrq. apply prefix_cons, H.
      * intros H. apply Hqr. apply prefix_cons, H.
    + rewrite list_lookup_insert_ne by exact Hij. reflexivity.
Qed.

Lemma path_cases (r q : path) :
  r `prefix_of` q \/ under q r
  \/ (~ r `prefix_of` q /\ ~ q `prefix_of` r).
Proof.
  destruct (decide (r `prefix_of` q)) as [H|H]; [auto|].
  destruct (decide (q `prefix_of` r)) as [[rest ->]|H']; [|auto].
  right. left. exists rest. split; [|reflexivity].
  intros ->. apply H. rewrite app_nil_r. reflexivity.
Qed.

Lemma under_prefix (p q : path) : under p q -> p `prefix_of` q.
Proof. intros (rest & _ & ->). by eexists. Qed.

Lemma under_irrefl (p q : path) : under p q -> ~ q `prefix_of` p.
Proof.
  intros (rest & Hrest & ->) [k Hk]. apply Hrest.
  rewrite <- app_assoc in Hk.
  rewrite <- (app_nil_r p) in Hk at 1.
  apply app_inv_head in Hk. symmetry in Hk.
  by apply app_eq_nil in Hk as [-> _].
Qed.

(** ** Runner trees *)

(** A suite below the argument of [traverseSuites]: a runner suite that is
    not flagged [root], and so are all suites below it. *)
Fixpoint runner_tree (s : suite) : bool :=
  match s with
  | Suite P kids =>
      runner_props P
      && match scalar (P !! "root") with
         | Ok v => negb (truthy v)
         | Fail _ => false
         end
      && forallb runner_tree kids
  end.

(** The sum of [tests.length] over a suite and all suites below it. *)
Fixpoint sum_tests (s : suite) : nat :=
  match s with
  | Suite P kids => tests_length (Suite P kids) + sum_list (map sum_tests kids)
  end.

(** The same over the suites strictly below. *)
Definition sum_below (s : suite) : nat :=
  sum_list (map sum_tests (children s)).

Fixpoint size (s : suite) : nat :=
  match s with
  | Suite _ kids => S (sum_list (map size kids))
  end.

Lemma sum_tests_eq (s : suite) :
  sum_tests s = (tests_length s + sum_below s)%nat.
Proof. destruct s; reflexivity. Qed.

Lemma size_eq (s : suite) : size s = S (sum_list (map size (children s))).
Proof. destruct s; reflexivity. Qed.

Lemma runner_tree_inv (s : suite) :
  runner_tree s = true ->
  runner_props (props s) = true /\ root_flag s = Ok false
  /\ Forall (fun k => runner_tree k = true) (children s).
Proof.
  destruct s as [P kids]. cbn [runner_tree props children]. unfold root_flag.
  cbn [props]. rewrite !andb_true_iff. intros [[HP Hr] Hk].
  split; [exact HP|]. split.
  - destruct (scalar (P !! "root")) as [v|]; [|discriminate].
    apply negb_true_iff in Hr. rewrite Hr. reflexivity.
  - apply Forall_forall. intros k Hin.
    rewrite forallb_forall in Hk. apply Hk.
    apply list_elem_of_In. exact Hin.
Qed.

Lemma root_not_assigned : "root" ∉ assigned.
Proof.
  intros H. unfold assigned in H.
  repeat (apply elem_of_cons in H as [H|H]; [discriminate H|]).
  by apply elem_of_nil in H.
Qed.

(** ** The counter

    Sums of integers are exact as long as they stay within [2^53] in
    magnitude. [counts w w' n]: from a counter at an integer of that range
    that stays in it when [n] is added, the counter has grown by [n]
    between [w] and [w']. *)

Lemma round_double_exact (x : Z) :
  - (2 ^ 53) <= x /\ x <= 2 ^ 53 -> round_double x = Num x.
Proof.
  intros Hx. unfold round_double. cbv zeta.
  assert ((Z.abs x <=? 2 ^ 53) = true) as -> by (apply Z.leb_le; lia).
  reflexivity.
Qed.

Lemma num_add_exact (a b : Z) :
  - (2 ^ 53) <= a + b /\ a + b <= 2 ^ 53 ->
  num_add (Num a) (Num b) = Num (a + b).
Proof. intros H. cbn [num_add]. apply round_double_exact, H. Qed.

Definition counts (w w' : World) (n : nat) : Prop :=
  forall z, total w = Num z -> - (2 ^ 53) <= z -> z + Z.of_nat n <= 2 ^ 53 ->
            total w' = Num (z + Z.of_nat n).

Lemma counts_refl (w : World) : counts w w 0.
Proof. intros z Hz _ _. rewrite Hz. f_equal. simpl. lia. Qed.

Lemma counts_trans (w w1 w2 : World) (a b : nat) :
  counts w w1 a -> counts w1 w2 b -> counts w w2 (a + b).
Proof.
  intros H1 H2 z Hz Hlo Hhi.
  rewrite (H2 (z + Z.of_nat a)); [f_equal; lia|apply H1; [exact Hz|lia|lia]
                                  |lia|lia].
Qed.

Lemma counts_eq (w w' : World) (a b : nat) :
  a = b -> counts w w' a -> counts w w' b.
Proof. intros ->. auto. Qed.

Lemma counts_add (w w' : World) (n : nat) :
  total w' = num_add (total w) (Num (Z.of_nat n)) -> counts w w' n.
Proof.
  intros H z Hz Hlo Hhi. rewrite H, Hz. apply num_add_exact. lia.
Qed.

Lemma cleanSuite_runner (E : Ext) (config : Config) (s : suite) (w : World) :
  runner_props (props s) = true ->
  exists c1 w',
    cleanSuite E config s w = Ok (c1, w')
    /\ children c1 = children s
    /\ root_flag c1 = root_flag s
    /\ counts w w' (tests_length s).
Proof.
  destruct s as [P kids]. cbn [props]. intros HP.
  destruct (cleanSuite_ok E config P kids w HP)
    as (Q & n' & cs & Hrun & _ & Hout & _).
  eexists _, _. split; [exact Hrun|]. split; [reflexivity|].
  split; [|apply counts_add; reflexivity].
  unfold root_flag. cbn [props].
  rewrite lookup_pruned by (apply in_allow_list; vm_compute; reflexivity).
  rewrite Hout; [reflexivity|].
  apply root_not_assigned.
Qed.

(** ** The traversal invariant *)

Lemma sub_children_eq (a b : suite) (rest : path) :
  children a = children b -> rest <> [] -> sub a rest = sub b rest.
Proof.
  intros Hk Hrest. destruct rest as [|j rest]; [congruence|].
  simpl. rewrite Hk. reflexivity.
Qed.

Lemma root_flag_props (a b : suite) :
  props a = props b -> root_flag a = root_flag b.
Proof. unfold root_flag. intros ->. reflexivity. Qed.

(** Paths that are not prefixes of one another. *)
Definition indep (p q : path) : Prop :=
  ~ p `prefix_of` q /\ ~ q `prefix_of` p.

Fixpoint all_indep (L : list path) : Prop :=
  match L with
  | [] => True
  | p :: L' => Forall (indep p) L' /\ all_indep L'
  end.

Lemma all_indep_app (A B : list path) :
  all_indep (A ++ B)
  <-> all_indep A /\ all_indep B /\ Forall (fun a => Forall (indep a) B) A.
Proof.
  induction A as [|a A IH]; simpl.
  - split; [intros H; split; [exact I|split; [exact H|constructor]]|tauto].
  - rewrite Forall_app, IH, Forall_cons. tauto.
Qed.

Lemma prefix_snoc (q p : path) (j : nat) :
  q `prefix_of` (p ++ [j]) -> q `prefix_of` p \/ q = p ++ [j].
Proof.
  intros [k Hk]. destruct k as [|x k _] using rev_ind.
  - right. rewrite app_nil_r in Hk. congruence.
  - left. rewrite app_assoc in Hk. apply app_inj_tail in Hk as [-> _].
    by eexists.
Qed.

Lemma snoc_not_prefix (p : path) (j : nat) : ~ (p ++ [j]) `prefix_of` p.
Proof.
  intros H. apply prefix_length in H. rewrite length_app in H.
  simpl in H. lia.
Qed.

Lemma indep_child (p q : path) (j : nat) :
  indep p q -> indep q (p ++ [j]).
Proof.
  intros [Hpq Hqp]. split.
  - intros H. apply prefix_snoc in H as [H| ->]; [exact (Hqp H)|].
    apply Hpq. by eexists.
  - intros H. apply Hpq. etrans; [|exact H]. by eexists.
Qed.

Lemma all_indep_children (p : path) (idxs : list nat) :
  NoDup idxs -> all_indep (map (fun j => p ++ [j]) idxs).
Proof.
  induction idxs as [|i idxs IH]; intros Hnd; [exact I|].
  apply NoDup_cons in Hnd as [Hi Hnd]. simpl. split; [|apply IH, Hnd].
  apply Forall_forall. intros q Hq.
  apply list_elem_of_fmap in Hq as (j & -> & Hj).
  split; intros H; apply prefix_app_inv in H;
    apply prefix_cons_inv_1 in H; subst; exact (Hi Hj).
Qed.

Lemma map_lookup_seq {A B} (f : A -> B) (d : B) (l : list A) :
  map (fun j => from_option f d (l !! j)) (seq 0 (length l)) = map f l.
Proof.
  induction l as [|a l IH] using rev_ind; [reflexivity|].
  rewrite length_app, Nat.add_comm. cbn [length Nat.add].
  rewrite seq_S, !map_app. cbn [map Nat.add].
  rewrite list_lookup_middle by reflexivity. cbn [from_option]. f_equal.
  rewrite <- IH. apply map_ext_in. intros j Hj. apply in_seq in Hj.
  rewrite lookup_app_l by lia. reflexivity.
Qed.

Lemma sum_list_map_add {A} (f g : A -> nat) (l : list A) :
  sum_list (map (fun a => f a + g a)%nat l)
  = (sum_list (map f l) + sum_list (map g l))%nat.
Proof. induction l as [|a l IH]; simpl; [reflexivity|]. rewrite IH. lia. Qed.

Section Traversal.

Variables (E : Ext) (config : Config).

(** The tree under traversal when [traverseSuites] is called. *)
Variable T0 : suite.

(** [c2] carries the properties [cleanSuite] computes from [c]. *)
Definition cleaned (c c2 : suite) : Prop :=
  exists w1 w2 c1,
    cleanSuite E config c w1 = Ok (c1, w2) /\ props c2 = props c1.

(** [tracks T Done]: [T] is the tree [T0] after the suites at the paths
    [Done] have been normalized in place. *)
Definition tracks (T : suite) (Done : list path) : Prop :=
  forall q c, sub T0 q = Some c ->
    exists c2,
      sub T q = Some c2
      /\ root_flag c2 = root_flag c
      /\ (q ∈ Done -> cleaned c c2)
      /\ (q ∉ Done -> props c2 = props c)
      /\ ((forall s, s ∈ Done -> ~ under q s) -> children c2 = children c).

Lemma tracks_init : tracks T0 [].
Proof.
  intros q c Hq. exists c. split; [exact Hq|]. split; [reflexivity|].
  split; [intros H; by apply elem_of_nil in H|]. auto.
Qed.

Lemma tracks_raw (T : suite) (Done : list path) (q : path) (c : suite) :
  tracks T Done -> sub T0 q = Some c ->
  (forall s, s ∈ Done -> ~ q `prefix_of` s) ->
  sub T q = Some c.
Proof.
  intros HT Hq Hfree.
  destruct (HT q c Hq) as (c2 & Hc2 & _ & _ & Hprops & Hkids).
  rewrite Hc2. f_equal.
  assert (props c2 = props c) as HP.
  { apply Hprops. intros Hin. exact (Hfree q Hin (reflexivity q)). }
  assert (children c2 = children c) as HK.
  { apply Hkids. intros s Hs Hu. exact (Hfree s Hs (under_prefix _ _ Hu)). }
  destruct c2, c. simpl in *. congruence.
Qed.

Lemma tracks_put (T : suite) (Done : list path) (r : path) (c c1 : suite)
    (w w' : World) :
  tracks T Done -> sub T0 r = Some c ->
  (forall s, s ∈ Done -> ~ r `prefix_of` s) ->
  cleanSuite E config c w = Ok (c1, w') ->
  children c1 = children c -> root_flag c1 = root_flag c ->
  tracks (put r c1 T) (r :: Done).
Proof.
  intros HT Hr Hfree Hrun Hkids Hflag q cq Hq.
  pose proof (tracks_raw T Done r c HT Hr Hfree) as HTr.
  destruct (path_cases r q) as [[rest ->]|[Hu|[Hrq Hqr]]].
  - rewrite (sub_put_below r rest c1 T c HTr).
    rewrite sub_app, Hr in Hq. simpl in Hq.
    destruct (decide (rest = [])) as [->|Hrest].
    + simpl in Hq. injection Hq as <-. rewrite app_nil_r.
      exists c1. split; [reflexivity|]. split; [exact Hflag|].
      split; [intros _; exists w, w', c1; auto|].
      split; [intros Hn; destruct Hn; apply elem_of_cons; auto|].
      intros _. exact Hkids.
    + rewrite (sub_children_eq c1 c rest Hkids Hrest), Hq.
      exists cq. split; [reflexivity|]. split; [reflexivity|].
      split; [|auto].
      intros Hin. apply elem_of_cons in Hin as [Heq|Hin].
      * rewrite <- (app_nil_r r) in Heq at 2.
        apply app_inv_head in Heq. congruence.
      * destruct (Hfree _ Hin). by eexists.
  - destruct Hu as (rest & Hrest & ->).
    destruct (sub_put_above q rest c1 T c Hrest HTr)
      as (cT & HcT & Hput & Hprops).
    destruct (HT q cq Hq) as (c2 & Hc2 & Hf2 & Hin2 & Hout2 & _).
    assert (cT = c2) as -> by congruence.
    exists (put rest c1 c2). split; [exact Hput|].
    split; [rewrite <- Hf2; apply root_flag_props, Hprops|].
    assert (q <> q ++ rest) as Hne.
    { intros Heq. rewrite <- (app_nil_r q) in Heq at 1.
      apply app_inv_head in Heq. congruence. }
    split; [|split].
    + intros Hin. apply elem_of_cons in Hin as [Heq|Hin]; [congruence|].
      destruct (Hin2 Hin) as (w1 & w2 & c1' & Hc & Hp).
      exists w1, w2, c1'. split; [exact Hc|congruence].
    + intros Hn. rewrite Hprops. apply Hout2.
      intros Hin. apply Hn. apply elem_of_cons. auto.
    + intros Hno. destruct (Hno (q ++ rest)).
      * apply elem_of_cons. auto.
      * exists rest. auto.
  - rewrite (sub_put_indep r q c1 T Hrq Hqr).
    destruct (HT q cq Hq) as (c2 & Hc2 & Hf2 & Hin2 & Hout2 & Hk2).
    exists c2. split; [exact Hc2|]. split; [exact Hf2|].
    split; [|split].
    + intros Hin. apply elem_of_cons in Hin as [->|Hin]; [|auto].
      destruct Hrq. reflexivity.
    + intros Hn. apply Hout2. intros Hin. apply Hn, elem_of_cons. auto.
    + intros Hno. apply Hk2. intros s Hs. apply Hno, elem_of_cons. auto.
Qed.

Lemma sub_child (p : path) (c0 k : suite) (j : nat) :
  sub T0 p = Some c0 -> children c0 !! j = Some k ->
  sub T0 (p ++ [j]) = Some k.
Proof.
  intros Hp Hk. rewrite sub_app, Hp. simpl. rewrite Hk. reflexivity.
Qed.

Lemma child_paths_differ (p : path) (i j : nat) :
  (p ++ [j]) `prefix_of` (p ++ [i]) -> j = i.
Proof.
  intros H. apply prefix_app_inv in H.
  by apply prefix_cons_inv_1 in H.
Qed.

(** The [_.each] over the children [idxs] of the suite at [p]: each is
    normalized in place and its path pushed on the queue. *)
Lemma each_suite_ok (p : path) (c0 : suite) :
  sub T0 p = Some c0 ->
  forall (idxs : list nat) (T : suite) (Done : list path)
         (queue : list path) (w : World),
    tracks T Done -> NoDup idxs ->
    (forall j, j ∈ idxs ->
               exists k, children c0 !! j = Some k /\ runner_tree k = true) ->
    (forall j s, j ∈ idxs -> s ∈ Done -> ~ (p ++ [j]) `prefix_of` s) ->
    exists T' w' Done',
      each_suite E config p idxs T queue w
      = Ok ((T', queue ++ map (fun j => p ++ [j]) idxs), w')
      /\ tracks T' Done'
      /\ (forall s, s ∈ Done' <->
                    s ∈ Done \/ exists j, j ∈ idxs /\ s = p ++ [j])
      /\ counts w w'
           (sum_list (map (fun j => from_option tests_length 0%nat
                                      (children c0 !! j)) idxs)).
Proof.
  intros Hp idxs. induction idxs as [|i rest IH];
    intros T Done queue w HT Hnd Hkids Hfree.
  - exists T, w, Done. cbn [each_suite map sum_list sum_list_with].
    rewrite app_nil_r. split; [reflexivity|]. split; [exact HT|].
    split; [|apply counts_refl].
    intros s. split; [auto|].
    intros [Hs|(j & Hj & _)]; [exact Hs|]. by apply elem_of_nil in Hj.
  - apply NoDup_cons in Hnd as [Hi Hnd].
    destruct (Hkids i) as (k & Hk & Hrun); [apply elem_of_cons; auto|].
    apply runner_tree_inv in Hrun as (HP & Hflag & _).
    pose proof (sub_child p c0 k i Hp Hk) as Hr.
    assert (forall s, s ∈ Done -> ~ (p ++ [i]) `prefix_of` s) as Hfree_i.
    { intros s Hs. apply Hfree; [apply elem_of_cons; auto|exact Hs]. }
    pose proof (tracks_raw T Done (p ++ [i]) k HT Hr Hfree_i) as HTr.
    destruct (cleanSuite_runner E config k w HP)
      as (c1 & w1 & Hrun1 & Hk1 & Hf1 & Hw1).
    pose proof (tracks_put T Done (p ++ [i]) k c1 w w1 HT Hr Hfree_i Hrun1
                  Hk1 Hf1) as HT1.
    destruct (IH (put (p ++ [i]) c1 T) ((p ++ [i]) :: Done)
                (queue ++ [p ++ [i]]) w1 HT1 Hnd)
      as (T' & w' & Done' & Hrun' & HT' & HS' & Hw').
    { intros j Hj. apply Hkids, elem_of_cons. auto. }
    { intros j s Hj Hs Hpre. apply elem_of_cons in Hs as [->|Hs].
      - apply child_paths_differ in Hpre. subst j. exact (Hi Hj).
      - revert Hpre. apply Hfree; [apply elem_of_cons; auto|exact Hs]. }
    exists T', w', Done'. split; [|split; [exact HT'|split]].
    + cbn [each_suite]. unfold bind at 1.
      rewrite (upd_at_put (p ++ [i]) _ T k c1 w w1 HTr Hrun1).
      rewrite Hrun'. cbn [map]. rewrite <- app_assoc. reflexivity.
    + intros s. rewrite HS', elem_of_cons. split.
      * intros [[->|Hs]|(j & Hj & ->)].
        -- right. exists i. split; [apply elem_of_cons; auto|reflexivity].
        -- auto.
        -- right. exists j. split; [apply elem_of_cons; auto|reflexivity].
      * intros [Hs|(j & Hj & ->)]; [auto|].
        apply elem_of_cons in Hj as [->|Hj]; [auto|].
        right. exists j. auto.
    + refine (counts_eq _ _ _ _ _ (counts_trans _ _ _ _ _ Hw1 Hw')).
      cbn [map sum_list sum_list_with id]. rewrite Hk. reflexivity.
Qed.

Definition valid (s : path) : Prop := is_Some (sub T0 s).

Definition flagged (p : path) : Prop :=
  exists c0, sub T0 p = Some c0 /\ root_flag c0 = Ok true.

(** What normalizing the suite at [p] itself adds to the counter. *)
Definition own (p : path) : nat :=
  match sub T0 p with
  | Some c0 =>
      match root_flag c0 with
      | Ok true => tests_length c0
      | _ => 0%nat
      end
  | None => 0%nat
  end.

Definition below_at (p : path) : nat := from_option sum_below 0%nat (sub T0 p).
Definition size_at (p : path) : nat := from_option size 0%nat (sub T0 p).

(** A queued suite: not flagged [root], its children are runner trees. *)
Definition pending_ok (p : path) : Prop :=
  exists c0, sub T0 p = Some c0 /\ root_flag c0 = Ok false
             /\ Forall (fun k => runner_tree k = true) (children c0).

(** The suite [next] of the loop: as a queued suite, or flagged [root]
    and then a runner suite that has not been normalized yet. *)
Definition head_ok (p : path) (Done : list path) : Prop :=
  exists c0, sub T0 p = Some c0
             /\ Forall (fun k => runner_tree k = true) (children c0)
             /\ (root_flag c0 = Ok false
                 \/ (root_flag c0 = Ok true
                     /\ runner_props (props c0) = true
                     /\ forall s, s ∈ Done -> ~ p `prefix_of` s)).

Lemma pending_head (p : path) (Done : list path) :
  pending_ok p -> head_ok p Done.
Proof. intros (c0 & H1 & H2 & H3). exists c0. auto. Qed.

(** Lines 288-290. *)
Lemma flag_step (p : path) (c0 : suite) (T : suite) (Done : list path)
    (w : World) (flag : bool) :
  tracks T Done -> sub T0 p = Some c0 -> root_flag c0 = Ok flag ->
  (flag = true ->
   runner_props (props c0) = true
   /\ forall s, s ∈ Done -> ~ p `prefix_of` s) ->
  (forall s, s ∈ Done -> ~ under p s) ->
  exists T1 w1 S1 c2,
    (if flag then upd_at p (cleanSuite E config) T else ret T) w
    = Ok (T1, w1)
    /\ tracks T1 S1
    /\ (forall s, s ∈ S1 <-> s ∈ Done \/ (s = p /\ flag = true))
    /\ counts w w1 (own p)
    /\ sub T1 p = Some c2
    /\ children c2 = children c0.
Proof.
  intros HT Hp Hflag Hraw Hunder. unfold own. rewrite Hp, Hflag.
  destruct flag.
  - destruct (Hraw eq_refl) as [HP Hfree].
    pose proof (tracks_raw T Done p c0 HT Hp Hfree) as HTp.
    destruct (cleanSuite_runner E config c0 w HP)
      as (c1 & w1 & Hrun & Hk1 & Hf1 & Hw1).
    pose proof (tracks_put T Done p c0 c1 w w1 HT Hp Hfree Hrun Hk1 Hf1)
      as HT1.
    exists (put p c1 T), w1, (p :: Done), c1.
    split; [exact (upd_at_put p _ T c0 c1 w w1 HTp Hrun)|].
    split; [exact HT1|]. split; [|split; [exact Hw1|split]].
    + intros s. rewrite elem_of_cons. intuition.
    + rewrite <- (app_nil_r p) at 2.
      rewrite (sub_put_below p [] c1 T c0 HTp). reflexivity.
    + exact Hk1.
  - destruct (HT p c0 Hp) as (c2 & Hc2 & _ & _ & _ & Hk2).
    exists T, w, Done, c2. split; [reflexivity|]. split; [exact HT|].
    split; [|split; [apply counts_refl
                    |split; [exact Hc2|exact (Hk2 Hunder)]]].
    intros s. split; [auto|]. intros [Hs|[_ Hf]]; [exact Hs|discriminate].
Qed.

(** One run of the loop body, once its reads are known. *)
Lemma traverse_loop_step (fuel : nat) (p : path) (queue : list path)
    (T cT T1 c2 : suite) (w w1 w2 : World) (flag : bool)
    (r : suite * list path) :
  sub T p = Some cT -> root_flag cT = Ok flag ->
  (if flag then upd_at p (cleanSuite E config) T else ret T) w
  = Ok (T1, w1) ->
  sub T1 p = Some c2 ->
  each_suite E config p (seq 0 (length (children c2))) T1 queue w1
  = Ok (r, w2) ->
  traverse_loop E config (S fuel) p queue T w
  = match r.2 with
    | [] => Ok (r.1, w2)
    | p2 :: q2 => traverse_loop E config fuel p2 q2 r.1 w2
    end.
Proof.
  intros HcT Hflag Hstep Hc2 Heach. cbn [traverse_loop].
  unfold bind at 1. unfold lift at 1. rewrite HcT. cbn [from_option].
  unfold bind at 1. unfold lift at 1. rewrite Hflag.
  unfold bind at 1. rewrite Hstep.
  unfold bind at 1. unfold lift at 1. rewrite Hc2. cbn [from_option].
  unfold bind at 1.
  assert ((if (0 <? length (children c2))%nat
           then each_suite E config p (seq 0 (length (children c2))) T1
                  queue
           else ret (T1, queue)) w1 = Ok (r, w2)) as ->.
  { destruct (length (children c2)) eqn:Hn; [|exact Heach].
    simpl in *. exact Heach. }
  destruct r as [T2 [|p2 q2]]; reflexivity.
Qed.

Lemma size_at_children (p : path) (c0 : suite) :
  sub T0 p = Some c0 ->
  map size_at (map (fun j => p ++ [j]) (seq 0 (length (children c0))))
  = map size (children c0).
Proof.
  intros Hp. rewrite map_map, <- (map_lookup_seq size 0%nat (children c0)).
  apply map_ext. intros j. unfold size_at. rewrite sub_app, Hp. simpl.
  destruct (children c0 !! j); reflexivity.
Qed.

Lemma below_at_children (p : path) (c0 : suite) :
  sub T0 p = Some c0 ->
  map below_at (map (fun j => p ++ [j]) (seq 0 (length (children c0))))
  = map sum_below (children c0).
Proof.
  intros Hp.
  rewrite map_map, <- (map_lookup_seq sum_below 0%nat (children c0)).
  apply map_ext. intros j. unfold below_at. rewrite sub_app, Hp. simpl.
  destruct (children c0 !! j); reflexivity.
Qed.

Lemma pending_children (p : path) (c0 : suite) :
  sub T0 p = Some c0 ->
  Forall (fun k => runner_tree k = true) (children c0) ->
  Forall pending_ok
    (map (fun j => p ++ [j]) (seq 0 (length (children c0)))).
Proof.
  intros Hp Hkids. apply Forall_forall. intros q Hq.
  apply list_elem_of_fmap in Hq as (j & -> & Hj).
  apply list_elem_of_In, in_seq in Hj.
  destruct (lookup_lt_is_Some_2 (children c0) j) as [k Hk]; [lia|].
  rewrite Forall_forall in Hkids.
  pose proof (Hkids k (list_elem_of_lookup_2 _ _ _ Hk)) as Hrun.
  apply runner_tree_inv in Hrun as (_ & Hflag & Hsub).
  exists k. split; [exact (sub_child p c0 k j Hp Hk)|]. auto.
Qed.

Lemma valid_under (p : path) (c0 : suite) (s : path) :
  sub T0 p = Some c0 -> valid s -> under p s ->
  exists j, (j < length (children c0))%nat
            /\ (s = p ++ [j] \/ under (p ++ [j]) s).
Proof.
  intros Hp [cs Hs] (rest & Hrest & ->).
  destruct rest as [|j rest]; [congruence|].
  rewrite sub_app, Hp in Hs. simpl in Hs.
  destruct (children c0 !! j) as [k|] eqn:Hk; [|discriminate].
  exists j. split; [eapply lookup_lt_Some, Hk|].
  destruct rest as [|j' rest]; [left; reflexivity|].
  right. exists (j' :: rest). split; [discriminate|].
  rewrite <- app_assoc. reflexivity.
Qed.

Lemma under_child (p : path) (j : nat) (s : path) :
  under (p ++ [j]) s -> under p s.
Proof.
  intros (rest & _ & ->). exists (j :: rest). split; [discriminate|].
  rewrite <- app_assoc. reflexivity.
Qed.

(** The loop of [traverseSuites]: with fuel for every suite at or below
    the queued ones it returns; the suites normalized on the way are the
    head, when flagged [root], and all suites strictly below the head and
    the queued suites; the counter grows by their numbers of direct
    tests. *)
Lemma traverse_loop_ok (fuel : nat) :
  forall (p : path) (queue : list path) (T : suite) (Done : list path)
         (w : World),
    tracks T Done -> head_ok p Done -> Forall pending_ok queue ->
    all_indep (p :: queue) ->
    (forall p' s, p' ∈ p :: queue -> s ∈ Done -> ~ under p' s) ->
    (sum_list (map size_at (p :: queue)) <= fuel)%nat ->
    exists T' w' Done',
      traverse_loop E config fuel p queue T w = Ok (T', w')
      /\ tracks T' Done'
      /\ (forall s, s ∈ Done' <->
                    s ∈ Done
                    \/ (valid s
                        /\ ((exists p', p' ∈ p :: queue /\ under p' s)
                            \/ (s = p /\ flagged p))))
      /\ counts w w' (own p + sum_list (map below_at (p :: queue))).
Proof.
  induction fuel as [|fuel IH];
    intros p queue T Done w HT Hhead Hqueue Hindep Hfront Hfuel;
    destruct Hhead as (c0 & Hp & Hkids & Hcase).
  { cbn [map sum_list sum_list_with id] in Hfuel. unfold size_at in Hfuel at 1.
    rewrite Hp in Hfuel. cbn [from_option] in Hfuel.
    rewrite size_eq in Hfuel. lia. }
  assert (exists flag, root_flag c0 = Ok flag
            /\ (flag = true ->
                runner_props (props c0) = true
                /\ forall s, s ∈ Done -> ~ p `prefix_of` s))
    as (flag & Hflag & Hraw).
  { destruct Hcase as [Hf|(Hf & HP & Hfree)].
    - exists false. split; [exact Hf|discriminate].
    - exists true. auto. }
  assert (forall s, s ∈ Done -> ~ under p s) as Hunder.
  { intros s Hs. apply Hfront; [apply elem_of_cons; auto|exact Hs]. }
  destruct (HT p c0 Hp) as (cT & HcT & HfT & _).
  rewrite Hflag in HfT.
  destruct (flag_step p c0 T Done w flag HT Hp Hflag Hraw Hunder)
    as (T1 & w1 & S1 & c2 & Hstep & HT1 & HS1 & Hw1 & Hc2 & Hk2).
  set (n := length (children c0)).
  set (kids := map (fun j => p ++ [j]) (seq 0 n)).
  destruct (each_suite_ok p c0 Hp (seq 0 n) T1 S1 queue w1 HT1)
    as (T2 & w2 & S2 & Heach & HT2 & HS2 & Hw2).
  { apply NoDup_seq. }
  { intros j Hj. apply list_elem_of_In, in_seq in Hj.
    destruct (lookup_lt_is_Some_2 (children c0) j) as [k Hk]; [lia|].
    exists k. split; [exact Hk|].
    rewrite Forall_forall in Hkids.
    exact (Hkids k (list_elem_of_lookup_2 _ _ _ Hk)). }
  { intros j s Hj Hs Hpre. apply HS1 in Hs as [Hs|[-> _]].
    - apply (Hunder s Hs). destruct Hpre as [k ->].
      exists (j :: k). split; [discriminate|].
      rewrite <- app_assoc. reflexivity.
    - exact (snoc_not_prefix p j Hpre). }
  fold kids in Heach.
  rewrite (traverse_loop_step fuel p queue T cT T1 c2 w w1 w2 flag
             (T2, queue ++ kids) HcT HfT Hstep Hc2);
    [|rewrite Hk2; exact Heach].
  cbn [fst snd].
  unfold n in Hw2.
  rewrite (map_lookup_seq tests_length 0%nat (children c0)) in Hw2.
  (* the suites normalized by this run of the body *)
  assert (forall s, s ∈ S2 <->
                    s ∈ Done \/ (s = p /\ flag = true) \/ s ∈ kids) as HS2'.
  { intros s. rewrite HS2, HS1. unfold kids. rewrite list_elem_of_fmap.
    split.
    - intros [[Hs|Hs]|(j & Hj & ->)]; [auto|auto|].
      right. right. exists j. auto.
    - intros [Hs|[Hs|(j & -> & Hj)]]; [auto|auto|].
      right. exists j. auto. }
  assert (flag = true <-> flagged p) as Hflagged.
  { split.
    - intros ->. exists c0. auto.
    - intros (c0' & Hp' & Hf'). rewrite Hp in Hp'. injection Hp' as <-.
      congruence. }
  assert (below_at p = sum_list (map sum_tests (children c0))) as Hbelow.
  { unfold below_at. rewrite Hp. reflexivity. }
  assert (sum_list (map sum_tests (children c0))
          = (sum_list (map tests_length (children c0))
             + sum_list (map sum_below (children c0)))%nat) as Hsplit.
  { rewrite <- sum_list_map_add. f_equal. apply map_ext.
    intros k. apply sum_tests_eq. }
  destruct (queue ++ kids) as [|p2 q2] eqn:Hq2.
  - (* the queue is exhausted *)
    apply app_eq_nil in Hq2 as [-> Hkn].
    assert (n = 0%nat) as Hn0.
    { unfold kids in Hkn. apply (f_equal length) in Hkn.
      rewrite length_map, length_seq in Hkn. exact Hkn. }
    exists T2, w2, S2. split; [reflexivity|]. split; [exact HT2|].
    split.
    + intros s. rewrite HS2', Hkn. split.
      * intros [Hs|[[-> Hf]|Hs]]; [auto| |by apply elem_of_nil in Hs].
        right. split; [exists c0; exact Hp|]. right.
        split; [reflexivity|apply Hflagged, Hf].
      * intros [Hs|[Hv [(p' & Hp' & Hu)|[-> Hf]]]]; [auto| |].
        -- apply list_elem_of_singleton in Hp'. subst p'.
           destruct (valid_under p c0 s Hp Hv Hu) as (j & Hj & _).
           fold n in Hj. lia.
        -- right. left. split; [reflexivity|apply Hflagged, Hf].
    + refine (counts_eq _ _ _ _ _ (counts_trans _ _ _ _ _ Hw1 Hw2)).
      cbn [map sum_list sum_list_with id].
      rewrite Hbelow, Hsplit.
      assert (children c0 = []) as ->
        by (apply length_zero_iff_nil; exact Hn0).
      simpl. lia.
  - (* the loop goes on with the head of the queue *)
    assert (Forall pending_ok (p2 :: q2)) as Hpend2.
    { rewrite <- Hq2. apply Forall_app. split; [exact Hqueue|].
      exact (pending_children p c0 Hp Hkids). }
    apply Forall_cons in Hpend2 as [Hp2 Hq2ok].
    simpl in Hindep. destruct Hindep as [Hpq Hqq].
    assert (all_indep (p2 :: q2)) as Hindep2.
    { rewrite <- Hq2. apply all_indep_app.
      split; [exact Hqq|]. split; [apply all_indep_children, NoDup_seq|].
      apply Forall_forall. intros q Hq. apply Forall_forall.
      intros k Hk. apply list_elem_of_fmap in Hk as (j & -> & _).
      apply indep_child. rewrite Forall_forall in Hpq. exact (Hpq q Hq). }
    assert (forall p' s, p' ∈ p2 :: q2 -> s ∈ S2 -> ~ under p' s)
      as Hfront2.
    { intros p' s Hp' Hs Hu. rewrite <- Hq2 in Hp'.
      apply elem_of_app in Hp' as [Hp'|Hp'].
      - assert (indep p p') as [Hp1 Hp3]
          by (rewrite Forall_forall in Hpq; exact (Hpq p' Hp')).
        apply HS2' in Hs as [Hs|[[-> _]|Hs]].
        + apply (Hfront p' s); [apply elem_of_cons; auto|exact Hs|exact Hu].
        + exact (Hp3 (under_prefix _ _ Hu)).
        + apply list_elem_of_fmap in Hs as (j & -> & _).
          apply under_prefix, prefix_snoc in Hu as [Hu| ->].
          * exact (Hp3 Hu).
          * apply Hp1. by eexists.
      - apply list_elem_of_fmap in Hp' as (j & -> & _).
        apply HS2' in Hs as [Hs|[[-> _]|Hs]].
        + apply (Hunder s Hs). exact (under_child p j s Hu).
        + apply under_prefix in Hu. exact (snoc_not_prefix p j Hu).
        + apply list_elem_of_fmap in Hs as (j' & -> & _).
          apply under_irrefl in Hu as Hu'. apply under_prefix in Hu.
          apply child_paths_differ in Hu. subst j'.
          apply Hu'. reflexivity. }
    assert (sum_list (map size_at (p2 :: q2)) <= fuel)%nat as Hfuel2.
    { rewrite <- Hq2, map_app. unfold kids, n.
      rewrite (size_at_children p c0 Hp).
      cbn [map sum_list sum_list_with id] in Hfuel.
      unfold size_at in Hfuel at 1. rewrite Hp in Hfuel.
      cbn [from_option] in Hfuel. rewrite size_eq in Hfuel.
      rewrite sum_list_with_app. fold (sum_list (map size (children c0))).
      unfold sum_list in *. lia. }
    destruct (IH p2 q2 T2 S2 w2 HT2 (pending_head p2 S2 Hp2) Hq2ok Hindep2
                Hfront2 Hfuel2)
      as (T' & w' & Done' & Hrun & HT' & HS' & Hw').
    exists T', w', Done'. split; [exact Hrun|]. split; [exact HT'|].
    assert (~ flagged p2) as Hnf2.
    { intros (c' & Hc' & Hf'). destruct Hp2 as (c'' & Hc'' & Hf'' & _).
      congruence. }
    assert (own p2 = 0%nat) as Hown2.
    { unfold own. destruct Hp2 as (c'' & -> & -> & _). reflexivity. }
    split.
    + intros s. rewrite HS', HS2', <- Hq2. split.
      * intros [[Hs|[[-> Hf]|Hs]]|[Hv [(p' & Hp' & Hu)|[_ Hf]]]].
        -- auto.
        -- right. split; [exists c0; exact Hp|]. right.
           split; [reflexivity|apply Hflagged, Hf].
        -- right. apply list_elem_of_fmap in Hs as (j & -> & Hj).
           apply list_elem_of_In, in_seq in Hj.
           destruct (lookup_lt_is_Some_2 (children c0) j) as [k Hk];
             [fold n; lia|].
           split; [exists k; exact (sub_child p c0 k j Hp Hk)|].
           left. exists p. split; [apply elem_of_cons; auto|].
           exists [j]. split; [discriminate|reflexivity].
        -- right. split; [exact Hv|]. left.
           apply elem_of_app in Hp' as [Hp'|Hp'].
           ++ exists p'. split; [apply elem_of_cons; auto|exact Hu].
           ++ apply list_elem_of_fmap in Hp' as (j & -> & _).
              exists p. split; [apply elem_of_cons; auto|].
              exact (under_child p j s Hu).
        -- destruct (Hnf2 Hf).
      * intros [Hs|[Hv [(p' & Hp' & Hu)|[-> Hf]]]]; [auto| |].
        -- apply elem_of_cons in Hp' as [->|Hp'].
           ++ destruct (valid_under p c0 s Hp Hv Hu) as (j & Hj & Hs).
              assert (p ++ [j] ∈ kids) as Hin.
              { apply list_elem_of_fmap. exists j. split; [reflexivity|].
                apply list_elem_of_In, in_seq. fold n in Hj. lia. }
              destruct Hs as [->|Hu'].
              ** left. right. right. exact Hin.
              ** right. split; [exact Hv|]. left. exists (p ++ [j]).
                 split; [apply elem_of_app; auto|exact Hu'].
           ++ right. split; [exact Hv|]. left. exists p'.
              split; [apply elem_of_app; auto|exact Hu].
        -- left. right. left. split; [reflexivity|apply Hflagged, Hf].
    + refine (counts_eq _ _ _ _ _
                (counts_trans _ _ _ _ _
                   (counts_trans _ _ _ _ _ Hw1 Hw2) Hw')).
      rewrite Hown2, <- Hq2, map_app.
      unfold kids, n. rewrite (below_at_children p c0 Hp).
      cbn [map sum_list sum_list_with id]. rewrite Hbelow, Hsplit.
      rewrite sum_list_with_app.
      fold (sum_list (map sum_below (children c0))).
      unfold sum_list in *. lia.
Qed.

End Traversal.

(** ** traverseSuites *)

(** Every suite of the tree is a runner suite; any of them may be flagged
    [root]. *)
Fixpoint runner_suites (s : suite) : bool :=
  match s with
  | Suite P kids => runner_props P && forallb runner_suites kids
  end.

(** C1, as stated, fails: on a tree of runner suites whose root and whose
    only child are both flagged [root], [traverseSuites] throws instead of
    leaving the sum in the counter: the child is normalized with the
    children of the root and a second time when it is taken from the
    queue. *)
Lemma traverseSuites_total_counterexample :
  ~ (forall (E : Ext) (config : Config) (t : suite) (fuel : nat) (w : World),
        root_flag t = Ok true ->
        runner_suites t = true ->
        (size t <= fuel)%nat ->
        total w = Num 0 ->
        exists t' w',
          traverseSuites E config fuel t w = Ok (t', w')
          /\ total w' = Num (Z.of_nat (sum_tests t))).
Proof.
  intros H.
  destruct (H Sample.ext Sample.config
              (Sample.raw_suite true []
                 [Sample.raw_suite true [Sample.passed] []])
              2%nat Sample.world0) as (t' & w' & Hrun & _).
  - vm_compute. reflexivity.
  - vm_compute. reflexivity.
  - vm_compute. lia.
  - reflexivity.
  - vm_compute in Hrun. discriminate Hrun.
Qed.

(** C1, amended. On a tree whose root is a runner suite flagged [root] and
    whose other suites are runner suites not flagged [root],
    [traverseSuites] returns, given fuel for every suite, and the counter
    has grown by the sum of [tests.length] over all suites of the tree, as
    long as the counter stays an integer of magnitude at most [2^53]: from
    a fresh counter its total is that sum. *)
Theorem traverseSuites_total :
  forall (E : Ext) (config : Config) (t : suite) (fuel : nat) (w : World),
    root_flag t = Ok true ->
    runner_props (props t) = true ->
    Forall (fun k => runner_tree k = true) (children t) ->
    (size t <= fuel)%nat ->
    exists t' w',
      traverseSuites E config fuel t w = Ok (t', w')
      /\ (forall z,
            total w = Num z -> - (2 ^ 53) <= z ->
            z + Z.of_nat (sum_tests t) <= 2 ^ 53 ->
            total w' = Num (z + Z.of_nat (sum_tests t)))
      /\ (total w = Num 0 -> Z.of_nat (sum_tests t) <= 2 ^ 53 ->
          total w' = Num (Z.of_nat (sum_tests t))).
Proof.
  intros E config t fuel w Hflag HP Hkids Hfuel.
  destruct (traverse_loop_ok E config t fuel [] [] t [] w)
    as (t' & w' & Done & Hrun & _ & _ & Hw).
  - apply tracks_init.
  - exists t. split; [reflexivity|]. split; [exact Hkids|]. right.
    split; [exact Hflag|]. split; [exact HP|].
    intros s Hs. by apply elem_of_nil in Hs.
  - constructor.
  - simpl. split; [constructor|exact I].
  - intros p' s _ Hs. by apply elem_of_nil in Hs.
  - cbn [map sum_list sum_list_with id]. unfold size_at. simpl. lia.
  - exists t', w'. split; [exact Hrun|].
    assert (counts w w' (sum_tests t)) as Htotal.
    { refine (counts_eq _ _ _ _ _ Hw). unfold own, below_at.
      cbn [sub map sum_list sum_list_with id from_option].
      rewrite Hflag, sum_tests_eq. lia. }
    split; [exact Htotal|]. intros H0 Hsum.
    rewrite (Htotal 0 H0); [reflexivity|lia|lia].
Qed.

Lemma traverseSuites_total_witness :
  exists t' w',
    traverseSuites Sample.ext Sample.config 2 Sample.tree Sample.world0
    = Ok (t', w')
    /\ total w' = Num 2.
Proof.
  destruct (traverseSuites_total Sample.ext Sample.config Sample.tree 2
              Sample.world0) as (t' & w' & Hrun & _ & Hw).
  - vm_compute. reflexivity.
  - vm_compute. reflexivity.
  - repeat constructor.
  - vm_compute. lia.
  - exists t', w'. split; [exact Hrun|].
    rewrite Hw; [vm_compute; reflexivity|reflexivity
                |vm_compute; discriminate].
Defined.

(** C10, as stated, fails: below an argument that is not flagged [root],
    a child suite that is flagged [root] is normalized twice and the
    traversal throws, so the suites below the argument do not all end up
    normalized and counted. *)
Lemma traverseSuites_unflagged_counterexample :
  ~ (forall (E : Ext) (config : Config) (t : suite) (fuel : nat) (w : World),
        root_flag t = Ok false ->
        Forall (fun k => runner_suites k = true) (children t) ->
        (size t <= fuel)%nat ->
        exists t' w',
          traverseSuites E config fuel t w = Ok (t', w')
          /\ props t' = props t
          /\ (forall q c, q <> [] -> sub t q = Some c ->
                exists c', sub t' q = Some c' /\ cleaned E config c c')).
Proof.
  intros H.
  destruct (H Sample.ext Sample.config
              (Sample.raw_suite false [Sample.passed]
                 [Sample.raw_suite true [Sample.failed] []])
              2%nat Sample.world0) as (t' & w' & Hrun & _).
  - vm_compute. reflexivity.
  - repeat constructor.
  - vm_compute. lia.
  - vm_compute in Hrun. discriminate Hrun.
Qed.

(** C10, amended. When the argument of [traverseSuites] is not flagged
    [root] and the suites below it are runner suites none of which is
    flagged [root], the argument itself is not normalized: its own
    properties stay as they were and its direct tests are not counted.
    Every suite below it is normalized, and the counter grows by the sum of
    [tests.length] over the suites strictly below the argument, as long as
    it stays an integer of magnitude at most [2^53]. *)
Theorem traverseSuites_unflagged :
  forall (E : Ext) (config : Config) (t : suite) (fuel : nat) (w : World),
    root_flag t = Ok false ->
    Forall (fun k => runner_tree k = true) (children t) ->
    (size t <= fuel)%nat ->
    exists t' w',
      traverseSuites E config fuel t w = Ok (t', w')
      /\ props t' = props t
      /\ (forall z,
            total w = Num z -> - (2 ^ 53) <= z ->
            z + Z.of_nat (sum_below t) <= 2 ^ 53 ->
            total w' = Num (z + Z.of_nat (sum_below t)))
      /\ (forall q c, q <> [] -> sub t q = Some c ->
            exists c', sub t' q = Some c' /\ cleaned E config c c').
Proof.
  intros E config t fuel w Hflag Hkids Hfuel.
  destruct (traverse_loop_ok E config t fuel [] [] t [] w)
    as (t' & w' & Done & Hrun & HT & HD & Hw).
  - apply tracks_init.
  - exists t. split; [reflexivity|]. split; [exact Hkids|]. left.
    exact Hflag.
  - constructor.
  - simpl. split; [constructor|exact I].
  - intros p' s _ Hs. by apply elem_of_nil in Hs.
  - cbn [map sum_list sum_list_with id]. unfold size_at. simpl. lia.
  - exists t', w'. split; [exact Hrun|]. split; [|split].
    + destruct (HT [] t eq_refl) as (c2 & Hc2 & _ & _ & Hout & _).
      simpl in Hc2. injection Hc2 as <-. apply Hout.
      intros Hin. apply HD in Hin as [Hin|[_ [(p' & Hp' & Hu)|[_ Hf]]]].
      * by apply elem_of_nil in Hin.
      * destruct Hu as (rest & Hrest & Heq).
        symmetry in Heq. apply app_eq_nil in Heq as [_ ->]. congruence.
      * destruct Hf as (c0 & Hc0 & Hf0). simpl in Hc0.
        injection Hc0 as <-. congruence.
    + refine (counts_eq _ _ _ _ _ Hw). unfold own, below_at.
      cbn [sub map sum_list sum_list_with id from_option].
      rewrite Hflag. lia.
    + intros q c Hq Hsub.
      destruct (HT q c Hsub) as (c2 & Hc2 & _ & Hin & _).
      exists c2. split; [exact Hc2|]. apply Hin, HD. right.
      split; [exists c; exact Hsub|]. left. exists [].
      split; [apply elem_of_cons; auto|].
      exists q. split; [exact Hq|reflexivity].
Qed.

Lemma traverseSuites_unflagged_witness :
  exists t' w',
    traverseSuites Sample.ext Sample.config 2
      (Sample.raw_suite false [Sample.passed] [Sample.child]) Sample.world0
    = Ok (t', w')
    /\ props t' = props (Sample.raw_suite false [Sample.passed] [Sample.child])
    /\ total w' = Num 2.
Proof.
  destruct (traverseSuites_unflagged Sample.ext Sample.config
              (Sample.raw_suite false [Sample.passed] [Sample.child]) 2
              Sample.world0) as (t' & w' & Hrun & Hprops & Hw & _).
  - vm_compute. reflexivity.
  - repeat constructor.
  - vm_compute. lia.
  - exists t', w'. split; [exact Hrun|]. split; [exact Hprops|].
    rewrite (Hw 0); [vm_compute; reflexivity|reflexivity
                    |vm_compute; discriminate|vm_compute; discriminate].
Defined.

(** ** The example of the specification *)

Lemma cleanTest_fields (E : Ext) (config : Config) (owner : value * value)
    (t : RawTest) (n : nat) :
  let c := (cleanTest E config owner t n).1.1 in
  c_state c = t_state t
  /\ c_err c = option_map (fun e => (normalizeErr E config e).1) (t_err t).
Proof.
  unfold cleanTest.
  destruct (t_err t) as [e|];
    [destruct (normalizeErr E config e) eqn:He|];
    destruct (truthy (t_uuid t)); simpl; rewrite ?He; auto.
Qed.

Lemma createUnifiedDiff_foo_bar (E : Ext) (h1 h2 h3 h4 hunk : jsstring) :
  contains (js "@@") hunk = true ->
  split_nl (createPatch E (js "string") (js "foo") (js "bar"))
  = [h1; h2; h3; h4; hunk; js "-foo"; Sample.no_newline_marker;
     js "+bar"; []] ->
  createUnifiedDiff E (js "foo") (js "bar")
  = js "- foo" ++ Sample.nl ++ js "+ bar" ++ Sample.nl.
Proof.
  intros Hh Hp. unfold createUnifiedDiff, unified_lines. rewrite Hp.
  cbn [drop omap list_omap].
  assert (diff_line hunk = None) as ->.
  { unfold diff_line, re_hunk. rewrite matches_Lit, Hh. reflexivity. }
  vm_compute. reflexivity.
Qed.

(** The run of [traverseSuites] on the example tree, for any library whose
    [createPatch] returns, for [foo] and [bar], four header lines, a hunk
    header, the removed line, the no-newline marker and the added line. *)
Lemma example_run (E : Ext) (h1 h2 h3 h4 hunk : jsstring) (fuel : nat) :
  contains (js "@@") hunk = true ->
  split_nl (createPatch E (js "string") (js "foo") (js "bar"))
  = [h1; h2; h3; h4; hunk; js "-foo"; Sample.no_newline_marker;
     js "+bar"; []] ->
  (2 <= fuel)%nat ->
  exists t' w' child' passing failing e,
    traverseSuites E Sample.config fuel Sample.tree Sample.world0
    = Ok (t', w')
    /\ sub t' [0%nat] = Some child'
    /\ props t' !! "totalTests" = Some (fnum 0)
    /\ props child' !! "totalTests" = Some (fnum 2)
    /\ total w' = Num 2
    /\ props child' !! "tests" = Some (FClean [passing; failing])
    /\ c_state failing = VStr (js "failed")
    /\ c_err failing = Some e
    /\ n_diff e = VStr (js "- foo" ++ Sample.nl ++ js "+ bar" ++ Sample.nl).
Proof.
  intros Hh Hpatch Hfuel.
  destruct (traverse_loop_ok E Sample.config Sample.tree fuel [] []
              Sample.tree [] Sample.world0)
    as (t' & w' & Done & Hrun & HT & HD & Hw).
  { apply tracks_init. }
  { exists Sample.tree. split; [reflexivity|].
    split; [repeat constructor|]. right.
    split; [vm_compute; reflexivity|]. split; [vm_compute; reflexivity|].
    intros s Hs. by apply elem_of_nil in Hs. }
  { constructor. }
  { simpl. split; [constructor|exact I]. }
  { intros p' s _ Hs. by apply elem_of_nil in Hs. }
  { replace (sum_list_with id (map (size_at Sample.tree) [[]])) with 2%nat
      by (vm_compute; reflexivity). exact Hfuel. }
  assert ([] ∈ Done) as Hroot.
  { apply HD. right. split; [exists Sample.tree; reflexivity|]. right.
    split; [reflexivity|]. exists Sample.tree.
    split; [reflexivity|vm_compute; reflexivity]. }
  assert ([0%nat] ∈ Done) as Hchild.
  { apply HD. right. split; [exists Sample.child; reflexivity|]. left.
    exists []. split; [apply elem_of_cons; auto|].
    exists [0%nat]. split; [discriminate|reflexivity]. }
  destruct (HT [] Sample.tree eq_refl) as (r2 & Hr2 & _ & Hrc & _).
  simpl in Hr2. injection Hr2 as <-.
  destruct (Hrc Hroot) as (wr & wr' & r1 & Hrrun & Hrprops).
  destruct (HT [0%nat] Sample.child eq_refl) as (child' & Hc2 & _ & Hcc & _).
  destruct (Hcc Hchild) as (wc & wc' & c1 & Hcrun & Hcprops).
  destruct (cleanSuite_ok E Sample.config (props Sample.tree) [Sample.child]
              wr)
    as (Qr & nr & csr & Hrrun' & _ & _ & _ & _ & Hrlen & Hrtot & _);
    [vm_compute; reflexivity|].
  destruct (cleanSuite_ok E Sample.config (props Sample.child) [] wc)
    as (Qc & nc & csc & Hcrun' & _ & _ & _ & Hctests & Hclen & Hctot & _ & Hcs);
    [vm_compute; reflexivity|].
  change (Suite (props Sample.tree) [Sample.child]) with Sample.tree in *.
  change (Suite (props Sample.child) []) with Sample.child in *.
  rewrite Hrrun' in Hrrun. injection Hrrun as <- _.
  rewrite Hcrun' in Hcrun. injection Hcrun as <- _.
  cbn [props] in Hrprops, Hcprops.
  destruct (Hcs [Sample.passed; Sample.failed] eq_refl) as (owner & n2 & Hcsc).
  cbn [clean_each] in Hcsc.
  pose proof (cleanTest_fields E Sample.config owner Sample.failed) as Hfields.
  destruct (cleanTest E Sample.config owner Sample.passed n2)
    as [[passing tp] n3].
  specialize (Hfields n3).
  destruct (cleanTest E Sample.config owner Sample.failed n3)
    as [[failing tf] n4].
  cbn [fst] in Hcsc, Hfields. destruct Hfields as [Hstate Herr].
  exists t', w', child', passing, failing,
    (normalizeErr E Sample.config
       (Sample.err (VStr (js "foo")) (VStr (js "bar")))).1.
  split; [exact Hrun|]. split; [exact Hc2|].
  split; [|split; [|split; [|split; [|split; [|split]]]]].
  - rewrite Hrprops,
      lookup_pruned by (apply in_allow_list; vm_compute; reflexivity).
    rewrite Hrtot, Hrlen. reflexivity.
  - rewrite Hcprops,
      lookup_pruned by (apply in_allow_list; vm_compute; reflexivity).
    rewrite Hctot, Hclen. reflexivity.
  - rewrite (Hw 0); [vm_compute; reflexivity|reflexivity
                    |vm_compute; discriminate|vm_compute; discriminate].
  - rewrite Hcprops,
      lookup_pruned by (apply in_allow_list; vm_compute; reflexivity).
    rewrite Hctests, Hcsc. reflexivity.
  - exact Hstate.
  - exact Herr.
  - rewrite normalizeErr_diff_eq.
    rewrite <- (createUnifiedDiff_foo_bar E h1 h2 h3 h4 hunk Hh Hpatch).
    reflexivity.
Qed.

Lemma example_diff_lines :
  split_nl (js "- foo" ++ Sample.nl ++ js "+ bar" ++ Sample.nl)
  = [js "- foo"; js "+ bar"; []].
Proof. vm_compute. reflexivity. Qed.

Lemma sample_patch :
  contains (js "@@") (js "@@ -1,1 +1,1 @@") = true
  /\ split_nl (createPatch Sample.ext (js "string") (js "foo") (js "bar"))
     = [js "Index: string"; repeat 61%N 67; js "--- string";
        js "+++ string"; js "@@ -1,1 +1,1 @@"; js "-foo";
        Sample.no_newline_marker; js "+bar"; []].
Proof. split; vm_compute; reflexivity. Qed.

(** C7, as stated, fails: in the example the lines of the failing test's
    diff are [- foo] and [+ bar]; neither [ -foo] nor [ +bar], with the
    space before the marker, is among them. *)
Lemma example_counterexample :
  exists t' w' child' passing failing e d,
    traverseSuites Sample.ext Sample.config 2 Sample.tree Sample.world0
    = Ok (t', w')
    /\ sub t' [0%nat] = Some child'
    /\ props child' !! "tests" = Some (FClean [passing; failing])
    /\ c_state failing = VStr (js "failed")
    /\ c_err failing = Some e
    /\ n_diff e = VStr d
    /\ (js " -foo" ∉ split_nl d)
    /\ (js " +bar" ∉ split_nl d).
Proof.
  destruct sample_patch as [Hh Hp].
  destruct (example_run Sample.ext _ _ _ _ _ 2 Hh Hp (le_n 2))
    as (t' & w' & child' & passing & failing & e & Hrun & Hsub & _ & _ & _
        & Htests & Hstate & Herr & Hdiff).
  eexists t', w', child', passing, failing, e, _.
  split; [exact Hrun|]. split; [exact Hsub|]. split; [exact Htests|].
  split; [exact Hstate|]. split; [exact Herr|]. split; [exact Hdiff|].
  rewrite example_diff_lines.
  split; intros H;
    repeat (apply elem_of_cons in H as [H|H]; [discriminate H|]);
    by apply elem_of_nil in H.
Qed.

(** C7, amended. In the example (a root suite with one child suite holding
    a passed test and a test failed with actual [foo] and expected [bar],
    unified mode) the root has [totalTests] 0, the child [totalTests] 2,
    the counter ends at 2, and the diff of the failing test is the
    non-empty text of the lines [- foo] and [+ bar]: the marker, a space,
    the text. The patch the library returns for [foo] and [bar] is taken
    as it is: four header lines, the hunk header, [-foo], the no-newline
    marker, [+bar] and a final newline. *)
Theorem example_report :
  forall (E : Ext) (h1 h2 h3 h4 hunk : jsstring) (fuel : nat),
    contains (js "@@") hunk = true ->
    split_nl (createPatch E (js "string") (js "foo") (js "bar"))
    = [h1; h2; h3; h4; hunk; js "-foo"; Sample.no_newline_marker;
       js "+bar"; []] ->
    (2 <= fuel)%nat ->
    exists t' w' child' passing failing e d,
      traverseSuites E Sample.config fuel Sample.tree Sample.world0
      = Ok (t', w')
      /\ sub t' [0%nat] = Some child'
      /\ props t' !! "totalTests" = Some (fnum 0)
      /\ props child' !! "totalTests" = Some (fnum 2)
      /\ total w' = Num 2
      /\ props child' !! "tests" = Some (FClean [passing; failing])
      /\ c_state failing = VStr (js "failed")
      /\ c_err failing = Some e
      /\ n_diff e = VStr d
      /\ d <> []
      /\ split_nl d = [js "- foo"; js "+ bar"; []].
Proof.
  intros E h1 h2 h3 h4 hunk fuel Hh Hp Hfuel.
  destruct (example_run E h1 h2 h3 h4 hunk fuel Hh Hp Hfuel)
    as (t' & w' & child' & passing & failing & e & Hrun & Hsub & Hr & Hc
        & Hw & Htests & Hstate & Herr & Hdiff).
  eexists t', w', child', passing, failing, e, _.
  split; [exact Hrun|]. split; [exact Hsub|]. split; [exact Hr|].
  split; [exact Hc|]. split; [exact Hw|]. split; [exact Htests|].
  split; [exact Hstate|]. split; [exact Herr|]. split; [exact Hdiff|].
  split; [discriminate|exact example_diff_lines].
Qed.

Lemma example_report_witness :
  exists t' w',
    traverseSuites Sample.ext Sample.config 2 Sample.tree Sample.world0
    = Ok (t', w')
    /\ props t' !! "totalTests" = Some (fnum 0)
    /\ total w' = Num 2.
Proof.
  destruct sample_patch as [Hh Hp].
  destruct (example_report Sample.ext _ _ _ _ _ 2 Hh Hp (le_n 2))
    as (t' & w' & child' & passing & failing & e & d & Hrun & _ & Hr & _
        & Hw & _).
  exists t', w'. auto.
Defined.

(** ** cleanCode: texts it leaves unchanged *)

Lemma mstate_eta (s : mstate) : MState (m_prev s) (m_rest s) (m_cap s) = s.
Proof. destruct s; reflexivity. Qed.

Lemma rmatch_chr (p : N -> bool) (s : mstate)
    (k : mstate -> option mstate) :
  rmatch (Chr p) s k
  = match m_rest s with
    | c :: t => if p c then k (MState (Some c) t (m_cap s)) else None
    | [] => None
    end.
Proof. reflexivity. Qed.

(** A match of [p*] consumes code units of the class [p]. *)
Lemma star_chr_inv (p : N -> bool) (k : mstate -> option mstate) (n : nat) :
  forall (s : mstate) (e : mstate),
    star_loop (rmatch (Chr p)) k n s = Some e ->
    exists pre rest prev,
      m_rest s = pre ++ rest /\ forallb p pre = true
      /\ k (MState prev rest (m_cap s)) = Some e.
Proof.
  assert (forall s e, k s = Some e ->
            exists pre rest prev,
              m_rest s = pre ++ rest /\ forallb p pre = true
              /\ k (MState prev rest (m_cap s)) = Some e) as Hstop.
  { intros s e H. exists [], (m_rest s), (m_prev s).
    rewrite mstate_eta. auto. }
  induction n as [|n IH]; intros s e H; cbn [star_loop] in H;
    [exact (Hstop s e H)|].
  rewrite rmatch_chr in H.
  destruct (m_rest s) as [|c t] eqn:Hrest;
    [rewrite <- Hrest; exact (Hstop s e H)|].
  destruct (p c) eqn:Hpc; [|rewrite <- Hrest; exact (Hstop s e H)].
  cbn [m_rest length] in H.
  assert ((length t <? S (length t))%nat = true) as Hlt
    by (apply Nat.ltb_lt; lia).
  rewrite Hlt in H.
  destruct (star_loop (rmatch (Chr p)) k n (MState (Some c) t (m_cap s)))
    as [e'|] eqn:Hloop; [|rewrite <- Hrest; exact (Hstop s e H)].
  injection H as <-.
  destruct (IH _ _ Hloop) as (pre & rest & prev & Ht & Hall & Hk).
  cbn [m_rest m_cap] in Ht, Hk.
  exists (c :: pre), rest, prev. rewrite Ht. simpl.
  rewrite Hpc, Hall. auto.
Qed.

(** The code unit before the text [s2] in [s1 ++ s2], when [prev] is the
    one before [s1]. *)
Definition prev_of (prev : option N) (s1 : jsstring) : option N :=
  match last s1 with
  | Some c => Some c
  | None => prev
  end.

Lemma search_none (r : regex) (s : jsstring) :
  forall prev,
    (forall s1 s2, s = s1 ++ s2 ->
                   rmatch r (MState (prev_of prev s1) s2 None) Some = None) ->
    search r prev s = None.
Proof.
  induction s as [|c t IH]; intros prev H; cbn [search].
  - pose proof (H [] [] eq_refl) as H0. cbn [prev_of last] in H0.
    rewrite H0. reflexivity.
  - pose proof (H [] (c :: t) eq_refl) as H0. cbn [prev_of last] in H0.
    rewrite H0. rewrite IH; [reflexivity|].
    intros s1 s2 ->. specialize (H (c :: s1) s2 eq_refl).
    unfold prev_of in *. rewrite last_cons in H.
    destruct (last s1); exact H.
Qed.

Lemma replace1_none (r : regex) (rep : option jsstring -> jsstring)
    (s : jsstring) :
  search r None s = None -> replace1 r rep s = s.
Proof. unfold replace1. intros ->. reflexivity. Qed.

Lemma replace_all_none (r : regex) (rep : option jsstring -> jsstring)
    (s : jsstring) :
  search r None s = None -> replace_all r rep s = s.
Proof. unfold replace_all. cbn [replace_from]. intros ->. reflexivity. Qed.

(** Scanning steps over a code unit at which the pattern does not match. *)
Lemma replace_from_skip (fuel : nat) (r : regex)
    (rep : option jsstring -> jsstring) (prev : option N) (c : N)
    (t : jsstring) :
  rmatch r (MState prev (c :: t) None) Some = None ->
  replace_from (S fuel) r rep prev (c :: t)
  = c :: replace_from (S fuel) r rep (Some c) t.
Proof.
  intros H. cbn [replace_from search]. rewrite H.
  destruct (search r (Some c) t) as [[pre e]|]; [|reflexivity].
  cbn [length drop].
  destruct (length (m_rest e) <? length (drop (length pre) t))%nat;
    [reflexivity|].
  destruct (m_rest e); reflexivity.
Qed.

Definition lt_only (s : jsstring) : bool :=
  forallb (fun c => negb (is_lt c) || N.eqb c 10) s.

Definition starts_clean (s : jsstring) : bool :=
  match s with
  | [] => true
  | c :: _ => negb (is_ws c)
  end.

Definition ends_clean (s : jsstring) : bool :=
  match last s with
  | Some c => negb (is_ws c) && negb (N.eqb c 125)
  | None => true
  end.

(** The position after [prev] is the start of a line. *)
Definition line_start (prev : option N) : bool :=
  match prev with
  | None => true
  | Some p => is_lt p
  end.

(** No line of the text starts with a newline, where [prev] is the code
    unit before the text. *)
Fixpoint no_blank (prev : option N) (s : jsstring) : bool :=
  match s with
  | [] => true
  | c :: t => negb (line_start prev && N.eqb c 10) && no_blank (Some c) t
  end.

(** Line endings: a text whose only line terminators are newlines. *)
Lemma newlines_fixed (s : jsstring) :
  forall (fuel : nat) (prev : option N),
    (length s < fuel)%nat -> lt_only s = true ->
    replace_from fuel re_newlines (fun _ => [10%N]) prev s = s.
Proof.
  induction s as [|c t IH]; intros fuel prev Hfuel Hlt;
    (destruct fuel as [|fuel]; [simpl in Hfuel; lia|]).
  - reflexivity.
  - cbn [lt_only forallb] in Hlt. apply andb_true_iff in Hlt as [Hc Ht].
    fold (lt_only t) in Ht. simpl in Hfuel.
    destruct (N.eqb c 10) eqn:H10.
    + apply N.eqb_eq in H10. subst c.
      cbn [replace_from search]. unfold re_newlines, Is, Opt.
      cbn [rmatch m_rest m_cap N.eqb Pos.eqb orb length drop app].
      assert ((length t <? S (length t))%nat = true) as ->
        by (apply Nat.ltb_lt; lia).
      cbn [m_rest m_prev]. rewrite IH by (lia || exact Ht). reflexivity.
    + rewrite orb_false_r in Hc. apply negb_true_iff in Hc.
      unfold is_lt in Hc. rewrite H10 in Hc. cbn [orb] in Hc.
      apply orb_false_iff in Hc as [Hc H8233].
      apply orb_false_iff in Hc as [H13 H8232].
      rewrite replace_from_skip.
      * rewrite IH by (lia || exact Ht). reflexivity.
      * unfold re_newlines, Is, Opt. cbn [rmatch m_rest m_cap].
        rewrite (N.eqb_sym 13 c), H13, H10, H8232, H8233. reflexivity.
Qed.

Lemma bom_fixed (s : jsstring) :
  starts_clean s = true -> replace1 re_bom drop_match s = s.
Proof.
  intros Hs. apply replace1_none, search_none. intros s1 s2 ->.
  unfold re_bom, Is. cbn [rmatch at_bol m_prev m_rest m_cap].
  destruct s1 as [|c s1].
  - cbn [prev_of last app] in *. destruct s2 as [|c t]; [reflexivity|].
    cbn [starts_clean] in Hs. destruct (N.eqb 65279 c) eqn:Hc; [|reflexivity].
    apply N.eqb_eq in Hc. subst c. discriminate Hs.
  - unfold prev_of. rewrite last_cons. destruct (last s1); reflexivity.
Qed.

Lemma header_fixed (s : jsstring) :
  matches re_header s = false -> replace1 re_header drop_match s = s.
Proof.
  unfold matches. intros H. apply bool_decide_eq_false in H.
  apply replace1_none. destruct (search re_header None s); [|reflexivity].
  destruct H. eauto.
Qed.

Lemma last_app_cons {A} (l1 l2 : list A) (x : A) :
  last (l1 ++ l2 ++ [x]) = Some x.
Proof. rewrite app_assoc. apply last_snoc. Qed.

Lemma forallb_last {A} (p : A -> bool) (l : list A) (x : A) :
  forallb p l = true -> last l = Some x -> p x = true.
Proof.
  intros Hall Hlast. rewrite forallb_forall in Hall. apply Hall.
  apply list_elem_of_In. apply last_Some in Hlast as [l' ->].
  apply elem_of_app. right. apply list_elem_of_singleton. reflexivity.
Qed.

Lemma closing_fixed (s : jsstring) :
  ends_clean s = true -> replace1 re_closing drop_match s = s.
Proof.
  intros Hs. apply replace1_none, search_none. intros s1 s2 ->.
  unfold re_closing. cbn [rmatch].
  destruct (star_loop _ _ _ _) as [e|] eqn:Hloop; [|reflexivity].
  apply star_chr_inv in Hloop as (pre & rest & prev & Hsplit & _ & Hk).
  cbn [m_rest m_cap] in Hsplit, Hk. unfold Is in Hk.
  cbn [rmatch m_rest m_cap at_eol] in Hk.
  destruct rest as [|c [|c' rest]]; try discriminate Hk.
  - destruct (N.eqb 125 c) eqn:Hc; [|discriminate Hk].
    apply N.eqb_eq in Hc. subst c s2.
    unfold ends_clean in Hs. rewrite last_app_cons in Hs.
    rewrite andb_true_iff in Hs. destruct Hs as [_ Hs]. discriminate Hs.
  - destruct (N.eqb 125 c); discriminate Hk.
Qed.

Lemma not_ws_neq (a c : N) :
  is_ws a = true -> is_ws c = false -> N.eqb a c = false.
Proof.
  intros Ha Hc. apply N.eqb_neq. intros ->. congruence.
Qed.

Lemma lead_zero (ch : N) (s : jsstring) :
  is_ws ch = true -> starts_clean s = true ->
  cap_length (re_lead ch) s = 0%nat.
Proof.
  intros Hch Hs. unfold cap_length, re_lead, Opt, Is.
  destruct s as [|c t].
  - reflexivity.
  - cbn [starts_clean] in Hs. apply negb_true_iff in Hs.
    cbn [search rmatch at_bol m_prev m_rest m_cap length star_loop].
    rewrite (not_ws_neq 10 c eq_refl Hs).
    cbn [m_rest]. rewrite (not_ws_neq ch c Hch Hs).
    cbn [m_cap default]. rewrite Nat.sub_diag. reflexivity.
Qed.

Lemma rmatch_indent0 (prev : option N) (s : jsstring) :
  rmatch (re_indent 32 0) (MState prev s None) Some
  = if line_start prev then
      match s with
      | c :: t => if N.eqb 10 c then Some (MState (Some c) t None)
                  else Some (MState prev s None)
      | [] => Some (MState prev s None)
      end
    else None.
Proof.
  unfold re_indent, Opt, Is. cbn [Rep rmatch m_rest m_cap].
  unfold at_bol, line_start. cbn [m_prev andb].
  destruct prev as [p|]; [destruct (is_lt p)|]; try reflexivity;
    destruct s as [|c t]; try reflexivity; destruct (N.eqb 10 c); reflexivity.
Qed.

Lemma indent_fixed (s : jsstring) :
  forall (fuel : nat) (prev : option N),
    (length s < fuel)%nat -> no_blank prev s = true ->
    replace_from fuel (re_indent 32 0) drop_match prev s = s.
Proof.
  induction s as [|c t IH]; intros fuel prev Hfuel Hnb;
    (destruct fuel as [|fuel]; [simpl in Hfuel; lia|]).
  - cbn [replace_from search]. rewrite rmatch_indent0.
    destruct (line_start prev); reflexivity.
  - cbn [no_blank] in Hnb. apply andb_true_iff in Hnb as [Hc Ht].
    simpl in Hfuel. destruct (line_start prev) eqn:Hbol.
    + cbn [andb] in Hc. apply negb_true_iff in Hc.
      cbn [replace_from search]. rewrite rmatch_indent0, Hbol.
      rewrite (N.eqb_sym 10 c), Hc.
      cbn [m_rest m_cap length drop app drop_match].
      rewrite Nat.ltb_irrefl. rewrite IH by (lia || exact Ht). reflexivity.
    + rewrite replace_from_skip.
      * rewrite IH by (lia || exact Ht). reflexivity.
      * rewrite rmatch_indent0, Hbol. reflexivity.
Qed.

Lemma rmatch_trim (st : mstate) :
  rmatch re_trim st Some
  = match (if at_bol false st then rmatch (Plus Ws) st Some else None) with
    | Some e => Some e
    | None => rmatch (Plus Ws) st (fun s' => rmatch (Eol false) s' Some)
    end.
Proof. reflexivity. Qed.

Lemma rmatch_plus_ws (st : mstate) (k : mstate -> option mstate) :
  rmatch (Plus Ws) st k
  = match m_rest st with
    | c :: t =>
        if is_ws c
        then star_loop (rmatch (Chr is_ws)) k (length t)
               (MState (Some c) t (m_cap st))
        else None
    | [] => None
    end.
Proof. reflexivity. Qed.

Lemma trim_fixed (s : jsstring) :
  starts_clean s = true -> ends_clean s = true ->
  replace_all re_trim drop_match s = s.
Proof.
  intros Hstart Hend. apply replace_all_none, search_none. intros s1 s2 ->.
  rewrite rmatch_trim.
  assert (rmatch (Plus Ws) (MState (prev_of None s1) s2 None)
            (fun s' => rmatch (Eol false) s' Some) = None) as Hb.
  { rewrite rmatch_plus_ws. cbn [m_rest m_cap].
    destruct s2 as [|c t]; [reflexivity|].
    destruct (is_ws c) eqn:Hc; [|reflexivity].
    destruct (star_loop _ _ _ _) as [e|] eqn:Hloop; [|reflexivity].
    apply star_chr_inv in Hloop as (pre & rest & prev & Hsplit & Hall & Hk).
    cbn [m_rest m_cap] in Hsplit, Hk. cbn [rmatch at_eol m_rest] in Hk.
    destruct rest as [|c' rest]; [|discriminate Hk].
    rewrite app_nil_r in Hsplit. subst t.
    unfold ends_clean in Hend. rewrite last_app in Hend.
    destruct (last (c :: pre)) as [x|] eqn:Hlast.
    - assert (is_ws x = true) as Hx.
      { apply (forallb_last is_ws (c :: pre)); [|exact Hlast].
        simpl. rewrite Hc, Hall. reflexivity. }
      rewrite Hx in Hend. discriminate Hend.
    - apply last_None in Hlast. discriminate Hlast. }
  rewrite Hb. unfold at_bol. cbn [m_prev andb].
  destruct (prev_of None s1) as [p|] eqn:Hprev; [reflexivity|].
  assert (s1 = []) as ->.
  { unfold prev_of in Hprev. destruct (last s1) eqn:Hl; [discriminate|].
    apply last_None in Hl. exact Hl. }
  cbn [app] in *. rewrite rmatch_plus_ws. cbn [m_rest].
  destruct s2 as [|c t]; [reflexivity|].
  cbn [starts_clean] in Hstart. apply negb_true_iff in Hstart.
  rewrite Hstart. reflexivity.
Qed.

Definition clean_fixed (s : jsstring) : bool :=
  lt_only s && starts_clean s && ends_clean s && no_blank None s
  && negb (matches re_header s).

(** A text whose line terminators are newlines, that begins and ends with
    a code unit that is not white space, does not end in a closing brace,
    has no empty line and nowhere matches the function or arrow header
    pattern, is returned unchanged. *)
Lemma cleanCode_fixed (s : jsstring) :
  clean_fixed s = true -> cleanCode s = s.
Proof.
  unfold clean_fixed. rewrite !andb_true_iff, negb_true_iff.
  intros [[[[Hlt Hstart] Hend] Hnb] Hhead].
  assert (replace_all re_newlines (fun _ => [10%N]) s = s) as Hstep1.
  { unfold replace_all. apply newlines_fixed; [lia|exact Hlt]. }
  assert (replace_all (re_indent 32 0) drop_match s = s) as Hstep5.
  { unfold replace_all. apply indent_fixed; [lia|exact Hnb]. }
  unfold cleanCode. cbv zeta. rewrite Hstep1.
  rewrite (bom_fixed s Hstart), (header_fixed s Hhead).
  rewrite (closing_fixed s Hend).
  rewrite (lead_zero 32 s eq_refl Hstart), (lead_zero 9 s eq_refl Hstart).
  cbn [Nat.ltb Nat.leb]. rewrite Hstep5.
  apply trim_fixed; assumption.
Qed.

(** ** cleanCode: what every cleaned text satisfies *)

(** A match ends at a suffix of the text it starts from. *)
Lemma star_loop_suffix
    (ma : mstate -> (mstate -> option mstate) -> option mstate) :
  (forall s k e, ma s k = Some e ->
     exists s', k s' = Some e /\ m_rest s' `suffix_of` m_rest s) ->
  forall n s k e, star_loop ma k n s = Some e ->
    exists s', k s' = Some e /\ m_rest s' `suffix_of` m_rest s.
Proof.
  intros Hma n. induction n as [|n IH]; intros s k e H; cbn [star_loop] in H.
  - exists s. split; [exact H|reflexivity].
  - destruct (ma s _) as [e'|] eqn:Hstep.
    + injection H as <-. apply Hma in Hstep as (s1 & Hs1 & Hsuf1).
      destruct (length (m_rest s1) <? length (m_rest s))%nat;
        [|discriminate Hs1].
      apply IH in Hs1 as (s2 & Hs2 & Hsuf2).
      exists s2. split; [exact Hs2|]. etrans; eassumption.
    + exists s. split; [exact H|reflexivity].
Qed.

Lemma rmatch_suffix (r : regex) :
  forall s k e, rmatch r s k = Some e ->
    exists s', k s' = Some e /\ m_rest s' `suffix_of` m_rest s.
Proof.
  induction r as [|p|a IHa b IHb|a IHa b IHb|a IHa|m|m|a IHa];
    intros s k e H; cbn [rmatch] in H.
  - exists s. split; [exact H|reflexivity].
  - destruct (m_rest s) as [|c t] eqn:Hrest; [discriminate H|].
    destruct (p c); [|discriminate H].
    eexists. split; [exact H|]. cbn [m_rest]. by apply suffix_cons_r.
  - apply IHa in H as (s1 & Hs1 & Hsuf1).
    apply IHb in Hs1 as (s2 & Hs2 & Hsuf2).
    exists s2. split; [exact Hs2|]. etrans; eassumption.
  - destruct (rmatch a s k) as [e'|] eqn:Ha.
    + injection H as <-. exact (IHa _ _ _ Ha).
    + exact (IHb _ _ _ H).
  - exact (star_loop_suffix (rmatch a) IHa _ _ _ _ H).
  - destruct (at_bol m s); [|discriminate H].
    exists s. split; [exact H|reflexivity].
  - destruct (at_eol m s); [|discriminate H].
    exists s. split; [exact H|reflexivity].
  - apply IHa in H as (s1 & Hs1 & Hsuf1).
    eexists. split; [exact Hs1|exact Hsuf1].
Qed.

Lemma search_split (r : regex) (s : jsstring) :
  forall prev pre e,
    search r prev s = Some (pre, e) ->
    exists m, s = pre ++ m ++ m_rest e.
Proof.
  induction s as [|c t IH]; intros prev pre e H; cbn [search] in H.
  - destruct (rmatch r _ Some) as [e'|] eqn:Hm; [|discriminate H].
    injection H as <- <-.
    apply rmatch_suffix in Hm as (s' & [= ->] & [m Hm]).
    cbn [m_rest] in Hm. exists m. exact Hm.
  - destruct (rmatch r _ Some) as [e'|] eqn:Hm.
    + injection H as <- <-.
      apply rmatch_suffix in Hm as (s' & [= ->] & [m Hm]).
      cbn [m_rest] in Hm. exists m. exact Hm.
    + destruct (search r (Some c) t) as [[pre' e']|] eqn:Hs;
        [|discriminate H].
      injection H as <- <-. apply IH in Hs as [m ->]. exists m. reflexivity.
Qed.

(** Replacing matches by the empty text keeps what holds of every code
    unit. *)
Lemma replace1_Forall (P : N -> Prop) (r : regex) (s : jsstring) :
  Forall P s -> Forall P (replace1 r drop_match s).
Proof.
  intros H. unfold replace1.
  destruct (search r None s) as [[pre e]|] eqn:Hs; [|exact H].
  apply search_split in Hs as [m ->].
  rewrite !Forall_app in H. destruct H as (Hpre & _ & Hrest).
  cbn [drop_match app]. apply Forall_app. auto.
Qed.

Lemma replace_from_Forall (P : N -> Prop) (r : regex) (fuel : nat) :
  forall prev s,
    Forall P s -> Forall P (replace_from fuel r drop_match prev s).
Proof.
  induction fuel as [|fuel IH]; intros prev s H; cbn [replace_from];
    [exact H|].
  destruct (search r prev s) as [[pre e]|] eqn:Hs; [|exact H].
  apply search_split in Hs as [m ->].
  rewrite !Forall_app in H. destruct H as (Hpre & _ & Hrest).
  cbn [drop_match app].
  destruct (_ <? _)%nat.
  - apply Forall_app. split; [exact Hpre|]. apply IH, Hrest.
  - destruct (m_rest e) as [|c t]; [rewrite app_nil_r; exact Hpre|].
    apply Forall_app. split; [exact Hpre|].
    apply Forall_cons in Hrest as [Hc Ht].
    constructor; [exact Hc|]. apply IH, Ht.
Qed.

Definition nl_or_plain (c : N) : Prop := negb (is_lt c) || N.eqb c 10 = true.

Lemma lt_only_Forall (s : jsstring) :
  lt_only s = true <-> Forall nl_or_plain s.
Proof.
  unfold lt_only. induction s as [|c t IH]; simpl.
  - split; [constructor|reflexivity].
  - rewrite andb_true_iff, Forall_cons, IH. reflexivity.
Qed.

Lemma rmatch_newlines (prev : option N) (c : N) (t : jsstring) :
  rmatch re_newlines (MState prev (c :: t) None) Some
  = if N.eqb 13 c then
      match t with
      | c' :: t' =>
          if N.eqb 10 c' then Some (MState (Some c') t' None)
          else Some (MState (Some c) t None)
      | [] => Some (MState (Some c) t None)
      end
    else if (N.eqb c 10 || N.eqb c 8232 || N.eqb c 8233)%N
         then Some (MState (Some c) t None)
         else None.
Proof.
  unfold re_newlines, Opt, Is. cbn [rmatch m_rest m_cap].
  destruct (N.eqb 13 c); [|reflexivity].
  destruct t as [|c' t']; [reflexivity|].
  destruct (N.eqb 10 c'); reflexivity.
Qed.

Lemma newlines_lt_only (n : nat) :
  forall (s : jsstring) (fuel : nat) (prev : option N),
    (length s <= n)%nat -> (length s < fuel)%nat ->
    Forall nl_or_plain
      (replace_from fuel re_newlines (fun _ => [10%N]) prev s).
Proof.
  induction n as [|n IH]; intros s fuel prev Hn Hfuel;
    (destruct fuel as [|fuel]; [lia|]);
    (destruct s as [|c t]; [cbn; constructor|]); simpl in Hn, Hfuel;
    [lia|].
  destruct (rmatch re_newlines (MState prev (c :: t) None) Some)
    as [e|] eqn:Hm.
  - cbn [replace_from search]. rewrite Hm. cbn [length drop app].
    rewrite rmatch_newlines in Hm.
    assert (exists rest, m_rest e = rest /\ (length rest <= length t)%nat)
      as (rest & Hrest & Hlen).
    { destruct (N.eqb 13 c).
      - destruct t as [|c' t'].
        + injection Hm as <-. exists []. auto.
        + destruct (N.eqb 10 c'); injection Hm as <-; eexists;
            (split; [reflexivity|simpl; lia]).
      - destruct (_ || _)%N; [|discriminate Hm].
        injection Hm as <-. eexists. split; [reflexivity|simpl; lia]. }
    rewrite Hrest.
    assert ((length rest <? S (length t))%nat = true) as ->
      by (apply Nat.ltb_lt; lia).
    constructor; [reflexivity|]. apply IH; lia.
  - rewrite replace_from_skip by exact Hm.
    rewrite rmatch_newlines in Hm.
    constructor; [|apply IH; lia].
    unfold nl_or_plain, is_lt.
    destruct (N.eqb 13 c) eqn:H13.
    + destruct t as [|c' t']; [discriminate Hm|].
      destruct (N.eqb 10 c'); discriminate Hm.
    + rewrite (N.eqb_sym c 13), H13.
      destruct (N.eqb c 10); [reflexivity|].
      destruct (N.eqb c 8232); [discriminate Hm|].
      destruct (N.eqb c 8233); [discriminate Hm|]. reflexivity.
Qed.

Lemma cleanCode_lt_only (x : jsstring) : lt_only (cleanCode x) = true.
Proof.
  apply lt_only_Forall. unfold cleanCode. cbv zeta.
  unfold replace_all at 1. apply replace_from_Forall.
  unfold replace_all at 1. apply replace_from_Forall.
  do 3 apply replace1_Forall.
  unfold replace_all. apply (newlines_lt_only (length x)); lia.
Qed.

Definition ends_plain (s : jsstring) : bool :=
  match last s with
  | Some c => negb (is_ws c)
  | None => true
  end.

Definition no_closing (s : jsstring) : bool :=
  match last s with
  | Some c => negb (N.eqb c 125)
  | None => true
  end.

Fixpoint drop_ws (s : jsstring) : jsstring :=
  match s with
  | c :: t => if is_ws c then drop_ws t else s
  | [] => []
  end.

Lemma drop_ws_length (s : jsstring) : (length (drop_ws s) <= length s)%nat.
Proof.
  induction s as [|c t IH]; simpl; [lia|].
  destruct (is_ws c); simpl; lia.
Qed.

Lemma drop_ws_starts (s : jsstring) : starts_clean (drop_ws s) = true.
Proof.
  induction s as [|c t IH]; simpl; [reflexivity|].
  destruct (is_ws c) eqn:Hc; [exact IH|]. simpl. rewrite Hc. reflexivity.
Qed.

(** With nothing required after it, [\s*] takes all the white space. *)
Lemma star_ws_greedy (t : jsstring) :
  forall (n : nat) (pv : N) (cap : option jsstring),
    (length t <= n)%nat ->
    exists x,
      star_loop (rmatch (Chr is_ws)) Some n (MState (Some pv) t cap)
      = Some (MState (Some x) (drop_ws t) cap).
Proof.
  induction t as [|c t IH]; intros n pv cap Hn.
  - exists pv. destruct n; reflexivity.
  - destruct n as [|n]; [simpl in Hn; lia|]. simpl in Hn.
    cbn [star_loop]. rewrite rmatch_chr. cbn [m_rest m_cap drop_ws length].
    destruct (is_ws c); [|exists pv; reflexivity].
    assert ((length t <? S (length t))%nat = true) as ->
      by (apply Nat.ltb_lt; lia).
    destruct (IH n c cap) as [x Hx]; [lia|].
    rewrite Hx. exists x. reflexivity.
Qed.

(** [\s*$] matches a text of white space only. *)
Lemma star_ws_eol (t : jsstring) :
  forallb is_ws t = true ->
  forall (n : nat) (pv : option N) (cap : option jsstring),
    (length t <= n)%nat ->
    is_Some (star_loop (rmatch (Chr is_ws))
               (fun s' => rmatch (Eol false) s' Some) n (MState pv t cap)).
Proof.
  induction t as [|c t IH]; intros Hall n pv cap Hn.
  - destruct n; cbn [star_loop]; [eauto|].
    rewrite rmatch_chr. cbn [m_rest]. eauto.
  - destruct n as [|n]; [simpl in Hn; lia|]. simpl in Hn, Hall.
    apply andb_true_iff in Hall as [Hc Ht].
    cbn [star_loop]. rewrite rmatch_chr. cbn [m_rest m_cap length].
    rewrite Hc.
    assert ((length t <? S (length t))%nat = true) as ->
      by (apply Nat.ltb_lt; lia).
    destruct (IH Ht n (Some c) cap) as [e He]; [lia|].
    rewrite He. eauto.
Qed.

Lemma rmatch_trim_inner (p c : N) (t : jsstring) :
  rmatch re_trim (MState (Some p) (c :: t) None) Some
  = if is_ws c
    then star_loop (rmatch (Chr is_ws))
           (fun s' => rmatch (Eol false) s' Some) (length t)
           (MState (Some c) t None)
    else None.
Proof. rewrite rmatch_trim. reflexivity. Qed.

Lemma trim_nil (fuel : nat) (prev : option N) :
  replace_from fuel re_trim drop_match prev [] = [].
Proof.
  destruct fuel; [reflexivity|]. cbn [replace_from search].
  rewrite rmatch_trim, !rmatch_plus_ws. cbn [m_rest].
  destruct (at_bol false _); reflexivity.
Qed.

(** Past the start of the text, the trim removes the white space at its
    end. *)
Lemma trim_inner (s : jsstring) :
  forall (p : N) (fuel : nat),
    let out := replace_from (S fuel) re_trim drop_match (Some p) s in
    exists w, s = out ++ w /\ forallb is_ws w = true
              /\ ends_plain out = true.
Proof.
  induction s as [|c t IH]; intros p fuel out; subst out.
  - rewrite trim_nil. exists []. auto.
  - destruct (rmatch re_trim (MState (Some p) (c :: t) None) Some)
      as [e|] eqn:Hm.
    + cbn [replace_from search]. rewrite Hm.
      rewrite rmatch_trim_inner in Hm.
      destruct (is_ws c) eqn:Hc; [|discriminate Hm].
      apply star_chr_inv in Hm as (pre & rest & prev & Hsplit & Hall & Hk).
      cbn [m_rest m_cap] in Hsplit, Hk. cbn [rmatch at_eol m_rest] in Hk.
      destruct rest as [|c' rest]; [|discriminate Hk].
      injection Hk as <-. rewrite app_nil_r in Hsplit. subst t.
      cbn [m_rest m_cap m_prev length drop app drop_match Nat.ltb Nat.leb].
      rewrite trim_nil. exists (c :: pre). simpl. rewrite Hc, Hall. auto.
    + rewrite replace_from_skip by exact Hm.
      destruct (IH c fuel) as (w & Hsplit & Hw & Hend).
      exists w. split; [rewrite <- app_comm_cons; f_equal; exact Hsplit|].
      split; [exact Hw|].
      unfold ends_plain in *. rewrite last_cons.
      destruct (last (replace_from (S fuel) re_trim drop_match (Some c) t))
        as [x|] eqn:Hlast; [exact Hend|].
      apply last_None in Hlast. rewrite Hlast in Hsplit. simpl in Hsplit.
      subst w. rewrite rmatch_trim_inner in Hm.
      destruct (is_ws c); [|reflexivity].
      destruct (star_ws_eol t Hw (length t) (Some c) None (le_n _))
        as [e He]. rewrite He in Hm. discriminate Hm.
Qed.

Lemma trim_trimmed (s : jsstring) :
  let out := replace_all re_trim drop_match s in
  starts_clean out = true /\ ends_plain out = true.
Proof.
  intros out. subst out. unfold replace_all.
  destruct s as [|c t]; [rewrite trim_nil; auto|].
  destruct (is_ws c) eqn:Hc.
  - cbn [replace_from search]. rewrite rmatch_trim.
    unfold at_bol. cbn [m_prev]. rewrite rmatch_plus_ws.
    cbn [m_rest m_cap]. rewrite Hc.
    destruct (star_ws_greedy t (length t) c None (le_n _)) as [x Hx].
    rewrite Hx. cbn [m_rest m_cap m_prev length drop app drop_match].
    assert ((length (drop_ws t) <? S (length t))%nat = true) as ->
      by (apply Nat.ltb_lt; pose proof (drop_ws_length t); lia).
    destruct (trim_inner (drop_ws t) x (length t)) as (w & Hsplit & _ & Hend).
    split; [|exact Hend].
    pose proof (drop_ws_starts t) as Hstart. rewrite Hsplit in Hstart.
    destruct (replace_from _ _ _ _ _); [reflexivity|exact Hstart].
  - rewrite replace_from_skip.
    + destruct (trim_inner t c (length (c :: t))) as (w & _ & _ & Hend).
      split; [cbn [starts_clean]; rewrite Hc; reflexivity|].
      unfold ends_plain in *. rewrite last_cons.
      destruct (last _); [exact Hend|]. rewrite Hc. reflexivity.
    + rewrite rmatch_trim, !rmatch_plus_ws. cbn [m_rest]. rewrite Hc.
      destruct (at_bol false _); reflexivity.
Qed.

Lemma ends_clean_split (s : jsstring) :
  ends_clean s = ends_plain s && no_closing s.
Proof.
  unfold ends_clean, ends_plain, no_closing. destruct (last s); reflexivity.
Qed.

Lemma cleanCode_trimmed (x : jsstring) :
  starts_clean (cleanCode x) = true /\ ends_plain (cleanCode x) = true.
Proof. unfold cleanCode. cbv zeta. apply trim_trimmed. Qed.

(** C8, as stated, fails: cleaning a function with a nested block strips
    the function's closing brace, and cleaning the result again strips the
    closing brace of the block. *)
Lemma cleanCode_counterexample :
  let x := js "function () {" ++ [10%N] ++ js "  if (a) {" ++ [10%N]
           ++ js "    b();" ++ [10%N] ++ js "  }" ++ [10%N] ++ js "}" in
  cleanCode x = js "if (a) {" ++ [10%N] ++ js "  b();" ++ [10%N] ++ js "}"
  /\ cleanCode (cleanCode x) = js "if (a) {" ++ [10%N] ++ js "  b();"
  /\ cleanCode (cleanCode x) <> cleanCode x.
Proof.
  cbv zeta. rewrite cleanCode_ex1, cleanCode_ex2.
  split; [reflexivity|]. split; [reflexivity|].
  vm_compute. discriminate.
Qed.

(** C8, amended. Cleaning a cleaned text again returns it unchanged
    whenever the cleaned text does not end in a closing brace, has no empty
    line and nowhere matches the function or arrow header pattern. *)
Theorem cleanCode_idempotent :
  forall x : jsstring,
    no_closing (cleanCode x) = true ->
    no_blank None (cleanCode x) = true ->
    matches re_header (cleanCode x) = false ->
    cleanCode (cleanCode x) = cleanCode x.
Proof.
  intros x Hclosing Hblank Hheader. apply cleanCode_fixed.
  destruct (cleanCode_trimmed x) as [Hstart Hend].
  unfold clean_fixed.
  rewrite cleanCode_lt_only, Hstart, ends_clean_split, Hend, Hclosing,
    Hblank, Hheader.
  reflexivity.
Qed.

Lemma cleanCode_idempotent_witness :
  let x := js "function () {" ++ [10%N] ++ js "  a();" ++ [10%N]
           ++ js "  b();" ++ [10%N] ++ js "}" in
  cleanCode x = js "a();" ++ [10%N] ++ js "b();"
  /\ cleanCode (cleanCode x) = cleanCode x.
Proof.
  cbv zeta. split; [vm_compute; reflexivity|].
  apply cleanCode_idempotent; vm_compute; reflexivity.
Defined.

(** ** A suite below the root that is flagged [root]

    Such a suite is normalized with its parent's children and once more
    when it is dequeued; the second call finds the hook collections
    deleted and throws. The statements about [traverseSuites] above are
    about trees in which only the argument can carry the flag. *)
Example nested_root_throws :
  traverseSuites Sample.ext Sample.config 3
    (Sample.raw_suite true [] [Sample.raw_suite true [Sample.passed] []])
    Sample.world0
  = Fail Throws.
Proof. vm_compute. reflexivity. Qed.

(** * Further properties *)

(** ** cleanSuite: the properties it assigns

    The assignments of lines 226 and 248-271 as a list, in the order of
    the source: [u] is the fresh uuid, [root] and [file] the values read
    from the suite, [file'] the file with the working directory removed,
    [beforeHooks], [afterHooks] and [cleanTests] the arrays of normalized
    hooks and tests. *)
Definition derived (kids : list suite) (u root file file' : value)
    (beforeHooks afterHooks cleanTests : list CleanTest)
  : list (string * field) :=
  let passingTests :=
    filter (fun t => is_str "passed" (c_state t)) cleanTests in
  let failingTests :=
    filter (fun t => is_str "failed" (c_state t)) cleanTests in
  let pendingTests := filter (fun t => is_true (c_pending t)) cleanTests in
  let skippedTests := filter (fun t => c_skipped t = true) cleanTests in
  let duration :=
    foldl (fun d t => num_add d (Num (c_duration t))) (Num 0) cleanTests in
  [("uuid", FVal u);
   ("beforeHooks", FClean beforeHooks);
   ("afterHooks", FClean afterHooks);
   ("tests", FClean cleanTests);
   ("fullFile", FVal (js_or file (VStr [])));
   ("file", FVal file');
   ("passes", FClean passingTests);
   ("failures", FClean failingTests);
   ("pending", FClean pendingTests);
   ("skipped", FClean skippedTests);
   ("hasBeforeHooks", fbool (nonempty beforeHooks));
   ("hasAfterHooks", fbool (nonempty afterHooks));
   ("hasTests", fbool (nonempty cleanTests));
   ("hasSuites", fbool (nonempty kids));
   ("totalTests", fnum (length cleanTests));
   ("totalPasses", fnum (length passingTests));
   ("totalFailures", fnum (length failingTests));
   ("totalPending", fnum (length pendingTests));
   ("totalSkipped", fnum (length skippedTests));
   ("hasPasses", fbool (nonempty passingTests));
   ("hasFailures", fbool (nonempty failingTests));
   ("hasPending", fbool (nonempty pendingTests));
   ("hasSkipped", fbool (nonempty skippedTests));
   ("duration", FVal (num_value duration));
   ("rootEmpty", FVal (js_and root (VBool (length cleanTests =? 0)%nat)))].

(** Assignments carried out from left to right. *)
Definition assign (l : list (string * field)) (P : gmap string field)
  : gmap string field :=
  foldl (fun m kv => <[kv.1 := kv.2]> m) P l.

Lemma assign_snoc (l : list (string * field)) (k : string) (f : field)
    (P : gmap string field) :
  assign (l ++ [(k, f)]) P = <[k := f]> (assign l P).
Proof. unfold assign. rewrite foldl_app. reflexivity. Qed.

Lemma lookup_assign_notin (l : list (string * field)) (P : gmap string field)
    (k : string) :
  k ∉ l.*1 -> assign l P !! k = P !! k.
Proof.
  induction l as [|[k' f] l IH] using rev_ind; intros Hk; [reflexivity|].
  rewrite assign_snoc. rewrite fmap_app in Hk.
  apply not_elem_of_app in Hk as [Hk1 Hk2].
  rewrite lookup_insert_ne; [exact (IH Hk1)|].
  intros ->. apply Hk2. simpl. apply list_elem_of_singleton. reflexivity.
Qed.

Lemma lookup_assign_in (l : list (string * field)) (P : gmap string field)
    (k : string) (f : field) :
  NoDup l.*1 -> (k, f) ∈ l -> assign l P !! k = Some f.
Proof.
  induction l as [|[k' f'] l IH] using rev_ind; intros Hnd Hin.
  - by apply elem_of_nil in Hin.
  - rewrite assign_snoc. rewrite fmap_app in Hnd.
    apply NoDup_app in Hnd as (Hnd & Hdisj & _).
    apply elem_of_app in Hin as [Hin|Hin].
    + rewrite lookup_insert_ne; [exact (IH Hnd Hin)|].
      intros ->. apply (Hdisj k).
      * apply list_elem_of_fmap. exists (k, f). auto.
      * simpl. apply list_elem_of_singleton. reflexivity.
    + apply list_elem_of_singleton in Hin. injection Hin as -> ->.
      apply lookup_insert_eq.
Qed.

Lemma derived_keys (kids : list suite) (u root file file' : value)
    (bh ah cs : list CleanTest) :
  (derived kids u root file file' bh ah cs).*1 = assigned.
Proof. reflexivity. Qed.

Lemma assigned_NoDup : NoDup assigned.
Proof.
  unfold assigned.
  repeat (apply NoDup_cons; split;
          [intros H; repeat (apply elem_of_cons in H as [H|H];
                             [discriminate H|]);
           by apply elem_of_nil in H|]).
  apply NoDup_nil. exact I.
Qed.

(** The run of [cleanSuite] on a suite whose reads succeed. *)
Lemma cleanSuite_explicit (E : Ext) (config : Config)
    (P : gmap string field) (kids : list suite) (w : World)
    (bA bE aA aE ts : list RawTest) (rv fv fv' : value) :
  P !! "_beforeAll" = Some (FTests bA) ->
  P !! "_beforeEach" = Some (FTests bE) ->
  P !! "_afterAll" = Some (FTests aA) ->
  P !! "_afterEach" = Some (FTests aE) ->
  P !! "tests" = Some (FTests ts) ->
  scalar (P !! "root") = Ok rv ->
  scalar (P !! "file") = Ok fv ->
  strip_cwd E fv = Ok fv' ->
  let u := VStr (v4 E (uuids w)) in
  let r1 := clean_each E config (rv, u) (bA ++ bE) (S (uuids w)) in
  let r2 := clean_each E config (rv, u) (aA ++ aE) r1.2 in
  let r3 := clean_each E config (rv, u) ts r2.2 in
  cleanSuite E config (Suite P kids) w
  = Ok (Suite (removeAllPropsFromObjExcept
                 (assign (derived kids u rv fv fv' r1.1 r2.1 r3.1) P)
                 allow_list) kids,
        {| uuids := r3.2;
           total := num_add (total w) (Num (Z.of_nat (length ts))) |}).
Proof.
  intros HbA HbE HaA HaE Hts Hroot Hfile Hstrip u r1 r2 r3.
  subst u r1 r2 r3. unfold cleanSuite.
  cbv beta iota zeta delta [bind lift ret fail map_cleanTest uuids total].
  look. rewrite Hroot, HbA, HbE, HaA, HaE, Hts. red_m.
  destruct (clean_each E config _ (bA ++ bE) _) as [bh n1] eqn:Hbh. red_m.
  cbn [fst snd].
  destruct (clean_each E config _ (aA ++ aE) n1) as [ah n2] eqn:Hah. red_m.
  cbn [fst snd].
  destruct (clean_each E config _ ts n2) as [cs n3] eqn:Hcs. red_m.
  look. rewrite Hfile. red_m. rewrite Hstrip. red_m.
  reflexivity.
Qed.

(** ** removeAllPropsFromObjExcept *)

Lemma lookup_removeAll (obj : gmap string field) (keep : list string)
    (k : string) :
  removeAllPropsFromObjExcept obj keep !! k
  = if bool_decide (k ∈ keep) then obj !! k else None.
Proof.
  unfold removeAllPropsFromObjExcept.
  destruct (bool_decide_reflect (k ∈ keep)) as [Hk|Hk].
  - destruct (obj !! k) as [f|] eqn:Hobj.
    + apply map_lookup_filter_Some. auto.
    + apply map_lookup_filter_None. auto.
  - apply map_lookup_filter_None. right. intros f _. exact Hk.
Qed.

(** X1. [removeAllPropsFromObjExcept] keeps a property exactly when its
    name is in the list, with its value unchanged; pruning twice with the
    same list changes nothing more, and pruning with two lists in either
    order leaves the properties named in both. *)
Theorem removeAllProps_keeps :
  forall (obj : gmap string field) (keep keep' : list string),
    (forall k, removeAllPropsFromObjExcept obj keep !! k
               = if bool_decide (k ∈ keep) then obj !! k else None)
    /\ dom (removeAllPropsFromObjExcept obj keep)
       = filter (fun k => k ∈ keep) (dom obj)
    /\ removeAllPropsFromObjExcept
         (removeAllPropsFromObjExcept obj keep) keep
       = removeAllPropsFromObjExcept obj keep
    /\ removeAllPropsFromObjExcept
         (removeAllPropsFromObjExcept obj keep) keep'
       = removeAllPropsFromObjExcept
           (removeAllPropsFromObjExcept obj keep') keep.
Proof.
  intros obj keep keep'. split; [intros k; apply lookup_removeAll|].
  split; [|split].
  - apply set_eq. intros k. rewrite elem_of_filter, !elem_of_dom.
    rewrite lookup_removeAll.
    destruct (bool_decide_reflect (k ∈ keep)) as [Hk|Hk].
    + tauto.
    + split; [intros [? ?]; discriminate|tauto].
  - apply map_eq. intros k. rewrite !lookup_removeAll.
    destruct (bool_decide (k ∈ keep)); reflexivity.
  - apply map_eq. intros k. rewrite !lookup_removeAll.
    destruct (bool_decide (k ∈ keep)), (bool_decide (k ∈ keep'));
      reflexivity.
Qed.

(** ** cleanSuite: when it returns *)

Lemma hook_items_Ok (f : option field) (l : list RawTest) :
  hook_items f = Ok l -> f = Some (FTests l).
Proof.
  destruct f as [[[]| |]|]; simpl; intros H; try discriminate H.
  injection H as <-. reflexivity.
Qed.

Lemma test_items_Ok (f : option field) (l : list RawTest) :
  test_items f = Ok l -> f = Some (FTests l).
Proof.
  destruct f as [[[]| |]|]; simpl; intros H; try discriminate H.
  injection H as <-. reflexivity.
Qed.

Lemma scalar_Ok (f : option field) (v : value) :
  scalar f = Ok v -> is_scalar f = true.
Proof. destruct f as [[]|]; simpl; intros H; (reflexivity || discriminate H). Qed.

Lemma file_Ok (E : Ext) (f : option field) (v v' : value) :
  scalar f = Ok v -> strip_cwd E v = Ok v' -> is_file f = true.
Proof.
  destruct f as [[fv| |]|]; simpl; intros H Hs; try discriminate H;
    [|reflexivity].
  injection H as <-. unfold strip_cwd in Hs.
  destruct (truthy fv); [|reflexivity].
  destruct fv; try discriminate Hs. reflexivity.
Qed.

Lemma cleanSuite_Ok_inv (E : Ext) (config : Config) (P : gmap string field)
    (kids : list suite) (w : World) (s' : suite) (w' : World) :
  cleanSuite E config (Suite P kids) w = Ok (s', w') ->
  runner_props P = true.
Proof.
  unfold cleanSuite.
  cbv beta iota zeta delta [bind lift ret fail map_cleanTest uuids total].
  look.
  destruct (scalar (P !! "root")) as [rv|] eqn:Hroot; [|discriminate].
  destruct (hook_items (P !! "_beforeAll")) as [bA|] eqn:HbA;
    [|discriminate].
  destruct (hook_items (P !! "_beforeEach")) as [bE|] eqn:HbE;
    [|discriminate].
  destruct (clean_each E config _ (bA ++ bE) _) as [bh n1].
  destruct (hook_items (P !! "_afterAll")) as [aA|] eqn:HaA;
    [|discriminate].
  destruct (hook_items (P !! "_afterEach")) as [aE|] eqn:HaE;
    [|discriminate].
  destruct (clean_each E config _ (aA ++ aE) _) as [ah n2].
  destruct (test_items (P !! "tests")) as [ts|] eqn:Hts; [|discriminate].
  destruct (clean_each E config _ ts _) as [cs n3].
  look.
  destruct (scalar (P !! "file")) as [fv|] eqn:Hfile; [|discriminate].
  destruct (strip_cwd E fv) as [fv'|] eqn:Hstrip; [|discriminate].
  intros _. unfold runner_props.
  rewrite (hook_items_Ok _ _ HbA), (hook_items_Ok _ _ HbE),
    (hook_items_Ok _ _ HaA), (hook_items_Ok _ _ HaE),
    (test_items_Ok _ _ Hts), (scalar_Ok _ _ Hroot),
    (file_Ok E _ _ _ Hfile Hstrip).
  reflexivity.
Qed.

Definition tests_or_absent (f : option field) : bool :=
  match f with
  | None | Some (FTests _) => true
  | _ => false
  end.

(** X2. When [root] is a scalar, each of the four hook collections and
    [tests] is an array of tests or absent, and at least one of them is
    absent, [cleanSuite] throws: [cleanTest] is handed [undefined] for an
    absent hook collection, and [suite.tests.length] is read of
    [undefined]. *)
Theorem cleanSuite_throws :
  forall (E : Ext) (config : Config) (P : gmap string field)
         (kids : list suite) (w : World),
    is_scalar (P !! "root") = true ->
    tests_or_absent (P !! "_beforeAll") = true ->
    tests_or_absent (P !! "_beforeEach") = true ->
    tests_or_absent (P !! "_afterAll") = true ->
    tests_or_absent (P !! "_afterEach") = true ->
    tests_or_absent (P !! "tests") = true ->
    is_tests (P !! "_beforeAll") && is_tests (P !! "_beforeEach")
    && is_tests (P !! "_afterAll") && is_tests (P !! "_afterEach")
    && is_tests (P !! "tests") = false ->
    cleanSuite E config (Suite P kids) w = Fail Throws.
Proof.
  intros E config P kids w Hroot HbA HbE HaA HaE Hts Hsome.
  apply is_scalar_inv in Hroot as [rv Hroot].
  unfold cleanSuite.
  cbv beta iota zeta delta [bind lift ret fail map_cleanTest uuids total].
  look. rewrite Hroot.
  destruct (P !! "_beforeAll") as [[| |]|]; try discriminate HbA;
    [|reflexivity].
  destruct (P !! "_beforeEach") as [[| |]|]; try discriminate HbE;
    [|reflexivity].
  red_m. destruct (clean_each E config _ _ _) as [bh n1].
  destruct (P !! "_afterAll") as [[| |]|]; try discriminate HaA;
    [|reflexivity].
  destruct (P !! "_afterEach") as [[| |]|]; try discriminate HaE;
    [|reflexivity].
  red_m. destruct (clean_each E config _ _ _) as [ah n2].
  destruct (P !! "tests") as [[| |]|]; try discriminate Hts;
    [discriminate Hsome|reflexivity].
Qed.

Lemma cleanSuite_throws_witness :
  cleanSuite Sample.ext Sample.config
    (Suite (delete "_afterEach" (props Sample.child)) []) Sample.world0
  = Fail Throws.
Proof.
  apply (cleanSuite_throws Sample.ext Sample.config
           (delete "_afterEach" (props Sample.child)) [] Sample.world0);
    vm_compute; reflexivity.
Defined.

Lemma cleanSuite_no_beforeAll (E : Ext) (config : Config)
    (P : gmap string field) (kids : list suite) (w : World) :
  is_scalar (P !! "root") = true -> P !! "_beforeAll" = None ->
  cleanSuite E config (Suite P kids) w = Fail Throws.
Proof.
  intros Hroot HbA. apply is_scalar_inv in Hroot as [rv Hroot].
  unfold cleanSuite.
  cbv beta iota zeta delta [bind lift ret fail map_cleanTest uuids total].
  look. rewrite Hroot, HbA. reflexivity.
Qed.

(** X3. [cleanSuite] cannot be applied twice: the first call on a runner
    suite returns and deletes the hook collections, so a second call on
    the same suite object throws. *)
Theorem cleanSuite_twice_throws :
  forall (E : Ext) (config : Config) (P : gmap string field)
         (kids : list suite) (w : World),
    runner_props P = true ->
    exists s' w',
      cleanSuite E config (Suite P kids) w = Ok (s', w')
      /\ forall w2, cleanSuite E config s' w2 = Fail Throws.
Proof.
  intros E config P kids w HP.
  destruct (cleanSuite_ok E config P kids w HP)
    as (Q & n' & cs & Hrun & _ & Hout & _).
  eexists _, _. split; [exact Hrun|]. intros w2.
  apply cleanSuite_no_beforeAll.
  - rewrite lookup_pruned by (apply in_allow_list; vm_compute; reflexivity).
    rewrite (Hout "root" root_not_assigned).
    unfold runner_props in HP. rewrite !andb_true_iff in HP. tauto.
  - rewrite lookup_removeAll.
    replace (bool_decide ("_beforeAll" ∈ allow_list)) with false
      by (vm_compute; reflexivity).
    reflexivity.
Qed.

Lemma cleanSuite_twice_throws_witness :
  exists s' w',
    cleanSuite Sample.ext Sample.config Sample.child Sample.world0
    = Ok (s', w')
    /\ cleanSuite Sample.ext Sample.config s' w' = Fail Throws.
Proof.
  destruct (cleanSuite_twice_throws Sample.ext Sample.config
              (props Sample.child) [] Sample.world0)
    as (s' & w' & Hrun & Hthrow); [vm_compute; reflexivity|].
  exists s', w'. split; [exact Hrun|apply Hthrow].
Defined.

(** ** cleanSuite: the normalized suite *)

(** Reading a property of a normalized suite. *)
Definition get_tests (s : suite) (k : string) : list CleanTest :=
  match props s !! k with
  | Some (FClean l) => l
  | _ => []
  end.

Definition get_val (s : suite) (k : string) : value :=
  match props s !! k with
  | Some (FVal v) => v
  | _ => VUndef
  end.

(** The arrays of tests of a runner suite. *)
Definition raw_tests (P : gmap string field) (k : string) : list RawTest :=
  match P !! k with
  | Some (FTests l) => l
  | _ => []
  end.

Definition root_value (P : gmap string field) : value :=
  match P !! "root" with
  | Some (FVal v) => v
  | _ => VUndef
  end.

(** [c] is what [cleanTest] returns for [t] under the owner data [owner],
    after some number of identifiers drawn. *)
Definition cleans (E : Ext) (config : Config) (owner : value * value)
    (t : RawTest) (c : CleanTest) : Prop :=
  exists n, c = (cleanTest E config owner t n).1.1.

Lemma clean_each_Forall2 (E : Ext) (config : Config) (owner : value * value)
    (ts : list RawTest) :
  forall n, Forall2 (cleans E config owner) ts
              (clean_each E config owner ts n).1.
Proof.
  induction ts as [|t ts IH]; intros n; cbn [clean_each]; [constructor|].
  destruct (cleanTest E config owner t n) as [[c t'] n1] eqn:Hc.
  specialize (IH n1). destruct (clean_each E config owner ts n1) as [cs n2].
  cbn [fst] in *. constructor; [|exact IH].
  exists n. rewrite Hc. reflexivity.
Qed.

Lemma derived_lookup (P : gmap string field) (kids : list suite)
    (u rv fv fv' : value) (bh ah cs : list CleanTest) (k : string)
    (f : field) :
  (k, f) ∈ derived kids u rv fv fv' bh ah cs ->
  removeAllPropsFromObjExcept
    (assign (derived kids u rv fv fv' bh ah cs) P) allow_list !! k
  = Some f.
Proof.
  intros Hin.
  assert (k ∈ assigned) as Hk.
  { rewrite <- (derived_keys kids u rv fv fv' bh ah cs).
    apply list_elem_of_fmap. exists (k, f). auto. }
  rewrite lookup_pruned by exact (assigned_allowed k Hk).
  apply lookup_assign_in; [|exact Hin].
  rewrite derived_keys. exact assigned_NoDup.
Qed.

Ltac in_derived :=
  unfold derived; cbv zeta;
  repeat first [apply list_elem_of_here | apply list_elem_of_further].

(** The run of [cleanSuite] on a runner suite, with the values it reads. *)
Lemma cleanSuite_run (E : Ext) (config : Config) (P : gmap string field)
    (kids : list suite) (w : World) :
  runner_props P = true ->
  exists fv fv',
    scalar (P !! "file") = Ok fv /\ strip_cwd E fv = Ok fv'
    /\ let u := VStr (v4 E (uuids w)) in
       let owner := (root_value P, u) in
       let r1 := clean_each E config owner
                   (raw_tests P "_beforeAll" ++ raw_tests P "_beforeEach")
                   (S (uuids w)) in
       let r2 := clean_each E config owner
                   (raw_tests P "_afterAll" ++ raw_tests P "_afterEach")
                   r1.2 in
       let r3 := clean_each E config owner (raw_tests P "tests") r2.2 in
       cleanSuite E config (Suite P kids) w
       = Ok (Suite (removeAllPropsFromObjExcept
                      (assign (derived kids u (root_value P) fv fv'
                                 r1.1 r2.1 r3.1) P)
                      allow_list) kids,
             {| uuids := r3.2;
                total := num_add (total w)
                           (Num (Z.of_nat (length (raw_tests P "tests"))))
             |}).
Proof.
  unfold runner_props. rewrite !andb_true_iff.
  intros [[[[[[HbA HbE] HaA] HaE] Hts] Hroot] Hfile].
  apply is_tests_inv in HbA as [bA HbA], HbE as [bE HbE],
    HaA as [aA HaA], HaE as [aE HaE], Hts as [ts Hts].
  apply is_scalar_inv in Hroot as [rv Hroot].
  apply (is_file_inv E) in Hfile as (fv & fv' & Hfile & Hstrip).
  exists fv, fv'. split; [exact Hfile|]. split; [exact Hstrip|].
  assert (root_value P = rv) as Hrv.
  { unfold root_value. destruct (P !! "root") as [[]|];
      simpl in Hroot; congruence. }
  unfold raw_tests. rewrite HbA, HbE, HaA, HaE, Hts, Hrv.
  exact (cleanSuite_explicit E config P kids w bA bE aA aE ts rv fv fv'
           HbA HbE HaA HaE Hts Hroot Hfile Hstrip).
Qed.

Ltac read_derived :=
  unfold get_tests, get_val; cbn [props];
  repeat (erewrite derived_lookup by in_derived).

(** X4. The arrays of a normalized suite correspond, element by element and
    in order, to the runner's arrays: [beforeHooks] to the before-all
    hooks followed by the before-each hooks, [afterHooks] to the after-all
    hooks followed by the after-each hooks, [tests] to [tests]. Each
    element is what [cleanTest] returns for the raw one; the child suites
    are left as they were. *)
Theorem cleanSuite_arrays :
  forall (E : Ext) (config : Config) (P : gmap string field)
         (kids : list suite) (w : World),
    runner_props P = true ->
    exists s' w',
      cleanSuite E config (Suite P kids) w = Ok (s', w')
      /\ children s' = kids
      /\ get_val s' "uuid" = VStr (v4 E (uuids w))
      /\ let owner := (root_value P, get_val s' "uuid") in
         Forall2 (cleans E config owner)
           (raw_tests P "_beforeAll" ++ raw_tests P "_beforeEach")
           (get_tests s' "beforeHooks")
         /\ Forall2 (cleans E config owner)
              (raw_tests P "_afterAll" ++ raw_tests P "_afterEach")
              (get_tests s' "afterHooks")
         /\ Forall2 (cleans E config owner) (raw_tests P "tests")
              (get_tests s' "tests").
Proof.
  intros E config P kids w HP.
  destruct (cleanSuite_run E config P kids w HP)
    as (fv & fv' & _ & _ & Hrun).
  cbv zeta in Hrun. eexists _, _. split; [exact Hrun|].
  split; [reflexivity|]. read_derived.
  split; [reflexivity|]. cbv zeta.
  split; [|split]; apply clean_each_Forall2.
Qed.

Lemma cleanSuite_arrays_witness :
  exists s' w',
    cleanSuite Sample.ext Sample.config Sample.child Sample.world0
    = Ok (s', w')
    /\ length (get_tests s' "tests") = 2%nat.
Proof.
  destruct (cleanSuite_arrays Sample.ext Sample.config (props Sample.child)
              [] Sample.world0)
    as (s' & w' & Hrun & _ & _ & _ & _ & Htests); [vm_compute; reflexivity|].
  exists s', w'. split; [exact Hrun|].
  apply Forall2_length in Htests. rewrite <- Htests. reflexivity.
Defined.

Lemma cleanTest_parent (E : Ext) (config : Config) (owner : value * value)
    (t : RawTest) (n : nat) :
  t_parent t = Owner ->
  c_parentUUID (cleanTest E config owner t n).1.1 = owner.2
  /\ c_isRoot (cleanTest E config owner t n).1.1 = owner.1.
Proof.
  intros Hp. unfold cleanTest.
  destruct (t_err t) as [e|]; [destruct (normalizeErr E config e)|];
    destruct (truthy (t_uuid t)); simpl; rewrite Hp; auto.
Qed.

(** X5. Every test and hook of a suite that points to the suite as its
    parent is normalized with [parentUUID] equal to the uuid the suite has
    just been assigned, and with [isRoot] equal to the suite's [root]. *)
Theorem cleanSuite_links :
  forall (E : Ext) (config : Config) (P : gmap string field)
         (kids : list suite) (w : World),
    runner_props P = true ->
    exists s' w',
      cleanSuite E config (Suite P kids) w = Ok (s', w')
      /\ let linked (t : RawTest) (c : CleanTest) :=
           t_parent t = Owner ->
           c_parentUUID c = get_val s' "uuid"
           /\ c_isRoot c = root_value P in
         Forall2 linked
           (raw_tests P "_beforeAll" ++ raw_tests P "_beforeEach")
           (get_tests s' "beforeHooks")
         /\ Forall2 linked
              (raw_tests P "_afterAll" ++ raw_tests P "_afterEach")
              (get_tests s' "afterHooks")
         /\ Forall2 linked (raw_tests P "tests") (get_tests s' "tests").
Proof.
  intros E config P kids w HP.
  destruct (cleanSuite_run E config P kids w HP)
    as (fv & fv' & _ & _ & Hrun).
  cbv zeta in Hrun. eexists _, _. split; [exact Hrun|].
  read_derived. cbv zeta.
  assert (forall t c,
            cleans E config (root_value P, VStr (v4 E (uuids w))) t c ->
            t_parent t = Owner ->
            c_parentUUID c = VStr (v4 E (uuids w))
            /\ c_isRoot c = root_value P) as Hlink.
  { intros t c [n ->] Hp.
    exact (cleanTest_parent E config _ t n Hp). }
  split; [|split];
    (eapply Forall2_impl; [apply clean_each_Forall2|exact Hlink]).
Qed.

Lemma cleanSuite_links_witness :
  exists s' w',
    cleanSuite Sample.ext Sample.config Sample.child Sample.world0
    = Ok (s', w')
    /\ Forall (fun c => c_parentUUID c = get_val s' "uuid")
         (get_tests s' "tests").
Proof.
  destruct (cleanSuite_links Sample.ext Sample.config (props Sample.child)
              [] Sample.world0)
    as (s' & w' & Hrun & _ & _ & Ht); [vm_compute; reflexivity|].
  exists s', w'. split; [exact Hrun|].
  change (raw_tests (props Sample.child) "tests")
    with [Sample.passed; Sample.failed] in Ht.
  apply Forall2_cons_inv_l in Ht as (c1 & l1 & H1 & Ht & ->).
  apply Forall2_cons_inv_l in Ht as (c2 & l2 & H2 & Ht & ->).
  apply Forall2_nil_inv_l in Ht as ->.
  repeat constructor; [apply H1|apply H2]; reflexivity.
Defined.

Lemma cleanTest_flags (E : Ext) (config : Config) (owner : value * value)
    (t : RawTest) (n : nat) :
  let c := (cleanTest E config owner t n).1.1 in
  c_state c = t_state t /\ c_pending c = t_pending t
  /\ c_isHook c = is_str "hook" (t_type t)
  /\ c_pass c = is_str "passed" (c_state c)
  /\ c_fail c = is_str "failed" (c_state c)
  /\ c_skipped c
     = negb (c_pass c) && negb (c_fail c) && negb (truthy (c_pending c))
       && negb (c_isHook c).
Proof.
  unfold cleanTest.
  destruct (t_err t) as [e|]; [destruct (normalizeErr E config e)|];
    destruct (truthy (t_uuid t)); simpl; auto 10.
Qed.

Lemma passed_not_failed (v : value) :
  is_str "passed" v = true -> is_str "failed" v = false.
Proof.
  destruct v; simpl; try discriminate. unfold jseqb.
  intros H. apply bool_decide_eq_true in H. subst s. reflexivity.
Qed.

(** What [cleanTest] guarantees of the flags of a normalized test. *)
Definition flags_ok (c : CleanTest) : Prop :=
  c_skipped c
  = negb (is_str "passed" (c_state c)) && negb (is_str "failed" (c_state c))
    && negb (truthy (c_pending c)) && negb (c_isHook c).

Lemma cleans_flags_ok (E : Ext) (config : Config) (owner : value * value)
    (t : RawTest) (c : CleanTest) :
  cleans E config owner t c ->
  flags_ok c /\ c_state c = t_state t /\ c_pending c = t_pending t
  /\ c_isHook c = is_str "hook" (t_type t).
Proof.
  intros [n ->].
  destruct (cleanTest_flags E config owner t n)
    as (Hs & Hp & Hh & Hpass & Hfail & Hskip).
  split; [|auto]. unfold flags_ok. rewrite Hskip, Hpass, Hfail. reflexivity.
Qed.

Lemma cleans_all_flags_ok (E : Ext) (config : Config)
    (owner : value * value) (ts : list RawTest) (cs : list CleanTest) :
  Forall2 (cleans E config owner) ts cs -> Forall flags_ok cs.
Proof.
  induction 1 as [|t c ts cs Hc _ IH]; constructor; [|exact IH].
  apply cleans_flags_ok in Hc. tauto.
Qed.

Lemma bucket_le (cs : list CleanTest) :
  Forall flags_ok cs ->
  (length (filter (fun t => is_str "passed" (c_state t)) cs)
   + length (filter (fun t => is_str "failed" (c_state t)) cs)
   + length (filter (fun t => c_skipped t = true) cs)
   <= length cs)%nat.
Proof.
  induction 1 as [|c cs Hc _ IH]; [reflexivity|].
  rewrite !filter_cons. unfold flags_ok in Hc.
  destruct (is_str "passed" (c_state c)) eqn:Hp.
  - rewrite (passed_not_failed _ Hp) in *. simpl in Hc.
    rewrite Hc. simpl. repeat case_decide; try done; simpl; lia.
  - destruct (is_str "failed" (c_state c)) eqn:Hf; simpl in Hc.
    + rewrite Hc. repeat case_decide; try done; simpl; lia.
    + repeat case_decide; try done; simpl; lia.
Qed.

(** A test as the runner reports it: not a hook, [pending] is a boolean
    when it is truthy, and a pending test has no passed or failed state. *)
Definition reported (t : RawTest) : Prop :=
  is_str "hook" (t_type t) = false
  /\ (truthy (t_pending t) = true ->
      t_pending t = VBool true
      /\ is_str "passed" (t_state t) = false
      /\ is_str "failed" (t_state t) = false).

Lemma bucket_eq (E : Ext) (config : Config) (owner : value * value)
    (ts : list RawTest) (cs : list CleanTest) :
  Forall2 (cleans E config owner) ts cs -> Forall reported ts ->
  (length (filter (fun t => is_str "passed" (c_state t)) cs)
   + length (filter (fun t => is_str "failed" (c_state t)) cs)
   + length (filter (fun t => is_true (c_pending t)) cs)
   + length (filter (fun t => c_skipped t = true) cs)
   = length cs)%nat.
Proof.
  induction 1 as [|t c ts cs Hc _ IH]; intros Hrep; [reflexivity|].
  apply Forall_cons in Hrep as [[Hhook Hpend] Hrep]. specialize (IH Hrep).
  apply cleans_flags_ok in Hc as (Hflags & Hs & Hp & Hh).
  rewrite !filter_cons. unfold flags_ok in Hflags.
  rewrite Hh, Hhook, Hp, Hs in Hflags. rewrite Hs, Hp.
  destruct (truthy (t_pending t)) eqn:Htr.
  - destruct (Hpend eq_refl) as (Hpt & Hnp & Hnf).
    rewrite Hnp, Hnf in *. rewrite Hpt. simpl in Hflags. rewrite Hflags.
    repeat case_decide; try done; simpl; lia.
  - assert (is_true (t_pending t) = false) as Hnt.
    { destruct (t_pending t) as [| |[|]| | | | | |]; try reflexivity.
      discriminate Htr. }
    rewrite Hnt.
    destruct (is_str "passed" (t_state t)) eqn:Hpass.
    + rewrite (passed_not_failed _ Hpass) in *. simpl in Hflags.
      rewrite Hflags. repeat case_decide; try done; simpl; lia.
    + destruct (is_str "failed" (t_state t)) eqn:Hfail; simpl in Hflags;
        rewrite Hflags; repeat case_decide; try done; simpl; lia.
Qed.

(** X6. In a normalized suite [passes], [failures], [pending] and
    [skipped] are the tests with state [passed], with state [failed], with
    [pending] equal to [true] and with the [skipped] flag, in the order of
    [tests]. Passes, failures and skipped tests never overlap, so together
    they are at most [tests]; when the runner's tests are not hooks and a
    pending test has [pending] equal to [true] and no passed or failed
    state, the four arrays together have as many elements as [tests]. *)
Theorem cleanSuite_buckets :
  forall (E : Ext) (config : Config) (P : gmap string field)
         (kids : list suite) (w : World),
    runner_props P = true ->
    exists s' w',
      cleanSuite E config (Suite P kids) w = Ok (s', w')
      /\ let tests := get_tests s' "tests" in
         let passes := get_tests s' "passes" in
         let failures := get_tests s' "failures" in
         let pending := get_tests s' "pending" in
         let skipped := get_tests s' "skipped" in
         passes = filter (fun t => is_str "passed" (c_state t)) tests
         /\ failures = filter (fun t => is_str "failed" (c_state t)) tests
         /\ pending = filter (fun t => is_true (c_pending t)) tests
         /\ skipped = filter (fun t => c_skipped t = true) tests
         /\ (length passes + length failures + length skipped
             <= length tests)%nat
         /\ (Forall reported (raw_tests P "tests") ->
             (length passes + length failures + length pending
              + length skipped = length tests)%nat).
Proof.
  intros E config P kids w HP.
  destruct (cleanSuite_run E config P kids w HP)
    as (fv & fv' & _ & _ & Hrun).
  cbv zeta in Hrun. eexists _, _. split; [exact Hrun|].
  read_derived. cbv zeta.
  pose proof (clean_each_Forall2 E config
                (root_value P, VStr (v4 E (uuids w))) (raw_tests P "tests"))
    as Hall.
  do 4 (split; [reflexivity|]). split.
  - apply bucket_le. eapply cleans_all_flags_ok, Hall.
  - intros Hrep. eapply bucket_eq; [apply Hall|exact Hrep].
Qed.

Lemma cleanSuite_buckets_witness :
  exists s' w',
    cleanSuite Sample.ext Sample.config Sample.child Sample.world0
    = Ok (s', w')
    /\ (length (get_tests s' "passes") + length (get_tests s' "failures")
        + length (get_tests s' "pending") + length (get_tests s' "skipped")
        = length (get_tests s' "tests"))%nat.
Proof.
  destruct (cleanSuite_buckets Sample.ext Sample.config (props Sample.child)
              [] Sample.world0)
    as (s' & w' & Hrun & _ & _ & _ & _ & _ & Heq);
    [vm_compute; reflexivity|].
  exists s', w'. split; [exact Hrun|]. apply Heq.
  repeat constructor; vm_compute; discriminate.
Defined.

(** The sum of the durations of the runner's tests, a missing duration
    counting as 0: as an integer, and as the code adds it up, from the left
    in double arithmetic. *)
Definition raw_duration (ts : list RawTest) : Z :=
  foldr (fun t d => default 0 (t_duration t) + d) 0 ts.

Definition added_duration (ts : list RawTest) : jsnum :=
  foldl (fun d t => num_add d (Num (default 0 (t_duration t)))) (Num 0) ts.

Lemma cleans_duration (E : Ext) (config : Config) (owner : value * value)
    (t : RawTest) (c : CleanTest) :
  cleans E config owner t c -> c_duration c = default 0 (t_duration t).
Proof.
  intros [n ->]. unfold cleanTest.
  destruct (t_err t) as [e|]; [destruct (normalizeErr E config e)|];
    destruct (truthy (t_uuid t)); simpl;
    (destruct (t_duration t) as [d|]; [|reflexivity]);
    (destruct (d =? 0) eqn:Hd; [apply Z.eqb_eq in Hd; subst|]; reflexivity).
Qed.

Lemma foldl_duration (E : Ext) (config : Config) (owner : value * value)
    (ts : list RawTest) (cs : list CleanTest) :
  Forall2 (cleans E config owner) ts cs ->
  forall d0,
    foldl (fun d c => num_add d (Num (c_duration c))) d0 cs
    = foldl (fun d t => num_add d (Num (default 0 (t_duration t)))) d0 ts.
Proof.
  induction 1 as [|t c ts cs Hc _ IH]; intros d0; [reflexivity|].
  cbn [foldl]. rewrite (cleans_duration _ _ _ _ _ Hc). apply IH.
Qed.

Lemma raw_duration_nonneg (ts : list RawTest) :
  Forall (fun t => 0 <= default 0 (t_duration t)) ts -> 0 <= raw_duration ts.
Proof.
  induction 1 as [|t ts Ht _ IH]; [reflexivity|].
  cbn [raw_duration foldr]. fold (raw_duration ts). lia.
Qed.

Lemma added_duration_exact (ts : list RawTest) :
  Forall (fun t => 0 <= default 0 (t_duration t)) ts ->
  forall d0,
    0 <= d0 -> d0 + raw_duration ts <= 2 ^ 53 ->
    foldl (fun d t => num_add d (Num (default 0 (t_duration t)))) (Num d0) ts
    = Num (d0 + raw_duration ts).
Proof.
  induction 1 as [|t ts Ht Hts IH]; intros d0 Hd0 Hsum.
  - cbn [foldl raw_duration foldr]. f_equal. lia.
  - cbn [raw_duration foldr] in *. fold (raw_duration ts) in *.
    pose proof (raw_duration_nonneg ts Hts) as Hnn.
    cbn [foldl]. rewrite num_add_exact by lia.
    rewrite IH by lia. f_equal. lia.
Qed.

(** X7. The summary fields of a normalized suite agree with its arrays:
    each [total*] is the length of the array it counts, [totalTests] being
    the number of the runner's tests; each [has*] flag is true exactly when
    that array is not empty, [hasSuites] when the suite has child suites;
    [duration] is what adding the durations of the tests from the left
    gives in double arithmetic, a missing duration counting as 0 and hooks
    not counting, which is their sum when no duration is negative and the
    sum is at most [2^53]; [rootEmpty] is [true] exactly when [root] is
    truthy and there are no tests, and is [root] itself when [root] is
    falsy. *)
Theorem cleanSuite_summary :
  forall (E : Ext) (config : Config) (P : gmap string field)
         (kids : list suite) (w : World),
    runner_props P = true ->
    exists s' w',
      cleanSuite E config (Suite P kids) w = Ok (s', w')
      /\ let count k := VNum (Z.of_nat (length (get_tests s' k))) in
         let some k := VBool (nonempty (get_tests s' k)) in
         length (get_tests s' "tests") = length (raw_tests P "tests")
         /\ get_val s' "totalTests" = count "tests"
         /\ get_val s' "totalPasses" = count "passes"
         /\ get_val s' "totalFailures" = count "failures"
         /\ get_val s' "totalPending" = count "pending"
         /\ get_val s' "totalSkipped" = count "skipped"
         /\ get_val s' "hasTests" = some "tests"
         /\ get_val s' "hasPasses" = some "passes"
         /\ get_val s' "hasFailures" = some "failures"
         /\ get_val s' "hasPending" = some "pending"
         /\ get_val s' "hasSkipped" = some "skipped"
         /\ get_val s' "hasBeforeHooks" = some "beforeHooks"
         /\ get_val s' "hasAfterHooks" = some "afterHooks"
         /\ get_val s' "hasSuites" = VBool (nonempty kids)
         /\ get_val s' "duration"
            = num_value (added_duration (raw_tests P "tests"))
         /\ (Forall (fun t => 0 <= default 0 (t_duration t))
                (raw_tests P "tests") ->
             raw_duration (raw_tests P "tests") <= 2 ^ 53 ->
             get_val s' "duration"
             = VNum (raw_duration (raw_tests P "tests")))
         /\ get_val s' "rootEmpty"
            = (if truthy (root_value P)
               then VBool (negb (nonempty (raw_tests P "tests")))
               else root_value P).
Proof.
  intros E config P kids w HP.
  destruct (cleanSuite_run E config P kids w HP)
    as (fv & fv' & _ & _ & Hrun).
  cbv zeta in Hrun. eexists _, _. split; [exact Hrun|].
  read_derived. cbv zeta.
  pose proof (clean_each_Forall2 E config
                (root_value P, VStr (v4 E (uuids w))) (raw_tests P "tests"))
    as Hall.
  pose proof (clean_each_length E config
                (root_value P, VStr (v4 E (uuids w))) (raw_tests P "tests"))
    as Hlen.
  split; [apply Hlen|]. do 13 (split; [reflexivity|]).
  rewrite (foldl_duration _ _ _ _ _ (Hall _)).
  split; [reflexivity|]. split.
  - intros Hnn Hsum.
    rewrite (added_duration_exact _ Hnn 0) by lia. reflexivity.
  - unfold js_and, nonempty. rewrite Hlen.
    destruct (truthy (root_value P)); [|reflexivity].
    destruct (length (raw_tests P "tests")); reflexivity.
Qed.

Lemma cleanSuite_summary_witness :
  exists s' w',
    cleanSuite Sample.ext Sample.config Sample.child Sample.world0
    = Ok (s', w')
    /\ get_val s' "duration" = VNum 6
    /\ get_val s' "rootEmpty" = VBool false
    /\ get_val s' "hasSuites" = VBool false.
Proof.
  destruct (cleanSuite_summary Sample.ext Sample.config (props Sample.child)
              [] Sample.world0)
    as (s' & w' & Hrun & H); [vm_compute; reflexivity|].
  cbv zeta in H.
  destruct H as (_ & _ & _ & _ & _ & _ & _ & _ & _ & _ & _ & _ & _ & Hs
                 & _ & Hd & Hr).
  exists s', w'. split; [exact Hrun|].
  split; [|split; [rewrite Hr; vm_compute; reflexivity|exact Hs]].
  rewrite Hd; [vm_compute; reflexivity| |vm_compute; discriminate].
  repeat constructor; vm_compute; discriminate.
Defined.

(** ** cleanSuite: the file name *)

Lemma has_prefix_take (pat s : jsstring) :
  has_prefix pat s = true <-> take (length pat) s = pat.
Proof.
  revert s. induction pat as [|p pat IH]; intros s; simpl.
  - split; [intros _; apply take_0|reflexivity].
  - destruct s as [|c s]; simpl; [split; discriminate|].
    rewrite andb_true_iff, IH, N.eqb_eq. split.
    + intros [-> ->]. reflexivity.
    + intros [= -> H]. auto.
Qed.

Lemma remove_first_prefix (pat rest : jsstring) :
  remove_first pat (pat ++ rest) = rest.
Proof.
  destruct (pat ++ rest) as [|c t] eqn:Hs; cbn [remove_first];
    rewrite <- Hs, take_app_length, bool_decide_eq_true_2 by reflexivity;
    apply drop_app_length.
Qed.

Lemma remove_first_absent (pat s : jsstring) :
  contains pat s = false -> remove_first pat s = s.
Proof.
  induction s as [|c t IH]; cbn [contains remove_first]; intros H;
    apply orb_false_iff in H as [Hp Ht].
  - rewrite bool_decide_eq_false_2; [reflexivity|].
    intros Heq. apply has_prefix_take in Heq. congruence.
  - rewrite bool_decide_eq_false_2.
    + rewrite (IH Ht). reflexivity.
    + intros Heq. apply has_prefix_take in Heq. congruence.
Qed.

(** The first occurrence is the one removed: the pattern occurs after
    [pre] and at no earlier position. *)
Lemma remove_first_at (pat pre post : jsstring) :
  (forall i, (i < length pre)%nat ->
             has_prefix pat (drop i (pre ++ pat ++ post)) = false) ->
  remove_first pat (pre ++ pat ++ post) = pre ++ post.
Proof.
  induction pre as [|c pre IH]; intros Hfirst.
  - exact (remove_first_prefix pat post).
  - cbn [app remove_first]. rewrite bool_decide_eq_false_2.
    + f_equal. apply IH. intros i Hi.
      apply (Hfirst (S i)). simpl. lia.
    + intros Heq. apply has_prefix_take in Heq.
      specialize (Hfirst 0%nat). cbn [drop app length] in Hfirst.
      rewrite Hfirst in Heq by lia. discriminate Heq.
Qed.

Definition file_value (P : gmap string field) : value :=
  match P !! "file" with
  | Some (FVal v) => v
  | _ => VUndef
  end.

(** X8. A normalized suite keeps the runner's file name in [fullFile] and
    stores in [file] the name without the first occurrence of the working
    directory, wherever in the name it is; what follows it, further
    occurrences included, stays. So a name that starts with the working
    directory loses that prefix, a name in which the working directory
    does not occur is unchanged, and an unset or empty name gives the
    empty string in both fields. *)
Theorem cleanSuite_file :
  forall (E : Ext) (config : Config) (P : gmap string field)
         (kids : list suite) (w : World),
    runner_props P = true ->
    exists s' w',
      cleanSuite E config (Suite P kids) w = Ok (s', w')
      /\ (truthy (file_value P) = false ->
          get_val s' "fullFile" = VStr [] /\ get_val s' "file" = VStr [])
      /\ (forall pre post,
            file_value P = VStr (pre ++ cwd E ++ post) ->
            pre ++ cwd E ++ post <> [] ->
            (forall i, (i < length pre)%nat ->
               has_prefix (cwd E) (drop i (pre ++ cwd E ++ post)) = false) ->
            get_val s' "fullFile" = VStr (pre ++ cwd E ++ post)
            /\ get_val s' "file" = VStr (pre ++ post))
      /\ (forall rest,
            file_value P = VStr (cwd E ++ rest) -> cwd E ++ rest <> [] ->
            get_val s' "fullFile" = VStr (cwd E ++ rest)
            /\ get_val s' "file" = VStr rest)
      /\ (forall f,
            file_value P = VStr f -> f <> [] ->
            contains (cwd E) f = false ->
            get_val s' "fullFile" = VStr f /\ get_val s' "file" = VStr f).
Proof.
  intros E config P kids w HP.
  destruct (cleanSuite_run E config P kids w HP)
    as (fv & fv' & Hfile & Hstrip & Hrun).
  cbv zeta in Hrun. eexists _, _. split; [exact Hrun|].
  read_derived.
  assert (file_value P = fv) as Hfv.
  { unfold file_value. destruct (P !! "file") as [[]|];
      simpl in Hfile; congruence. }
  rewrite Hfv. unfold strip_cwd in Hstrip. unfold js_or.
  split; [|split; [|split]].
  - intros Hfalse. rewrite Hfalse in *. injection Hstrip as <-. auto.
  - intros pre post -> Hne Hfirst.
    assert (truthy (VStr (pre ++ cwd E ++ post)) = true) as Ht.
    { cbn [truthy]. destruct (pre ++ cwd E ++ post); congruence. }
    rewrite Ht in *. injection Hstrip as <-.
    rewrite (remove_first_at _ _ _ Hfirst). auto.
  - intros rest -> Hne.
    assert (truthy (VStr (cwd E ++ rest)) = true) as Ht.
    { cbn [truthy]. destruct (cwd E ++ rest); congruence. }
    rewrite Ht in *. injection Hstrip as <-.
    rewrite remove_first_prefix. auto.
  - intros f -> Hne Habs.
    assert (truthy (VStr f) = true) as Ht.
    { cbn [truthy]. destruct f; congruence. }
    rewrite Ht in *. injection Hstrip as <-.
    rewrite (remove_first_absent _ _ Habs). auto.
Qed.

Lemma cleanSuite_file_witness :
  exists s' w',
    cleanSuite Sample.ext Sample.config
      (Suite (<["file" := FVal (VStr (js "/x/work/y/work.js"))]>
                (props Sample.child)) []) Sample.world0
    = Ok (s', w')
    /\ get_val s' "fullFile" = VStr (js "/x/work/y/work.js")
    /\ get_val s' "file" = VStr (js "/x/y/work.js").
Proof.
  destruct (cleanSuite_file Sample.ext Sample.config
              (<["file" := FVal (VStr (js "/x/work/y/work.js"))]>
                 (props Sample.child)) [] Sample.world0)
    as (s' & w' & Hrun & _ & Hat & _); [vm_compute; reflexivity|].
  exists s', w'. split; [exact Hrun|].
  apply (Hat (js "/x") (js "/y/work.js"));
    [vm_compute; reflexivity|discriminate|].
  intros i Hi. change (length (js "/x")) with 2%nat in Hi.
  destruct i as [|[|i]]; [vm_compute; reflexivity|vm_compute; reflexivity
                         |lia].
Defined.

(** ** cleanSuite: the identifiers drawn *)

(** The tests that carry no truthy uuid, and the uuids their normalized
    records were given. *)
Definition lacks_uuid (t : RawTest) : bool := negb (truthy (t_uuid t)).

Definition fresh_count (ts : list RawTest) : nat :=
  length (List.filter lacks_uuid ts).

Fixpoint fresh_uuids (ts : list RawTest) (cs : list CleanTest)
    : list value :=
  match ts, cs with
  | t :: ts', c :: cs' =>
      if lacks_uuid t then c_uuid c :: fresh_uuids ts' cs'
      else fresh_uuids ts' cs'
  | _, _ => []
  end.

Definition ids (E : Ext) (n k : nat) : list value :=
  map (fun i => VStr (v4 E i)) (seq n k).

Lemma fresh_count_app (a b : list RawTest) :
  fresh_count (a ++ b) = (fresh_count a + fresh_count b)%nat.
Proof. unfold fresh_count. rewrite List.filter_app, length_app. reflexivity. Qed.

Lemma fresh_uuids_app (a b : list RawTest) (ca cb : list CleanTest) :
  length a = length ca ->
  fresh_uuids (a ++ b) (ca ++ cb) = fresh_uuids a ca ++ fresh_uuids b cb.
Proof.
  revert ca. induction a as [|t a IH]; intros [|c ca] Hlen;
    try discriminate; [reflexivity|].
  injection Hlen as Hlen. cbn [app fresh_uuids].
  rewrite (IH ca Hlen). destruct (lacks_uuid t); reflexivity.
Qed.

Lemma ids_app (E : Ext) (n a b : nat) :
  ids E n (a + b) = ids E n a ++ ids E (n + a) b.
Proof. unfold ids. rewrite seq_app, map_app. reflexivity. Qed.

Lemma clean_each_fresh (E : Ext) (config : Config) (owner : value * value)
    (ts : list RawTest) (n : nat) :
  (clean_each E config owner ts n).2 = (n + fresh_count ts)%nat
  /\ fresh_uuids ts (clean_each E config owner ts n).1
     = ids E n (fresh_count ts).
Proof.
  revert n. induction ts as [|t ts IH]; intros n.
  - cbn. split; [lia|reflexivity].
  - cbn [clean_each].
    destruct (cleanTest_uuid E config owner t n) as [Hu Hn].
    destruct (cleanTest E config owner t n) as [[c t'] n1].
    cbn [fst snd] in Hu, Hn.
    destruct (IH n1) as [IH1 IH2].
    destruct (clean_each E config owner ts n1) as [cs n2].
    cbn [fst snd] in *. unfold fresh_count in *.
    cbn [List.filter fresh_uuids].
    replace (lacks_uuid t) with (negb (truthy (t_uuid t))) by reflexivity.
    destruct (truthy (t_uuid t)); cbn [negb length]; subst n1.
    + split; [exact IH1|exact IH2].
    + split; [lia|]. unfold ids in *. cbn [seq map].
      rewrite Hu, IH2. reflexivity.
Qed.

Lemma ids_NoDup (E : Ext) (n k : nat) :
  (forall i j, v4 E i = v4 E j -> i = j) -> NoDup (ids E n k).
Proof.
  intros Hinj. unfold ids.
  assert (Inj eq eq (fun i => VStr (v4 E i))) as Hi.
  { intros i j [= H]. auto. }
  apply (NoDup_fmap_2 _), NoDup_seq.
Qed.

(** X9. One call of [cleanSuite] draws an identifier for the suite and
    then one for each hook and test that carries no uuid, in the order
    before-hooks, after-hooks, tests: the identifiers handed out are
    consecutive draws of the generator, their number is one plus the number
    of such hooks and tests, and they are pairwise distinct when the
    generator never repeats itself. *)
Theorem cleanSuite_identifiers :
  forall (E : Ext) (config : Config) (P : gmap string field)
         (kids : list suite) (w : World),
    runner_props P = true ->
    exists s' w',
      cleanSuite E config (Suite P kids) w = Ok (s', w')
      /\ let raw := (raw_tests P "_beforeAll" ++ raw_tests P "_beforeEach")
                    ++ (raw_tests P "_afterAll" ++ raw_tests P "_afterEach")
                    ++ raw_tests P "tests" in
         let clean := get_tests s' "beforeHooks"
                      ++ get_tests s' "afterHooks" ++ get_tests s' "tests" in
         let given := get_val s' "uuid" :: fresh_uuids raw clean in
         uuids w' = S (uuids w + fresh_count raw)
         /\ given = ids E (uuids w) (S (fresh_count raw))
         /\ ((forall i j, v4 E i = v4 E j -> i = j) -> NoDup given).
Proof.
  intros E config P kids w HP.
  destruct (cleanSuite_run E config P kids w HP)
    as (fv & fv' & _ & _ & Hrun).
  cbv zeta in Hrun. eexists _, _. split; [exact Hrun|].
  read_derived. cbv zeta. cbn [uuids].
  set (owner := (root_value P, VStr (v4 E (uuids w)))).
  set (bh := raw_tests P "_beforeAll" ++ raw_tests P "_beforeEach").
  set (ah := raw_tests P "_afterAll" ++ raw_tests P "_afterEach").
  set (ts := raw_tests P "tests").
  destruct (clean_each_fresh E config owner bh (S (uuids w))) as [Hn1 Hf1].
  pose proof (clean_each_length E config owner bh (S (uuids w))) as Hl1.
  set (r1 := clean_each E config owner bh (S (uuids w))) in *.
  destruct (clean_each_fresh E config owner ah r1.2) as [Hn2 Hf2].
  pose proof (clean_each_length E config owner ah r1.2) as Hl2.
  set (r2 := clean_each E config owner ah r1.2) in *.
  destruct (clean_each_fresh E config owner ts r2.2) as [Hn3 Hf3].
  set (r3 := clean_each E config owner ts r2.2) in *.
  assert (VStr (v4 E (uuids w)) :: fresh_uuids (bh ++ ah ++ ts)
                                     (r1.1 ++ r2.1 ++ r3.1)
          = ids E (uuids w) (S (fresh_count (bh ++ ah ++ ts)))) as Hgiven.
  { rewrite !fresh_uuids_app by (symmetry; assumption).
    rewrite Hf1, Hf2, Hf3, !fresh_count_app.
    change (S (fresh_count bh + (fresh_count ah + fresh_count ts)))
      with (1 + (fresh_count bh + (fresh_count ah + fresh_count ts)))%nat.
    rewrite !ids_app. rewrite Hn2, Hn1.
    replace (uuids w + 1)%nat with (S (uuids w)) by lia.
    reflexivity. }
  split; [|split].
  - rewrite Hn3, Hn2, Hn1, !fresh_count_app. lia.
  - exact Hgiven.
  - intros Hinj. rewrite Hgiven. apply ids_NoDup, Hinj.
Qed.

Lemma cleanSuite_identifiers_witness :
  exists s' w',
    cleanSuite Sample.ext Sample.config Sample.child Sample.world0
    = Ok (s', w')
    /\ uuids w' = 3%nat.
Proof.
  destruct (cleanSuite_identifiers Sample.ext Sample.config
              (props Sample.child) [] Sample.world0)
    as (s' & w' & Hrun & Hn & _); [vm_compute; reflexivity|].
  exists s', w'. split; [exact Hrun|]. exact Hn.
Defined.

(** ** cleanCode: the shape of its result *)

Lemma replace_from_length (r : regex) (rep : option jsstring -> jsstring) :
  (forall prev s pre e,
     search r prev s = Some (pre, e) ->
     (length pre + length (rep (m_cap e)) + length (m_rest e)
      <= length s)%nat) ->
  forall fuel prev s,
    (length (replace_from fuel r rep prev s) <= length s)%nat.
Proof.
  intros Hrep fuel. induction fuel as [|fuel IH]; intros prev s;
    cbn [replace_from]; [lia|].
  destruct (search r prev s) as [[pre e]|] eqn:Hs; [|lia].
  apply Hrep in Hs. cbv zeta.
  destruct (_ <? _)%nat.
  - rewrite !length_app. specialize (IH (m_prev e) (m_rest e)). lia.
  - destruct (m_rest e) as [|c t].
    + rewrite length_app. simpl in Hs. lia.
    + rewrite !length_app. cbn [length] in *.
      specialize (IH (Some c) t). lia.
Qed.

Lemma drop_match_shrinks (r : regex) (prev : option N) (s pre : jsstring)
    (e : mstate) :
  search r prev s = Some (pre, e) ->
  (length pre + length (drop_match (m_cap e)) + length (m_rest e)
   <= length s)%nat.
Proof.
  intros Hs. apply search_split in Hs as [m ->].
  rewrite !length_app. cbn [drop_match length]. lia.
Qed.

Lemma replace1_length (r : regex) (s : jsstring) :
  (length (replace1 r drop_match s) <= length s)%nat.
Proof.
  unfold replace1. destruct (search r None s) as [[pre e]|] eqn:Hs; [|lia].
  apply drop_match_shrinks in Hs. rewrite !length_app. lia.
Qed.

Lemma newline_shrinks (prev : option N) (s pre : jsstring) (e : mstate) :
  search re_newlines prev s = Some (pre, e) ->
  (length pre + length [10%N] + length (m_rest e) <= length s)%nat.
Proof.
  revert prev pre e. induction s as [|c t IH]; intros prev pre e H.
  - cbn in H. discriminate H.
  - cbn [search] in H.
    destruct (rmatch re_newlines (MState prev (c :: t) None) Some)
      as [e0|] eqn:Hm.
    + injection H as <- <-. rewrite rmatch_newlines in Hm.
      cbn [length]. destruct (N.eqb 13 c).
      * destruct t as [|c' t'].
        -- injection Hm as <-. cbn [length m_rest]. lia.
        -- destruct (N.eqb 10 c'); injection Hm as <-;
             cbn [length m_rest]; lia.
      * destruct (_ || _)%N; [|discriminate Hm].
        injection Hm as <-. cbn [length m_rest]. lia.
    + destruct (search re_newlines (Some c) t) as [[pre' e']|] eqn:Hs;
        [|discriminate H].
      injection H as <- <-. specialize (IH _ _ _ Hs).
      cbn [length] in *. lia.
Qed.

Lemma cleanCode_length (x : jsstring) :
  (length (cleanCode x) <= length x)%nat.
Proof.
  unfold cleanCode. cbv zeta. unfold replace_all.
  etrans; [apply replace_from_length; intros; eapply drop_match_shrinks;
           eassumption|].
  etrans; [apply replace_from_length; intros; eapply drop_match_shrinks;
           eassumption|].
  do 3 (etrans; [apply replace1_length|]).
  apply replace_from_length. intros prev s pre e. apply newline_shrinks.
Qed.

(** X10. The cleaned code never starts or ends with a white-space
    character, every line terminator left in it is a newline, and it is
    never longer than the text it was made from. *)
Theorem cleanCode_shape :
  forall x : jsstring,
    starts_clean (cleanCode x) = true
    /\ ends_plain (cleanCode x) = true
    /\ Forall (fun c => is_lt c = true -> c = 10%N) (cleanCode x)
    /\ (length (cleanCode x) <= length x)%nat.
Proof.
  intros x. destruct (cleanCode_trimmed x) as [Hs He].
  split; [exact Hs|]. split; [exact He|]. split; [|apply cleanCode_length].
  pose proof (cleanCode_lt_only x) as Hlt. apply lt_only_Forall in Hlt.
  eapply Forall_impl; [exact Hlt|].
  intros c Hc Hl. unfold nl_or_plain in Hc. rewrite Hl in Hc.
  cbn [negb orb] in Hc. by apply N.eqb_eq.
Qed.

Lemma replace_from_keeps (P : N -> Prop) (r : regex)
    (rep : option jsstring -> jsstring) :
  (forall cap, Forall P (rep cap)) ->
  forall fuel prev s,
    Forall P s -> Forall P (replace_from fuel r rep prev s).
Proof.
  intros Hrep fuel. induction fuel as [|fuel IH]; intros prev s H;
    cbn [replace_from]; [exact H|].
  destruct (search r prev s) as [[pre e]|] eqn:Hs; [|exact H].
  apply search_split in Hs as [m ->].
  rewrite !Forall_app in H. destruct H as (Hpre & _ & Hrest).
  cbv zeta. destruct (_ <? _)%nat.
  - rewrite !Forall_app. auto.
  - destruct (m_rest e) as [|c t]; [rewrite Forall_app; auto|].
    rewrite !Forall_app. apply Forall_cons in Hrest as [Hc Ht].
    split; [exact Hpre|]. split; [apply Hrep|].
    constructor; [exact Hc|]. apply IH, Ht.
Qed.

(** X11. A text made of white space only (blanks, tabs, line ends, a byte
    order mark) is cleaned to the empty text. *)
Theorem cleanCode_blank :
  forall x : jsstring, forallb is_ws x = true -> cleanCode x = [].
Proof.
  intros x Hx.
  assert (Forall (fun c => is_ws c = true) x) as Hws.
  { apply Forall_forall. intros c Hc.
    apply (proj1 (forallb_forall _ _) Hx), list_elem_of_In, Hc. }
  assert (Forall (fun c => is_ws c = true) (cleanCode x)) as Hall.
  { unfold cleanCode. cbv zeta.
    unfold replace_all at 1. apply replace_from_Forall.
    unfold replace_all at 1. apply replace_from_Forall.
    do 3 apply replace1_Forall.
    unfold replace_all. apply replace_from_keeps; [|exact Hws].
    intros _. constructor; [reflexivity|constructor]. }
  destruct (cleanCode_trimmed x) as [Hs _].
  destruct (cleanCode x) as [|c t]; [reflexivity|].
  apply Forall_cons in Hall as [Hc _]. cbn [starts_clean] in Hs.
  rewrite Hc in Hs. discriminate Hs.
Qed.

Lemma cleanCode_blank_witness :
  cleanCode [65279; 32; 13; 10; 9; 32; 10]%N = [].
Proof. apply cleanCode_blank. vm_compute. reflexivity. Defined.

(** ** createUnifiedDiff without regular expressions *)

(** A line of the patch that is kept: it contains neither [@@] nor the
    marker [\ No newline]. *)
Definition keep_line (line : jsstring) : bool :=
  negb (contains (js "@@") line)
  && negb (contains (92%N :: js " No newline") line).

Lemma diff_line_keep (line : jsstring) :
  diff_line line = if keep_line line then Some (mark line) else None.
Proof.
  unfold diff_line, keep_line, re_hunk, re_nonl. rewrite !matches_Lit.
  destruct (contains (js "@@") line); [reflexivity|].
  destruct (contains (92%N :: js " No newline") line); [reflexivity|].
  rewrite replace1_marker. reflexivity.
Qed.

Lemma omap_diff_line (ls : list jsstring) :
  omap diff_line ls = map mark (List.filter keep_line ls).
Proof.
  induction ls as [|l ls IH]; [reflexivity|].
  cbn [omap list_omap List.filter]. fold (omap diff_line ls).
  rewrite diff_line_keep, IH. destruct (keep_line l); reflexivity.
Qed.

(** X12. The unified diff is the patch text without its first four lines
    and without the lines that contain [@@] or [\ No newline], each
    remaining line with a space put after a leading [-] or [+], joined by
    newlines. In particular a patch of at most four lines gives the empty
    text, and the diff has no more lines than the patch has after its
    header. *)
Theorem createUnifiedDiff_lines :
  forall (E : Ext) (actual expected : jsstring),
    let patch := split_nl (createPatch E (js "string") actual expected) in
    createUnifiedDiff E actual expected
    = join_nl (map mark (List.filter keep_line (drop 4 patch)))
    /\ ((length patch <= 4)%nat -> createUnifiedDiff E actual expected = [])
    /\ (length (unified_lines E actual expected) <= length patch - 4)%nat.
Proof.
  intros E actual expected patch. subst patch.
  unfold createUnifiedDiff, unified_lines. rewrite omap_diff_line.
  split; [reflexivity|]. split.
  - intros Hlen. rewrite drop_ge by exact Hlen. reflexivity.
  - rewrite length_map.
    etrans; [apply List.filter_length_le|]. rewrite length_drop. lia.
Qed.

Lemma createUnifiedDiff_lines_witness :
  createUnifiedDiff Sample.ext (js "foo") (js "bar")
  = js "- foo" ++ Sample.nl ++ js "+ bar" ++ Sample.nl.
Proof.
  rewrite (proj1 (createUnifiedDiff_lines Sample.ext (js "foo") (js "bar"))).
  vm_compute. reflexivity.
Defined.

(** ** normalizeErr: the message *)

(** The text up to the first newline. *)
Fixpoint first_line (s : jsstring) : jsstring :=
  match s with
  | [] => []
  | c :: t => if N.eqb c 10 then [] else c :: first_line t
  end.

Fixpoint drop_line (s : jsstring) : jsstring :=
  match s with
  | c :: t => if negb (is_lt c) then drop_line t else s
  | [] => []
  end.

Lemma drop_line_length (s : jsstring) :
  (length (drop_line s) <= length s)%nat.
Proof.
  induction s as [|c t IH]; simpl; [lia|].
  destruct (is_lt c); simpl; lia.
Qed.

Lemma drop_line_lt_only (s : jsstring) :
  lt_only s = true ->
  lt_only (drop_line s) = true /\ first_line (drop_line s) = [].
Proof.
  induction s as [|c t IH]; [auto|].
  intros H. pose proof H as Hall. cbn [lt_only forallb] in H.
  apply andb_true_iff in H as [Hc Ht]. cbn [drop_line].
  destruct (is_lt c) eqn:Hl; cbn [negb].
  - split; [exact Hall|]. cbn [negb orb] in Hc.
    cbn [first_line]. rewrite Hc. reflexivity.
  - apply IH, Ht.
Qed.

Lemma star_dot_greedy (t : jsstring) :
  forall (n : nat) (pv : N) (cap : option jsstring),
    (length t <= n)%nat ->
    exists x,
      star_loop (rmatch Dot) Some n (MState (Some pv) t cap)
      = Some (MState (Some x) (drop_line t) cap).
Proof.
  induction t as [|c t IH]; intros n pv cap Hn.
  - exists pv. destruct n; reflexivity.
  - destruct n as [|n]; [simpl in Hn; lia|]. simpl in Hn.
    cbn [star_loop]. unfold Dot at 1. rewrite rmatch_chr.
    cbn [m_rest m_cap drop_line length].
    destruct (negb (is_lt c)); [|exists pv; reflexivity].
    assert ((length t <? S (length t))%nat = true) as ->
      by (apply Nat.ltb_lt; lia).
    destruct (IH n c cap) as [x Hx]; [lia|].
    fold Dot. rewrite Hx. exists x. reflexivity.
Qed.

Lemma first_line_from (n : nat) :
  forall (s : jsstring) (fuel : nat) (prev : option N),
    (length s <= n)%nat -> (length s < fuel)%nat -> lt_only s = true ->
    replace_from fuel re_after_first_line drop_match prev s = first_line s.
Proof.
  induction n as [|n IH]; intros s fuel prev Hn Hfuel Hlt;
    (destruct fuel as [|fuel]; [lia|]);
    (destruct s as [|c t]; [reflexivity|]); simpl in Hn, Hfuel; [lia|].
  pose proof Hlt as Hall. cbn [lt_only forallb] in Hlt.
  apply andb_true_iff in Hlt as [Hc Ht]. fold (lt_only t) in Ht.
  cbn [first_line]. destruct (N.eqb c 10) eqn:H10.
  - apply N.eqb_eq in H10. subst c.
    destruct (star_dot_greedy t (length t) 10%N None (le_n _)) as [x Hx].
    cbn [replace_from search].
    assert (rmatch re_after_first_line (MState prev (10%N :: t) None) Some
            = Some (MState (Some x) (drop_line t) None)) as ->.
    { unfold re_after_first_line, Is. cbn [rmatch m_rest m_cap].
      cbn [N.eqb Pos.eqb]. exact Hx. }
    cbn [length drop m_rest m_prev m_cap drop_match app].
    pose proof (drop_line_length t) as Hd.
    assert ((length (drop_line t) <? S (length t))%nat = true) as ->
      by (apply Nat.ltb_lt; lia).
    destruct (drop_line_lt_only t Ht) as [Hlt' Hfirst].
    rewrite IH; [exact Hfirst|lia|lia|exact Hlt'].
  - rewrite replace_from_skip.
    + f_equal. apply IH; [lia|lia|exact Ht].
    + unfold re_after_first_line, Is. cbn [rmatch m_rest].
      rewrite N.eqb_sym, H10. reflexivity.
Qed.

Lemma first_line_split (s : jsstring) : hd [] (split_nl s) = first_line s.
Proof.
  induction s as [|c t IH]; [reflexivity|].
  cbn [split_nl first_line]. destruct (N.eqb c 10); [reflexivity|].
  destruct (split_nl t) as [|l ls]; cbn [hd] in *; congruence.
Qed.

(** X13. The message of a normalized error is [name: message], with the
    message stripped of its colour codes, when the error has both; else,
    when it has a stack whose only line terminators are newlines, the first
    line of the stack; and it is undefined when the error has neither. *)
Theorem normalizeErr_message :
  forall (E : Ext) (config : Config) (err : RawErr),
    let r := (normalizeErr E config err).1 in
    (forall nm msg,
       e_name err = Some nm -> e_message err = Some msg ->
       nm <> [] -> msg <> [] ->
       n_message r = Some (nm ++ js ": " ++ stripAnsi E msg))
    /\ (forall stack,
          str_truthy (e_name err) && str_truthy (e_message err) = false ->
          e_stack err = Some stack -> stack <> [] ->
          lt_only stack = true ->
          n_message r = Some (hd [] (split_nl stack)))
    /\ (str_truthy (e_name err) && str_truthy (e_message err) = false ->
        str_truthy (e_stack err) = false -> n_message r = None).
Proof.
  intros E config err r. subst r. unfold normalizeErr.
  destruct (if wants_diff err then _ else _) as [d err'].
  cbn [fst n_message]. split; [|split].
  - intros nm msg -> -> Hn Hm.
    destruct nm; [congruence|]. destruct msg; [congruence|]. reflexivity.
  - intros stack -> -> Hne Hlt.
    destruct stack as [|c t]; [congruence|].
    cbn [str_truthy]. change (default [] (Some (c :: t))) with (c :: t).
    f_equal. rewrite first_line_split. unfold replace_all.
    apply (first_line_from (length (c :: t))); [lia|lia|exact Hlt].
  - intros -> ->. reflexivity.
Qed.

Lemma normalizeErr_message_witness :
  n_message
    (normalizeErr Sample.ext Sample.config
       {| e_name := None; e_message := None; e_actual := VUndef;
          e_expected := VUndef;
          e_stack := Some (js "Error: x" ++ [10%N] ++ js "  at f (a.js:1)"
                             ++ [10%N] ++ js "  at g (b.js:2)");
          e_showDiff := VUndef |}).1
  = Some (js "Error: x").
Proof.
  etrans.
  - refine (proj1 (proj2 (normalizeErr_message Sample.ext Sample.config _))
              _ _ _ _ _); [reflexivity|reflexivity|discriminate|].
    vm_compute. reflexivity.
  - vm_compute. reflexivity.
Defined.

(** ** normalizeErr: a second call *)

Lemma format_err_strings (E : Ext) (err : RawErr) :
  wants_diff err = true ->
  wants_diff (format_err E err) = true
  /\ format_err E (format_err E err) = format_err E err
  /\ e_name (format_err E err) = e_name err
  /\ e_message (format_err E err) = e_message err
  /\ e_stack (format_err E err) = e_stack err.
Proof.
  unfold wants_diff, format_err, sameType.
  destruct err as [nm msg a e st sd]. cbn [e_actual e_expected e_showDiff].
  destruct sd as [| |[|]| | | | | |], a, e; cbn; intros H;
    try discriminate H; auto 10.
Qed.

Lemma normalizeErr_again (E : Ext) (config : Config) (err : RawErr) :
  normalizeErr E config (normalizeErr E config err).2
  = normalizeErr E config err.
Proof.
  rewrite normalizeErr_effect.
  destruct (wants_diff err) eqn:Hw; [|reflexivity].
  destruct (format_err_strings E err Hw) as (Hw2 & Hf & Hn & Hm & Hs).
  unfold normalizeErr. rewrite Hw, Hw2, Hf, Hn, Hm, Hs. reflexivity.
Qed.

(** X14. Normalizing an error a second time, after the first call has
    possibly overwritten [actual] and [expected], returns the same record
    and leaves the error object as the first call left it. *)
Theorem normalizeErr_twice :
  forall (E : Ext) (config : Config) (err : RawErr),
    normalizeErr E config (normalizeErr E config err).2
    = normalizeErr E config err.
Proof.
  intros E config err. rewrite normalizeErr_effect.
  destruct (wants_diff err) eqn:Hw; [|reflexivity].
  destruct (format_err_strings E err Hw) as (Hw2 & Hf & Hn & Hm & Hs).
  unfold normalizeErr. rewrite Hw, Hw2, Hf, Hn, Hm, Hs. reflexivity.
Qed.

(** ** cleanTest: the code and a second call *)

Definition with_uuid (t : RawTest) (u : value) : RawTest :=
  {| t_title := t_title t; t_fullTitle := t_fullTitle t;
     t_timedOut := t_timedOut t; t_duration := t_duration t;
     t_state := t_state t; t_speed := t_speed t;
     t_pending := t_pending t; t_context := t_context t;
     t_fn := t_fn t; t_body := t_body t; t_err := t_err t;
     t_parent := t_parent t; t_uuid := u; t_type := t_type t |}.

(** [test.fn ? test.fn.toString() : test.body]. *)
Definition source_of (t : RawTest) : option jsstring :=
  match t_fn t with
  | Some src => Some src
  | None => t_body t
  end.

Lemma cleanTest_code_eq (E : Ext) (config : Config) (owner : value * value)
    (t : RawTest) (n : nat) :
  c_code (cleanTest E config owner t n).1.1
  = match source_of t with
    | Some ((_ :: _) as src) => Some (cleanCode src)
    | other => other
    end.
Proof.
  unfold cleanTest, source_of.
  destruct (t_err t) as [e|]; [destruct (normalizeErr E config e)|];
    destruct (truthy (t_uuid t)); cbn [fst c_code];
    destruct (t_fn t) as [[|]|]; try reflexivity;
    destruct (t_body t) as [[|]|]; reflexivity.
Qed.

(** X15. The code of a normalized test is taken from [test.fn] when the
    test has one and from [test.body] otherwise; it is absent exactly when
    that source is, and when present it is the cleaned source: without
    white space at either end, with newlines as its only line terminators,
    and no longer than the source. *)
Theorem cleanTest_code :
  forall (E : Ext) (config : Config) (owner : value * value)
         (t : RawTest) (n : nat),
    let c := (cleanTest E config owner t n).1.1 in
    (forall src, t_fn t = Some src -> source_of t = Some src)
    /\ (t_fn t = None -> source_of t = t_body t)
    /\ (c_code c = None <-> source_of t = None)
    /\ (forall out,
          c_code c = Some out ->
          exists src,
            source_of t = Some src
            /\ (src <> [] -> out = cleanCode src)
            /\ starts_clean out = true /\ ends_plain out = true
            /\ lt_only out = true
            /\ (length out <= length src)%nat).
Proof.
  intros E config owner t n c. subst c. rewrite cleanTest_code_eq.
  split; [|split; [|split]].
  - unfold source_of. intros src ->. reflexivity.
  - unfold source_of. intros ->. reflexivity.
  - destruct (source_of t) as [[|ch src]|]; split; congruence.
  - intros out Hout. destruct (source_of t) as [[|ch src]|];
      [| |discriminate Hout]; injection Hout as <-.
    + exists []. split; [reflexivity|]. split; [congruence|].
      repeat split; reflexivity.
    + exists (ch :: src). split; [reflexivity|]. split; [reflexivity|].
      destruct (cleanCode_trimmed (ch :: src)) as [Hs He].
      split; [exact Hs|]. split; [exact He|].
      split; [apply cleanCode_lt_only|apply cleanCode_length].
Qed.

Lemma cleanTest_code_witness :
  c_code (cleanTest Sample.ext Sample.config (VUndef, VUndef)
            Sample.passed 0).1.1
  = Some (js "check();").
Proof.
  destruct (cleanTest_code Sample.ext Sample.config (VUndef, VUndef)
              Sample.passed 0) as (_ & _ & _ & H).
  destruct (c_code (cleanTest Sample.ext Sample.config (VUndef, VUndef)
                      Sample.passed 0).1.1) as [out|] eqn:Hc;
    [|vm_compute in Hc; discriminate Hc].
  destruct (H out eq_refl) as (src & Hsrc & Hout & _).
  vm_compute in Hsrc. injection Hsrc as <-.
  rewrite Hout by discriminate. vm_compute. reflexivity.
Defined.

Lemma cleanTest_with_err (E : Ext) (config : Config) (owner : value * value)
    (t : RawTest) (n n' : nat) :
  let r := cleanTest E config owner t n in
  cleanTest E config owner r.1.2 n'
  = (let r' := cleanTest E config owner t n' in (r'.1.1, r.1.2, r'.2)).
Proof.
  cbv zeta. rewrite cleanTest_effect. unfold cleanTest, with_err.
  cbn [t_title t_fullTitle t_timedOut t_duration t_state t_speed t_pending
       t_context t_fn t_body t_err t_parent t_uuid t_type].
  destruct (t_err t) as [e|]; cbn [option_map].
  - pose proof (normalizeErr_again E config e) as Hagain.
    destruct (normalizeErr E config e) as [ne e1] eqn:He.
    cbn [snd] in *. rewrite Hagain.
    destruct (truthy (t_uuid t)); reflexivity.
  - destruct (truthy (t_uuid t)); reflexivity.
Qed.

(** X16. Normalizing a test a second time leaves the raw test as the first
    call left it; the record returned is the one a first call at the same
    point would return, so for a test that carries a uuid the two records
    are equal and no identifier is drawn. *)
Theorem cleanTest_twice :
  forall (E : Ext) (config : Config) (owner : value * value)
         (t : RawTest) (n n' : nat),
    let r := cleanTest E config owner t n in
    let r2 := cleanTest E config owner r.1.2 n' in
    r2.1.2 = r.1.2
    /\ r2.1.1 = (cleanTest E config owner t n').1.1
    /\ (truthy (t_uuid t) = true -> r2 = (r.1.1, r.1.2, n')).
Proof.
  intros E config owner t n n' r r2. subst r r2.
  rewrite cleanTest_with_err. cbv zeta. cbn [fst snd].
  split; [reflexivity|]. split; [reflexivity|].
  intros Hu. unfold cleanTest. rewrite Hu.
  destruct (t_err t) as [e|]; [destruct (normalizeErr E config e)|];
    reflexivity.
Qed.

Lemma cleanTest_twice_witness :
  let t := with_uuid Sample.failed (VStr (js "id-7")) in
  let r := cleanTest Sample.ext Sample.config (VUndef, VUndef) t 0 in
  cleanTest Sample.ext Sample.config (VUndef, VUndef) r.1.2 5
  = (r.1.1, r.1.2, 5%nat).
Proof.
  cbv zeta.
  apply (cleanTest_twice Sample.ext Sample.config (VUndef, VUndef)
           (with_uuid Sample.failed (VStr (js "id-7"))) 0 5).
  reflexivity.
Defined.

(** ** traverseSuites: the whole tree *)

Lemma Ok_suite (a a' : suite) (b b' : World) :
  Ok (a, b) = Ok (a', b') -> a' = a.
Proof. congruence. Qed.

Lemma cleaned_allowed (E : Ext) (config : Config) (c c' : suite) :
  cleaned E config c c' ->
  (forall k, is_Some (props c' !! k) -> k ∈ allow_list)
  /\ get_val c' "totalTests" = VNum (Z.of_nat (tests_length c)).
Proof.
  intros (w1 & w2 & c1 & Hrun & Hprops). destruct c as [P kids].
  pose proof (cleanSuite_Ok_inv E config P kids w1 c1 w2 Hrun) as HP.
  destruct (cleanSuite_run E config P kids w1 HP)
    as (fv & fv' & _ & _ & Hrun').
  cbv zeta in Hrun'.
  pose proof (Ok_suite _ _ _ _ (eq_trans (eq_sym Hrun') Hrun)) as Hc1.
  clear Hrun Hrun'. rewrite Hc1 in Hprops. clear Hc1. split.
  - intros k. rewrite Hprops. cbn [props]. rewrite lookup_removeAll.
    destruct (bool_decide_reflect (k ∈ allow_list)) as [Hk|Hk];
      [auto|]. intros [f Hf]. discriminate Hf.
  - unfold get_val. rewrite Hprops. cbn [props].
    erewrite derived_lookup by in_derived.
    unfold fnum. rewrite clean_each_length.
    unfold tests_length, raw_tests. cbn [props].
    unfold runner_props in HP. rewrite !andb_true_iff in HP.
    destruct HP as [[[_ Hts] _] _]. apply is_tests_inv in Hts as [l ->].
    reflexivity.
Qed.

(** X17. On a tree whose root is a runner suite flagged [root] and whose
    other suites are runner suites not flagged [root], [traverseSuites]
    normalizes every suite of the tree, the root included, in place: at
    every path of the input the result holds the normalized suite, whose
    own properties are all on the allow-list and whose [totalTests] is the
    number of its direct tests. *)
Theorem traverseSuites_flagged :
  forall (E : Ext) (config : Config) (t : suite) (fuel : nat) (w : World),
    root_flag t = Ok true ->
    runner_props (props t) = true ->
    Forall (fun k => runner_tree k = true) (children t) ->
    (size t <= fuel)%nat ->
    exists t' w',
      traverseSuites E config fuel t w = Ok (t', w')
      /\ forall q c, sub t q = Some c ->
           exists c',
             sub t' q = Some c'
             /\ cleaned E config c c'
             /\ (forall k, is_Some (props c' !! k) -> k ∈ allow_list)
             /\ get_val c' "totalTests" = VNum (Z.of_nat (tests_length c)).
Proof.
  intros E config t fuel w Hflag HP Hkids Hfuel.
  destruct (traverse_loop_ok E config t fuel [] [] t [] w)
    as (t' & w' & Done & Hrun & HT & HD & _).
  - apply tracks_init.
  - exists t. split; [reflexivity|]. split; [exact Hkids|]. right.
    split; [exact Hflag|]. split; [exact HP|].
    intros s Hs. by apply elem_of_nil in Hs.
  - constructor.
  - simpl. split; [constructor|exact I].
  - intros p' s _ Hs. by apply elem_of_nil in Hs.
  - cbn [map sum_list sum_list_with id]. unfold size_at. simpl. lia.
  - exists t', w'. split; [exact Hrun|]. intros q c Hsub.
    destruct (HT q c Hsub) as (c2 & Hc2 & _ & Hin & _).
    exists c2. split; [exact Hc2|].
    assert (cleaned E config c c2) as Hclean.
    { apply Hin, HD. right. split; [exists c; exact Hsub|].
      destruct q as [|i q].
      - right. split; [reflexivity|]. exists t. auto.
      - left. exists []. split; [apply elem_of_cons; auto|].
        exists (i :: q). split; [discriminate|reflexivity]. }
    split; [exact Hclean|]. exact (cleaned_allowed E config c c2 Hclean).
Qed.

Lemma traverseSuites_flagged_witness :
  exists t' w' c',
    traverseSuites Sample.ext Sample.config 2 Sample.tree Sample.world0
    = Ok (t', w')
    /\ sub t' [0%nat] = Some c'
    /\ get_val c' "totalTests" = VNum 2.
Proof.
  destruct (traverseSuites_flagged Sample.ext Sample.config Sample.tree 2
              Sample.world0) as (t' & w' & Hrun & Hall).
  - vm_compute. reflexivity.
  - vm_compute. reflexivity.
  - repeat constructor.
  - vm_compute. lia.
  - destruct (Hall [0%nat] Sample.child eq_refl) as (c' & Hc' & _ & _ & Ht).
    exists t', w', c'. split; [exact Hrun|]. split; [exact Hc'|exact Ht].
Defined.

(** X18. A suite that is not flagged [root] and has no child suites is
    returned as it is: nothing is normalized, no identifier is drawn and
    nothing is counted. *)
Theorem traverseSuites_leaf :
  forall (E : Ext) (config : Config) (t : suite) (fuel : nat) (w : World),
    root_flag t = Ok false -> children t = [] -> (0 < fuel)%nat ->
    traverseSuites E config fuel t w = Ok (t, w).
Proof.
  intros E config t fuel w Hflag Hkids Hfuel.
  destruct fuel as [|fuel]; [lia|].
  unfold traverseSuites. cbn [traverse_loop sub].
  unfold bind, lift, ret. cbn [from_option]. rewrite Hflag.
  cbn [sub from_option]. rewrite Hkids. reflexivity.
Qed.

Lemma traverseSuites_leaf_witness :
  traverseSuites Sample.ext Sample.config 1 Sample.child Sample.world0
  = Ok (Sample.child, Sample.world0).
Proof.
  apply traverseSuites_leaf; [vm_compute; reflexivity|reflexivity|lia].
Defined.

(** ** traverseSuites: a flagged suite below the argument *)

Lemma cleanSuite_then_throws (E : Ext) (config : Config) (s : suite)
    (w : World) :
  runner_props (props s) = true ->
  exists c1 w',
    cleanSuite E config s w = Ok (c1, w')
    /\ children c1 = children s
    /\ root_flag c1 = root_flag s
    /\ forall w2, cleanSuite E config c1 w2 = Fail Throws.
Proof.
  destruct s as [P kids]. cbn [props]. intros HP.
  destruct (cleanSuite_ok E config P kids w HP)
    as (Q & n' & cs & Hrun & _ & Hout & _).
  assert (removeAllPropsFromObjExcept Q allow_list !! "root" = P !! "root")
    as Hroot.
  { rewrite lookup_pruned by (apply in_allow_list; vm_compute; reflexivity).
    apply Hout, root_not_assigned. }
  eexists _, _. split; [exact Hrun|]. split; [reflexivity|]. split.
  - unfold root_flag. cbn [props]. rewrite Hroot. reflexivity.
  - intros w2. apply cleanSuite_no_beforeAll.
    + rewrite Hroot.
      unfold runner_props in HP. rewrite !andb_true_iff in HP. tauto.
    + rewrite lookup_removeAll.
      replace (bool_decide ("_beforeAll" ∈ allow_list)) with false
        by (vm_compute; reflexivity).
      reflexivity.
Qed.

Lemma each_suite_single (E : Ext) (config : Config) (T k k' : suite)
    (queue : list path) (w w' : World) :
  children T = [k] -> cleanSuite E config k w = Ok (k', w') ->
  each_suite E config [] [0%nat] T queue w
  = Ok ((Suite (props T) [k'], queue ++ [[0%nat]]), w').
Proof.
  intros Hkids Hrun. cbn [each_suite app upd_at]. rewrite Hkids.
  change ([k] !! 0%nat) with (Some k). cbn [upd_at].
  unfold bind at 1. unfold bind at 1. rewrite Hrun. reflexivity.
Qed.

Lemma traverse_loop_throws (E : Ext) (config : Config) (fuel : nat)
    (P : gmap string field) (k : suite) (queue : list path) (w : World) :
  root_flag k = Ok true -> cleanSuite E config k w = Fail Throws ->
  traverse_loop E config (S fuel) [0%nat] queue (Suite P [k]) w
  = Fail Throws.
Proof.
  intros Hflag Hthrow. cbn [traverse_loop sub children].
  change ([k] !! 0%nat) with (Some k). cbn [sub from_option].
  unfold bind at 1. unfold lift at 1.
  unfold bind at 1. unfold lift at 1. rewrite Hflag.
  unfold bind at 1. cbn [upd_at children].
  change ([k] !! 0%nat) with (Some k). cbn [upd_at].
  unfold bind at 1. rewrite Hthrow. reflexivity.
Qed.

(** X19. [traverseSuites] throws on a tree whose root has a single child
    suite that is flagged [root]: the child is normalized as a child of the
    root and a second time when it is taken from the queue, and the second
    normalization finds its hook collections deleted. *)
Theorem traverseSuites_nested_root :
  forall (E : Ext) (config : Config) (P : gmap string field) (k : suite)
         (fuel : nat) (w : World) (flag : bool),
    root_flag (Suite P [k]) = Ok flag ->
    (flag = true -> runner_props P = true) ->
    runner_props (props k) = true ->
    root_flag k = Ok true ->
    (2 <= fuel)%nat ->
    traverseSuites E config fuel (Suite P [k]) w = Fail Throws.
Proof.
  intros E config P k fuel w flag Hflag HP Hk Hkflag Hfuel.
  destruct fuel as [|[|fuel]]; [lia|lia|].
  assert (exists T1 w1,
             (if flag then upd_at [] (cleanSuite E config) (Suite P [k])
              else ret (Suite P [k])) w = Ok (T1, w1)
             /\ children T1 = [k]) as (T1 & w1 & Hstep & Hkids).
  { destruct flag.
    - destruct (cleanSuite_then_throws E config (Suite P [k]) w (HP eq_refl))
        as (c1 & w1 & Hrun & Hc & _).
      exists c1, w1. split; [exact Hrun|exact Hc].
    - exists (Suite P [k]), w. split; reflexivity. }
  destruct (cleanSuite_then_throws E config k w1 Hk)
    as (k' & w2 & Hrun & _ & Hf & Hthrow).
  unfold traverseSuites.
  rewrite (traverse_loop_step E config (S fuel) [] [] (Suite P [k])
             (Suite P [k]) T1 T1 w w1 w2 flag
             (Suite (props T1) [k'], [[0%nat]]) eq_refl Hflag Hstep eq_refl).
  - cbn [snd fst]. apply traverse_loop_throws; [|apply Hthrow].
    rewrite Hf. exact Hkflag.
  - rewrite Hkids. cbn [length seq].
    apply (each_suite_single E config T1 k k' [] w1 w2 Hkids Hrun).
Qed.

Lemma traverseSuites_nested_root_witness :
  traverseSuites Sample.ext Sample.config 2
    (Suite (props Sample.child) [Sample.raw_suite true [Sample.failed] []])
    Sample.world0
  = Fail Throws.
Proof.
  apply (traverseSuites_nested_root Sample.ext Sample.config
           (props Sample.child) (Sample.raw_suite true [Sample.failed] [])
           2 Sample.world0 false).
  - vm_compute. reflexivity.
  - discriminate.
  - vm_compute. reflexivity.
  - vm_compute. reflexivity.
  - lia.
Defined.

(** ** getPercentClass (lines 42-50) *)

(** A JavaScript number: not-a-number, an infinity, or a finite value,
    which is a rational. *)
Inductive number : Type :=
| NaN
| PosInf
| NegInf
| Finite (q : QArith_base.Q).

Definition of_int (z : Z) : number := Finite (QArith_base.Qmake z 1).

(** [a <= b] and [a < b] on numbers; both are false when either side is
    not a number. *)
Definition num_le (a b : number) : bool :=
  match a, b with
  | NaN, _ | _, NaN => false
  | NegInf, _ | _, PosInf => true
  | PosInf, _ | _, NegInf => false
  | Finite x, Finite y => QArith_base.Qle_bool x y
  end.

Definition num_lt (a b : number) : bool :=
  match a, b with
  | NaN, _ | _, NaN => false
  | PosInf, _ | _, NegInf => false
  | NegInf, _ | _, PosInf => true
  | Finite x, Finite y => negb (QArith_base.Qle_bool y x)
  end.

Definition getPercentClass (pct : number) : jsstring :=
  if num_le pct (of_int 50) then js "danger"
  else if num_lt (of_int 50) pct && num_lt pct (of_int 80) then js "warning"
  else js "success".

Lemma Qle_bool_int (a b : Z) :
  QArith_base.Qle_bool (QArith_base.Qmake a 1) (QArith_base.Qmake b 1)
  = (a <=? b).
Proof.
  unfold QArith_base.Qle_bool. cbn [QArith_base.Qnum QArith_base.Qden].
  rewrite !Z.mul_1_r. reflexivity.
Qed.

Lemma Qle_bool_trans (x y z : QArith_base.Q) :
  QArith_base.Qle_bool x y = true -> QArith_base.Qle_bool y z = true ->
  QArith_base.Qle_bool x z = true.
Proof.
  rewrite !QArith_base.Qle_bool_iff. apply QArith_base.Qle_trans.
Qed.

Ltac class_neq :=
  intros Hclass;
  first [reflexivity | vm_compute in Hclass; discriminate Hclass].

(** X20. [getPercentClass] never moves to a lower class when the
    percentage grows: a number below one classed [danger] is classed
    [danger], a number above one classed [success] is classed [success].
    On integers the classes are: up to 50 [danger], 51 to 79 [warning],
    from 80 [success]. A percentage that is not a number is classed
    [success]. *)
Theorem getPercentClass_classes :
  (forall z : Z,
     getPercentClass (of_int z)
     = if z <=? 50 then js "danger"
       else if z <? 80 then js "warning" else js "success")
  /\ (forall p q, num_le p q = true ->
        (getPercentClass q = js "danger" -> getPercentClass p = js "danger")
        /\ (getPercentClass p = js "success" ->
            getPercentClass q = js "success"))
  /\ getPercentClass NaN = js "success"
  /\ getPercentClass NegInf = js "danger"
  /\ getPercentClass PosInf = js "success".
Proof.
  split; [|split; [|repeat split]].
  - intros z. unfold getPercentClass, of_int, num_le, num_lt.
    rewrite !Qle_bool_int.
    destruct (Z.leb_spec z 50), (Z.leb_spec 50 z), (Z.leb_spec 80 z),
      (Z.ltb_spec z 80); cbn [negb andb]; try reflexivity; lia.
  - intros p q Hpq. unfold getPercentClass, of_int.
    destruct p as [| | |x], q as [| | |y]; cbn in Hpq; try discriminate Hpq;
      cbn [num_le num_lt andb negb];
      try (split; class_neq);
      try (destruct (QArith_base.Qle_bool _ _);
           [|destruct (negb _ && negb _)]; split; class_neq).
    destruct (QArith_base.Qle_bool y (QArith_base.Qmake 50 1)) eqn:Hy50.
    + rewrite (Qle_bool_trans _ _ _ Hpq Hy50). split; class_neq.
    + destruct (QArith_base.Qle_bool x (QArith_base.Qmake 50 1)) eqn:Hx50;
        [split; class_neq|].
      cbn [negb andb].
      destruct (QArith_base.Qle_bool (QArith_base.Qmake 80 1) x) eqn:H80x;
        cbn [negb].
      * rewrite (Qle_bool_trans _ _ _ H80x Hpq). split; class_neq.
      * destruct (negb _); split; class_neq.
Qed.

Lemma getPercentClass_classes_witness :
  getPercentClass (Finite (QArith_base.Qmake 101 2)) = js "warning"
  /\ (getPercentClass (of_int 90) = js "success").
Proof.
  split; [vm_compute; reflexivity|].
  apply (proj1 (proj2 getPercentClass_classes) (of_int 80) (of_int 90));
    vm_compute; reflexivity.
Defined.
